(** * gobonsai: the branch generator, the canvas and the glyph tables

    A shallow embedding of the Go program (the coloured generator and, in
    [Module Legacy], the earlier monochrome [main.go]) together with the
    properties of its specification.

    Conventions.
    - Go's [int] is modelled by [Z]; [/] and [%] are Go's truncated
      operators, [Z.quot] and [Z.rem], and a zero divisor panics.  Every
      integer of the program (lives, ages, coordinates, counters) moves by
      a bounded amount per step or call, so within any nesting of calls
      that Go's stack allows no value comes near 2^63: wrap-around is left
      out.
    - A [rune] is the code point as a [Z]; strings are byte strings.
    - [math/rand] is not part of the repository: the generator is an
      interface ([RandSource]) and every result holds for each of its
      implementations.
    - Terminal output and sleeping are not modelled; the canvases are. *)

From Stdlib Require Import ZArith List String Ascii Bool Lia.
From stdpp Require Import base list.
Import ListNotations.
Local Open Scope string_scope.
Local Open Scope Z_scope.

(** ** Results of running Go code *)

Inductive PanicKind : Type :=
| DivideByZero      (* integer divide by zero *)
| IndexOutOfRange   (* slice or string index out of range *)
| InvalidArgument.  (* rand.Intn with n <= 0 *)

(** [OutOfFuel] is not a behaviour of the program: it marks a run that the
    bound on nested calls and loop iterations given to the model cut short. *)
Inductive Result (A : Type) : Type :=
| Done (a : A)
| Panic (e : PanicKind)
| OutOfFuel.

Arguments Done {A} a.
Arguments Panic {A} e.
Arguments OutOfFuel {A}.

Definition bindR {A B} (r : Result A) (k : A -> Result B) : Result B :=
  match r with
  | Done a => k a
  | Panic e => Panic e
  | OutOfFuel => OutOfFuel
  end.

Definition finished {A} (r : Result A) : Prop := r <> OutOfFuel.

Definition returns {A} (r : Result A) : Prop := exists a, r = Done a.

(** ** The random source ([*rand.Rand]) *)

Class RandSource (R : Type) : Type := {
  NewSource : Z -> R;          (* rand.New(rand.NewSource(seed)) *)
  Intn : Z -> R -> Z * R       (* r.Intn(n), for n > 0 *)
}.

(** What [math/rand] documents for [Intn]: a value in the half-open
    interval [0, n). *)
Class RandLawful (R : Type) `{RandSource R} : Prop :=
  Intn_range : forall n (r : R), 0 < n -> 0 <= fst (Intn n r) < n.

(** A scripted source: it replays [pending], then answers [fallback] for
    ever; each answer is reduced modulo [n]. *)
Record Script : Type := mkScript { pending : list Z; fallback : Z }.

Definition scriptIntn (n : Z) (s : Script) : Z * Script :=
  match pending s with
  | d :: ds => (d mod n, mkScript ds (fallback s))
  | [] => (fallback s mod n, s)
  end.

#[export] Instance Script_source : RandSource Script :=
  {| NewSource := fun seed => mkScript [] seed; Intn := scriptIntn |}.

(** ** Data model *)

Definition rune : Type := Z.

Definition rune_of (c : ascii) : rune := Z.of_N (N_of_ascii c).

Definition runes (s : string) : list rune := map rune_of (list_ascii_of_string s).

Inductive BranchType : Type := Trunk | ShootLeft | ShootRight | Dying | Dead.

Definition BranchType_eqb (a b : BranchType) : bool :=
  match a, b with
  | Trunk, Trunk | ShootLeft, ShootLeft | ShootRight, ShootRight
  | Dying, Dying | Dead, Dead => true
  | _, _ => false
  end.

(** [Config], without the two [float64] sleep durations [TimeStep] and
    [TimeWait]. *)
Record Config : Type := mkConfig {
  Live : bool;
  Infinite : bool;
  PrintTree : bool;
  LifeStart : Z;
  Multiplier : Z;
  BaseType : Z;
  Seed : Z;
  Message : string;
  Leaves : list string;
  Width : Z;
  Height : Z;
  UseColors : bool
}.

Definition esc : string := String "027"%char EmptyString.
Definition ColorYellow : string := esc ++ "[33m".
Definition ColorBrightBlack : string := esc ++ "[90m".
Definition ColorBrightGreen : string := esc ++ "[92m".
Definition ColorBrightYellow : string := esc ++ "[93m".
Definition ColorMediumGreen : string := esc ++ "[38;5;28m".

Record BonsaiTree (R : Type) : Type := mkTree {
  canvas : list (list rune);
  colorCanvas : list (list string);
  config : Config;
  branches : Z;
  shoots : Z;
  rng : R;
  initialized : bool;
  messageOffset : Z
}.

Arguments mkTree {R}.
Arguments canvas {R}.
Arguments colorCanvas {R}.
Arguments config {R}.
Arguments branches {R}.
Arguments shoots {R}.
Arguments rng {R}.
Arguments initialized {R}.
Arguments messageOffset {R}.

(** The dimensions of a grid: the length of every row, in order. *)
Definition shape {A} (g : list (list A)) : list nat := map length g.

(** The cell at column [x] of row [y], if the grid has one. *)
Definition cell {A} (g : list (list A)) (x y : nat) : option A :=
  match g !! y with
  | Some row => row !! x
  | None => None
  end.

(** [g[y][x] = v], with Go's index checks. *)
Definition store {A} (g : list (list A)) (x y : Z) (v : A) : Result (list (list A)) :=
  if (y <? 0) || (Z.of_nat (length g) <=? y) then Panic IndexOutOfRange
  else match g !! Z.to_nat y with
       | None => Panic IndexOutOfRange
       | Some row =>
           if (x <? 0) || (Z.of_nat (length row) <=? x) then Panic IndexOutOfRange
           else Done (<[Z.to_nat y := <[Z.to_nat x := v]> row]> g)
       end.

(** The guard shared by [SetPixel] and [SetPixelLive]:
    [y >= 0 && y < len(canvas) && x >= 0 && x < len(canvas[y])]. *)
Definition inBounds {A} (g : list (list A)) (x y : Z) : bool :=
  (0 <=? y) && (y <? Z.of_nat (length g)) && (0 <=? x) &&
  match g !! Z.to_nat y with
  | Some row => x <? Z.of_nat (length row)
  | None => false
  end.

(** ** The state of a tree, threaded through the calls *)

Definition M (R A : Type) : Type := BonsaiTree R -> Result (A * BonsaiTree R).

Definition ret {R A} (a : A) : M R A := fun bt => Done (a, bt).

Definition bind {R A B} (m : M R A) (k : A -> M R B) : M R B :=
  fun bt => bindR (m bt) (fun p => k (fst p) (snd p)).

Definition get {R} : M R (BonsaiTree R) := fun bt => Done (bt, bt).

Definition put {R} (bt : BonsaiTree R) : M R unit := fun _ => Done (tt, bt).

Definition liftR {R A} (r : Result A) : M R A :=
  fun bt => bindR r (fun a => Done (a, bt)).

Notation "'let*' x ':=' c 'in' k" := (bind c (fun x => k))
  (at level 10, x name, c at level 100, k at level 200).
Notation "'let*' ' pat ':=' c 'in' k" := (bind c (fun x => match x with pat => k end))
  (at level 10, pat pattern, c at level 100, k at level 200).
Notation "'run' c 'in' k" := (bind c (fun _ => k))
  (at level 10, c at level 100, k at level 200).

Section Canvas.

Context {R : Type} {RS : RandSource R}.

Definition setCanvas (g : list (list rune)) (bt : BonsaiTree R) : BonsaiTree R :=
  mkTree g (colorCanvas bt) (config bt) (branches bt) (shoots bt) (rng bt)
         (initialized bt) (messageOffset bt).

Definition setColorCanvas (g : list (list string)) (bt : BonsaiTree R) : BonsaiTree R :=
  mkTree (canvas bt) g (config bt) (branches bt) (shoots bt) (rng bt)
         (initialized bt) (messageOffset bt).

Definition setRng (r : R) (bt : BonsaiTree R) : BonsaiTree R :=
  mkTree (canvas bt) (colorCanvas bt) (config bt) (branches bt) (shoots bt) r
         (initialized bt) (messageOffset bt).

(** [NewBonsaiTree], given the terminal size that [getTerminalSize] found. *)
Definition NewBonsaiTree (cfg : Config) (width height : nat) : BonsaiTree R :=
  let cfg' := mkConfig (Live cfg) (Infinite cfg) (PrintTree cfg) (LifeStart cfg)
                (Multiplier cfg) (BaseType cfg) (Seed cfg) (Message cfg) (Leaves cfg)
                (Z.of_nat width) (Z.of_nat height) (UseColors cfg) in
  mkTree (replicate height (replicate width (rune_of " ")))
         (replicate height (replicate width ""))
         cfg' 0 0 (NewSource (Seed cfg)) false 0.

(** [SetPixel]: both canvases are written. *)
Definition SetPixel (x y : Z) (char : rune) (color : string) : M R unit :=
  let* bt := get in
  if inBounds (canvas bt) x y then
    let* cv := liftR (store (canvas bt) x y char) in
    let* cc := liftR (store (colorCanvas bt) x y color) in
    put (setColorCanvas cc (setCanvas cv bt))
  else ret tt.

(** [SetPixelLive]: only the character canvas is written; the cell is also
    sent to the terminal when [Live] is set. *)
Definition SetPixelLive (x y : Z) (char : rune) (color : string) : M R unit :=
  let* bt := get in
  if inBounds (canvas bt) x y then
    let* cv := liftR (store (canvas bt) x y char) in
    put (setCanvas cv bt)
  else ret tt.

(** A sequence of [SetPixel] calls, each [(x, y, char, color)]. *)
Fixpoint SetPixels (calls : list (Z * Z * rune * string)) : M R unit :=
  match calls with
  | [] => ret tt
  | (x, y, char, color) :: rest => run SetPixel x y char color in SetPixels rest
  end.

End Canvas.

(** ** Go's checked primitives *)

(** [a % b] on [int]. *)
Definition goRem (a b : Z) : Result Z :=
  if b =? 0 then Panic DivideByZero else Done (Z.rem a b).

(** [l[i]] on a slice. *)
Definition sliceIndex {A} (l : list A) (i : Z) : Result A :=
  if (i <? 0) || (Z.of_nat (length l) <=? i) then Panic IndexOutOfRange
  else match l !! Z.to_nat i with
       | Some a => Done a
       | None => Panic IndexOutOfRange
       end.

(** [s[i]] on a string: the byte at offset [i]. *)
Definition stringIndex (s : string) (i : Z) : Result ascii :=
  if (i <? 0) || (Z.of_nat (String.length s) <=? i) then Panic IndexOutOfRange
  else match String.get (Z.to_nat i) s with
       | Some b => Done b
       | None => Panic IndexOutOfRange
       end.

Definition len (s : string) : Z := Z.of_nat (String.length s).

(** [int(float64(m)*0.5 + 0.5)]: the product and the sum are exact for
    every [m] below 2^52 in size, and the conversion truncates. *)
Definition halfUp (m : Z) : Z := Z.quot (m + 1) 2.

Definition dquote : string := String "034"%char EmptyString.

(** ** The dice tables of [GetDeltas] *)

Definition trunkDx (dice : Z) : Z :=
  if dice =? 0 then -2
  else if dice <=? 3 then -1
  else if dice <=? 5 then 0
  else if dice <=? 8 then 1
  else if dice =? 9 then 2
  else 0.

Definition shootLeftDy (dice : Z) : Z :=
  if dice <=? 1 then -1 else if dice <=? 7 then 0 else 1.

Definition shootLeftDx (dice : Z) : Z :=
  if dice <=? 1 then -2 else if dice <=? 5 then -1 else if dice <=? 8 then 0 else 1.

Definition shootRightDy (dice : Z) : Z :=
  if dice <=? 1 then -1 else if dice <=? 7 then 0 else 1.

Definition shootRightDx (dice : Z) : Z :=
  if dice <=? 1 then 2 else if dice <=? 5 then 1 else if dice <=? 8 then 0 else -1.

Definition dyingDy (dice : Z) : Z :=
  if dice <=? 1 then -1 else if dice <=? 8 then 0 else 1.

Definition dyingDx (dice : Z) : Z :=
  if dice =? 0 then -3
  else if dice <=? 2 then -2
  else if dice <=? 5 then -1
  else if dice <=? 8 then 0
  else if dice <=? 11 then 1
  else if dice <=? 13 then 2
  else 3.

Definition deadDy (dice : Z) : Z :=
  if dice <=? 2 then -1 else if dice <=? 6 then 0 else 1.

(** ** The glyph table of [ChooseChar] for the three woody kinds *)

Definition trunkChar (dx dy : Z) : rune :=
  if dy =? 0 then rune_of "~"
  else if dx <? 0 then rune_of "\"
  else if dx =? 0 then rune_of "|"
  else rune_of "/".

Definition shootLeftChar (dx dy : Z) : rune :=
  if dy >? 0 then rune_of "\"
  else if dy =? 0 then rune_of "_"
  else if dx <? 0 then rune_of "\"
  else if dx =? 0 then rune_of "|"
  else rune_of "/".

Definition shootRightChar (dx dy : Z) : rune :=
  if dy >? 0 then rune_of "/"
  else if dy =? 0 then rune_of "_"
  else if dx <? 0 then rune_of "\"
  else if dx =? 0 then rune_of "|"
  else rune_of "/".

Section Growth.

Context {R : Type} {RS : RandSource R}.

(** [bt.rng.Intn(n)]; [math/rand] panics when [n <= 0]. *)
Definition intn (n : Z) : M R Z := fun bt =>
  if n <=? 0 then Panic InvalidArgument
  else let p := Intn n (rng bt) in Done (fst p, setRng (snd p) bt).

Definition GetBranchColor (branchType : BranchType) : M R string :=
  let* bt := get in
  if negb (UseColors (config bt)) then ret ""
  else match branchType with
       | Trunk => ret ColorYellow
       | ShootLeft | ShootRight =>
           let* d := intn 4 in
           if d =? 0 then ret ColorYellow else ret ColorBrightYellow
       | Dying | Dead =>
           let* dice := intn 10 in
           if dice <=? 8 then ret ColorBrightGreen
           else if dice =? 9 then ret ColorMediumGreen
           else if dice =? 9 then ret ColorBrightYellow
           else ret ""
       end.

Definition GetBaseColor : M R string :=
  let* bt := get in
  if negb (UseColors (config bt)) then ret "" else ret ColorBrightBlack.

(** [GetDeltas] returns [(dx, dy)]. *)
Definition GetDeltas (branchType : BranchType) (life age : Z) : M R (Z * Z) :=
  let* bt := get in
  let mult := Multiplier (config bt) in
  match branchType with
  | Trunk =>
      if (age <=? 2) || (life <? 4) then
        let* d := intn 3 in
        ret (d - 1, 0)
      else if age <? mult * 3 then
        let* m := liftR (goRem age (halfUp mult)) in
        let dy := if m =? 0 then -1 else 0 in
        let* dice := intn 10 in
        ret (trunkDx dice, dy)
      else
        let* d := intn 10 in
        let dy := if d >? 2 then -1 else 0 in
        let* d3 := intn 3 in
        ret (d3 - 1, dy)
  | ShootLeft =>
      let* dice := intn 10 in
      let dy := shootLeftDy dice in
      let* dice := intn 10 in
      ret (shootLeftDx dice, dy)
  | ShootRight =>
      let* dice := intn 10 in
      let dy := shootRightDy dice in
      let* dice := intn 10 in
      ret (shootRightDx dice, dy)
  | Dying =>
      let* dice := intn 10 in
      let dy := dyingDy dice in
      let* dice := intn 15 in
      ret (dyingDx dice, dy)
  | Dead =>
      let* dice := intn 10 in
      let dy := deadDy dice in
      let* d3 := intn 3 in
      ret (d3 - 1, dy)
  end.

(** The kind that selects the glyph: [if life < 4 { branchType = Dying }]. *)
Definition glyphKind (branchType : BranchType) (life : Z) : BranchType :=
  if life <? 4 then Dying else branchType.

(** [ChooseChar].  The closing [return '?'] of the source is not reached:
    the switch covers the five kinds. *)
Definition ChooseChar (branchType : BranchType) (life dx dy : Z) : M R rune :=
  match glyphKind branchType life with
  | Trunk => ret (trunkChar dx dy)
  | ShootLeft => ret (shootLeftChar dx dy)
  | ShootRight => ret (shootRightChar dx dy)
  | Dying | Dead =>
      let* bt := get in
      let leaves := Leaves (config bt) in
      if Z.of_nat (length leaves) >? 0 then
        let* i := intn (Z.of_nat (length leaves)) in
        let* leaf := liftR (sliceIndex leaves i) in
        let* b := liftR (stringIndex leaf 0) in
        ret (rune_of b)
      else ret (rune_of "&")
  end.

(** The recurring
    [if bt.config.Live { bt.SetPixelLive(..) } else { bt.SetPixel(..) }]. *)
Definition drawPixel (x y : Z) (char : rune) (color : string) : M R unit :=
  let* bt := get in
  if Live (config bt) then SetPixelLive x y char color
  else SetPixel x y char color.

Definition incrBranches : M R unit := fun bt =>
  Done (tt, mkTree (canvas bt) (colorCanvas bt) (config bt) (branches bt + 1)
                   (shoots bt) (rng bt) (initialized bt) (messageOffset bt)).

Definition incrShoots : M R unit := fun bt =>
  Done (tt, mkTree (canvas bt) (colorCanvas bt) (config bt) (branches bt)
                   (shoots bt + 1) (rng bt) (initialized bt) (messageOffset bt)).

(** The age of a step and its movement: the lines of the loop of [Branch]
    from [age := ...] to the first-move rule.  [life] is the life already
    decremented. *)
Definition branchAge (cfg : Config) (life : Z) : Z := LifeStart cfg - life.

Definition groundClamp (cfg : Config) (y dy : Z) : Z :=
  if (dy >? 0) && (y >? Height cfg - 7) then dy - 1 else dy.

Definition firstMoveLift (age dy : Z) : Z :=
  if (age =? 1) && (dy >=? 0) then -2 else dy.

Definition stepDeltas (y : Z) (branchType : BranchType) (life : Z) : M R (Z * Z) :=
  let* bt := get in
  let age := branchAge (config bt) life in
  let* '(dx, dy) := GetDeltas branchType life age in
  let dy := groundClamp (config bt) y dy in
  let dy := firstMoveLift age dy in
  ret (dx, dy).

(** The branching logic of one step; [Branch] stands for the recursive
    call.  It returns the shoot cooldown as the step leaves it, before the
    decrement. *)
Definition branching (Branch : Z -> Z -> BranchType -> Z -> M R unit)
    (x y : Z) (branchType : BranchType) (life shootCooldown : Z) : M R Z :=
  let* bt := get in
  let mult := Multiplier (config bt) in
  if life <? 3 then
    run Branch x y Dead life in ret shootCooldown
  else if BranchType_eqb branchType Trunk && (life <? mult + 2) then
    run Branch x y Dying life in ret shootCooldown
  else if (BranchType_eqb branchType ShootLeft || BranchType_eqb branchType ShootRight)
          && (life <? mult + 2) then
    run Branch x y Dying life in ret shootCooldown
  else if BranchType_eqb branchType Trunk then
    let* d := intn 3 in
    let* fires :=
      (if d =? 0 then ret true
       else let* m := liftR (goRem life mult) in ret (m =? 0)) in
    if fires then
      let* d8 := intn 8 in
      if (d8 =? 0) && (life >? 7) then
        let* jitter := intn 5 in
        run Branch x y Trunk (life + jitter - 2) in
        ret (mult * 2)
      else if shootCooldown <=? 0 then
        let shootLife := life + mult in
        run incrShoots in
        let* bt := get in
        run (if Z.rem (shoots bt) 2 =? 0 then Branch x y ShootLeft shootLife
             else Branch x y ShootRight shootLife) in
        ret (mult * 2)
      else ret shootCooldown
    else ret shootCooldown
  else ret shootCooldown.

(** The loop of [Branch].  [fuel] bounds the nesting of calls and
    iterations; the program has no such bound. *)
Fixpoint BranchLoop (fuel : nat) (x y : Z) (branchType : BranchType)
    (life shootCooldown : Z) {struct fuel} : M R unit :=
  match fuel with
  | O => fun _ => OutOfFuel
  | S fuel' =>
      if life >? 0 then
        let life := life - 1 in
        let* '(dx, dy) := stepDeltas y branchType life in
        let* shootCooldown :=
          branching
            (fun x y ty l =>
               run incrBranches in
               let* bt := get in
               BranchLoop fuel' x y ty l (Multiplier (config bt)))
            x y branchType life shootCooldown in
        let shootCooldown := shootCooldown - 1 in
        let x := x + dx in
        let y := y + dy in
        let* char := ChooseChar branchType life dx dy in
        let* color := GetBranchColor branchType in
        run drawPixel x y char color in
        BranchLoop fuel' x y branchType life shootCooldown
      else ret tt
  end.

Definition Branch (fuel : nat) (x y : Z) (branchType : BranchType) (life : Z) : M R unit :=
  run incrBranches in
  let* bt := get in
  BranchLoop fuel x y branchType life (Multiplier (config bt)).

(** [for i, char := range s], for the ASCII literals of [DrawBase]. *)
Fixpoint rangeString (i : Z) (s : list rune) (body : Z -> rune -> M R unit) : M R unit :=
  match s with
  | [] => ret tt
  | char :: rest => run body i char in rangeString (i + 1) rest body
  end.

Definition grassChars : string := (".,~`'^" ++ dquote ++ "*o%").

(** The body of the loop over the rim of the large pot. *)
Definition potRimCell (baseColor grassColor : string) (startX baseY i : Z) (char : rune)
  : M R unit :=
  let* '(char, currentColor) :=
    (if (char =? rune_of "(") || (char =? rune_of ")") || (char =? rune_of "^") then
       ret (char, baseColor)
     else if char =? rune_of "_" then
       let index := Z.rem ((i - 7) + len grassChars) (len grassChars) in
       let* b := liftR (stringIndex grassChars index) in
       ret (rune_of b, grassColor)
     else if (char =? rune_of ".") || (char =? rune_of "/") || (char =? rune_of "~")
             || (char =? rune_of "\") then
       ret (char, ColorYellow)
     else if (i >? 0) && (i <? 30) then
       let* char :=
         (if char =? rune_of " " then
            let* b := liftR (stringIndex grassChars (Z.rem (i - 7) (len grassChars))) in
            ret (rune_of b)
          else ret char) in
       ret (char, grassColor)
     else ret (char, baseColor)) in
  drawPixel (startX + i) (baseY - 3) char currentColor.

Definition DrawBase : M R unit :=
  let* bt := get in
  let cfg := config bt in
  if BaseType cfg =? 0 then ret tt
  else
    let baseY := Height cfg - 1 in
    let centerX := Z.quot (Width cfg) 2 in
    let grassColor := if UseColors cfg then ColorBrightGreen else "" in
    if BaseType cfg =? 1 then
      let line3 := ":___________./~~~\.___________:" in
      let startX := centerX - Z.quot (len line3) 2 in
      let* baseColor := GetBaseColor in
      run rangeString 0 (runes line3) (potRimCell baseColor grassColor startX baseY) in
      let line2 := " \                           / " in
      let startX := centerX - Z.quot (len line2) 2 in
      run rangeString 0 (runes line2)
            (fun i char => drawPixel (startX + i) (baseY - 2) char baseColor) in
      let line1 := "  \_________________________/ " in
      let startX := centerX - Z.quot (len line1) 2 in
      run rangeString 0 (runes line1)
            (fun i char => drawPixel (startX + i) (baseY - 1) char baseColor) in
      let base := "   (^)                 (^)   " in
      let startX := centerX - Z.quot (len base) 2 in
      rangeString 0 (runes base)
        (fun i char => drawPixel (startX + i) baseY char baseColor)
    else if BaseType cfg =? 2 then
      let grassLine := (".,~`'^" ++ dquote ++ ".,~`'^" ++ dquote ++ ".,~`'^" ++ dquote ++ ".") in
      let grassStartX := centerX - Z.quot (len grassLine) 2 in
      let grassColor := if UseColors cfg then ColorMediumGreen else "" in
      run rangeString 0 (runes grassLine)
            (fun i char =>
               if (grassStartX + i >=? 0) && (grassStartX + i <? Width cfg)
                  && (baseY - 3 >=? 0)
               then drawPixel (grassStartX + i) (baseY - 3) char grassColor
               else ret tt) in
      let line2 := "  (^^^^^^^)  " in
      let startX := centerX - Z.quot (len line2) 2 in
      run rangeString 0 (runes line2)
            (fun i char => drawPixel (startX + i) (baseY - 2) char grassColor) in
      let line1 := " (           ) " in
      let startX := centerX - Z.quot (len line1) 2 in
      let* baseColor := GetBaseColor in
      run rangeString 0 (runes line1)
            (fun i char => drawPixel (startX + i) (baseY - 1) char baseColor) in
      let base := "(---./~~~\.---)" in
      let startX := centerX - Z.quot (len base) 2 in
      rangeString 0 (runes base)
        (fun i char => drawPixel (startX + i) baseY char baseColor)
    else ret tt.

(** The state left by [Render]; what it prints is not modelled. *)
Definition Render : M R unit := fun bt =>
  let cfg := config bt in
  let off :=
    if Live cfg && negb (String.eqb (Message cfg) "") && (messageOffset bt =? 0)
    then len (Message cfg) else messageOffset bt in
  Done (tt, mkTree (canvas bt) (colorCanvas bt) cfg (branches bt) (shoots bt) (rng bt)
                   true off).

(** The two nested loops that blank both canvases, cell by cell. *)
Fixpoint clearCells (y : Z) (x : Z) (n : nat) : M R unit :=
  match n with
  | O => ret tt
  | S n' =>
      let* bt := get in
      let* cv := liftR (store (canvas bt) x y (rune_of " ")) in
      let* cc := liftR (store (colorCanvas bt) x y "") in
      run put (setColorCanvas cc (setCanvas cv bt)) in
      clearCells y (x + 1) n'
  end.

Fixpoint clearRows (y : Z) (n : nat) : M R unit :=
  match n with
  | O => ret tt
  | S n' =>
      let* bt := get in
      let* row := liftR (sliceIndex (canvas bt) y) in
      run clearCells y 0 (length row) in
      clearRows (y + 1) n'
  end.

(** The first half of [GrowTree]: the counters are reset, both canvases
    blanked, the screen of live mode set up, the base drawn. *)
Definition resetTree : M R unit :=
  let* bt := get in
  run put (mkTree (canvas bt) (colorCanvas bt) (config bt) 0 0 (rng bt) false 0) in
  run clearRows 0 (length (canvas bt)) in
  let* bt := get in
  let cfg := config bt in
  run (if Live cfg
       then put (mkTree (canvas bt) (colorCanvas bt) cfg (branches bt) (shoots bt)
                        (rng bt) true (messageOffset bt))
       else ret tt) in
  DrawBase.

(** [GrowTree]: after the reset, the trunk grows from above the base. *)
Definition GrowTree (fuel : nat) : M R unit :=
  run resetTree in
  let* bt := get in
  let cfg := config bt in
  let startX := Z.quot (Width cfg) 2 in
  let startY := Height cfg + 2 in
  let startY := if BaseType cfg >? 0 then startY - 5 else startY in
  run Branch fuel startX startY Trunk (LifeStart cfg) in
  if negb (Live cfg) then Render else ret tt.

End Growth.

(** ** The monochrome generator of [main.go]

    [GetDeltas], [ChooseChar] and the branching logic of [Branch] are the
    same text in both files and are shared.  The tree of [main.go] has only
    [canvas], [config], [branches], [shoots] and [rng]: the other fields of
    the record are carried along untouched. *)

Module Legacy.

Section Growth.

Context {R : Type} {RS : RandSource R}.

Definition NewBonsaiTree (cfg : Config) (width height : nat) : BonsaiTree R :=
  let cfg' := mkConfig (Live cfg) (Infinite cfg) (PrintTree cfg) (LifeStart cfg)
                (Multiplier cfg) (BaseType cfg) (Seed cfg) (Message cfg) (Leaves cfg)
                (Z.of_nat width) (Z.of_nat height) (UseColors cfg) in
  mkTree (replicate height (replicate width (rune_of " "))) []
         cfg' 0 0 (NewSource (Seed cfg)) false 0.

Definition SetPixel (x y : Z) (char : rune) : M R unit :=
  let* bt := get in
  if inBounds (canvas bt) x y then
    let* cv := liftR (store (canvas bt) x y char) in
    put (setCanvas cv bt)
  else ret tt.

Fixpoint SetPixels (calls : list (Z * Z * rune)) : M R unit :=
  match calls with
  | [] => ret tt
  | (x, y, char) :: rest => run SetPixel x y char in SetPixels rest
  end.

(** [if dy > 0 && y > (bt.config.Height-3) { dy-- }]; no first-move rule
    follows it. *)
Definition groundClamp (cfg : Config) (y dy : Z) : Z :=
  if (dy >? 0) && (y >? Height cfg - 3) then dy - 1 else dy.

Definition stepDeltas (y : Z) (branchType : BranchType) (life : Z) : M R (Z * Z) :=
  let* bt := get in
  let age := branchAge (config bt) life in
  let* '(dx, dy) := GetDeltas branchType life age in
  let dy := groundClamp (config bt) y dy in
  ret (dx, dy).

Fixpoint BranchLoop (fuel : nat) (x y : Z) (branchType : BranchType)
    (life shootCooldown : Z) {struct fuel} : M R unit :=
  match fuel with
  | O => fun _ => OutOfFuel
  | S fuel' =>
      if life >? 0 then
        let life := life - 1 in
        let* '(dx, dy) := stepDeltas y branchType life in
        let* shootCooldown :=
          branching
            (fun x y ty l =>
               run incrBranches in
               let* bt := get in
               BranchLoop fuel' x y ty l (Multiplier (config bt)))
            x y branchType life shootCooldown in
        let shootCooldown := shootCooldown - 1 in
        let x := x + dx in
        let y := y + dy in
        let* char := ChooseChar branchType life dx dy in
        run SetPixel x y char in
        BranchLoop fuel' x y branchType life shootCooldown
      else ret tt
  end.

Definition Branch (fuel : nat) (x y : Z) (branchType : BranchType) (life : Z) : M R unit :=
  run incrBranches in
  let* bt := get in
  BranchLoop fuel x y branchType life (Multiplier (config bt)).

Definition drawLine (line : string) (centerX y : Z) : M R unit :=
  let startX := centerX - Z.quot (len line) 2 in
  rangeString 0 (runes line) (fun i char => SetPixel (startX + i) y char).

Definition DrawBase : M R unit :=
  let* bt := get in
  let cfg := config bt in
  if BaseType cfg =? 0 then ret tt
  else
    let baseY := Height cfg - 1 in
    let centerX := Z.quot (Width cfg) 2 in
    if BaseType cfg =? 1 then
      run drawLine ":___________./~~~\.___________:" centerX baseY in
      run drawLine " \                           / " centerX (baseY - 1) in
      run drawLine "  \_________________________/ " centerX (baseY - 2) in
      drawLine "  (_)                     (_)" centerX (baseY - 3)
    else if BaseType cfg =? 2 then
      run drawLine "(---./~~~\.---)" centerX baseY in
      run drawLine " (           ) " centerX (baseY - 1) in
      drawLine "  (_________)  " centerX (baseY - 2)
    else ret tt.

Fixpoint clearCells (y : Z) (x : Z) (n : nat) : M R unit :=
  match n with
  | O => ret tt
  | S n' =>
      let* bt := get in
      let* cv := liftR (store (canvas bt) x y (rune_of " ")) in
      run put (setCanvas cv bt) in
      clearCells y (x + 1) n'
  end.

Fixpoint clearRows (y : Z) (n : nat) : M R unit :=
  match n with
  | O => ret tt
  | S n' =>
      let* bt := get in
      let* row := liftR (sliceIndex (canvas bt) y) in
      run clearCells y 0 (length row) in
      clearRows (y + 1) n'
  end.

(** [GrowTree]; its [Render] only prints. *)
Definition GrowTree (fuel : nat) : M R unit :=
  let* bt := get in
  run put (mkTree (canvas bt) (colorCanvas bt) (config bt) 0 0 (rng bt)
                  (initialized bt) (messageOffset bt)) in
  run clearRows 0 (length (canvas bt)) in
  run DrawBase in
  let* bt := get in
  let cfg := config bt in
  let startX := Z.quot (Width cfg) 2 in
  let startY := Height cfg - 1 in
  let startY := if BaseType cfg >? 0 then startY - 4 else startY in
  Branch fuel startX startY Trunk (LifeStart cfg).

End Growth.

End Legacy.

(** ** [strings.Split(s, ",")], used on the [--leaf] flag *)

Fixpoint splitComma (s : string) : list string :=
  match s with
  | EmptyString => [EmptyString]
  | String c rest =>
      if Ascii.eqb c ","%char then EmptyString :: splitComma rest
      else match splitComma rest with
           | piece :: pieces => String c piece :: pieces
           | [] => [String c EmptyString]
           end
  end.

(** The [--leaf] handling of [main]: the default list stays when the flag
    is the empty string. *)
Definition parseLeaves (leavesStr : string) (default : list string) : list string :=
  if String.eqb leavesStr "" then default else splitComma leavesStr.

Definition defaultLeaves : list string := ["&"; "*"; "o"; "@"; "%"].

(** The range checks of [main]. *)
Definition validConfig (cfg : Config) : bool :=
  (0 <=? LifeStart cfg) && (LifeStart cfg <=? 200)
  && (0 <=? Multiplier cfg) && (Multiplier cfg <=? 20)
  && (0 <=? BaseType cfg) && (BaseType cfg <=? 2).

(** ** Vocabulary of the statements *)

(** What the last call aimed at cell [(x, y)] wrote there, if any call did. *)
Fixpoint lastWrite (calls : list (Z * Z * rune * string)) (x y : nat)
  : option (rune * string) :=
  match calls with
  | [] => None
  | (cx, cy, char, color) :: rest =>
      match lastWrite rest x y with
      | Some w => Some w
      | None =>
          if (cx =? Z.of_nat x) && (cy =? Z.of_nat y) then Some (char, color) else None
      end
  end.

(** The content of a cell after a write of [v] at [(x, y)]. *)
Definition overwrite {A} (x y : Z) (v : A) (i j : nat) (old : option A) : option A :=
  match old with
  | None => None
  | Some a => Some (if (x =? Z.of_nat i) && (y =? Z.of_nat j) then v else a)
  end.

(** Everything of a tree but its two canvases. *)
Definition sameControl {R} (a b : BonsaiTree R) : Prop :=
  config a = config b /\ branches a = branches b /\ shoots a = shoots b /\
  rng a = rng b /\ initialized a = initialized b /\ messageOffset a = messageOffset b.

(** The content of a cell after a sequence of calls: the last write aimed
    at it, or what it held. *)
Definition painted {A} (pick : rune * string -> A) (calls : list (Z * Z * rune * string))
    (i j : nat) (old : option A) : option A :=
  match old with
  | None => None
  | Some a => Some (match lastWrite calls i j with Some w => pick w | None => a end)
  end.

(** No call of the sequence names a cell of the grid. *)
Definition allOutside {A} (g : list (list A)) (calls : list (Z * Z * rune * string)) : Prop :=
  Forall (fun c => inBounds g (fst (fst (fst c))) (snd (fst (fst c))) = false) calls.

(** The number of faces of an [n]-sided die, numbered from 0, on which
    [table] gives [v]; with a fair die the chance of [v] is this count
    over [n]. *)
Definition faces (n : nat) (table : Z -> Z) (v : Z) : nat :=
  length (List.filter (fun d => table d =? v) (map Z.of_nat (seq 0 n))).

(** The vertical split of both shoot kinds on the ten-sided die: how many
    faces go up, stay level and go down. *)
Definition shootDySplit (up level down : nat) : Prop :=
  (faces 10 shootLeftDy (-1) = up /\ faces 10 shootLeftDy 0 = level
   /\ faces 10 shootLeftDy 1 = down) /\
  (faces 10 shootRightDy (-1) = up /\ faces 10 shootRightDy 0 = level
   /\ faces 10 shootRightDy 1 = down).

(** The two horizontal tables mirror each other along x. *)
Definition shootDxMirrored : Prop :=
  forall v, faces 10 shootRightDx v = faces 10 shootLeftDx (- v).

(** A result with the horizontal delta negated. *)
Definition mirrorX {S} (r : Result (Z * Z * S)) : Result (Z * Z * S) :=
  match r with
  | Done (dx, dy, s) => Done (- dx, dy, s)
  | Panic e => Panic e
  | OutOfFuel => OutOfFuel
  end.



(** The one-letter string of a glyph. *)
Definition glyphString (c : rune) : string :=
  String (ascii_of_N (Z.to_N c)) EmptyString.

(** A leaf list every string of which has a first byte. *)
Definition leavesUsable (leaves : list string) : Prop :=
  Forall (fun s => s <> EmptyString) leaves.

(** The first byte of a string. *)
Definition firstByte (s : string) : option rune :=
  match s with
  | EmptyString => None
  | String b _ => Some (rune_of b)
  end.

(** The foliage case of [ChooseChar], spelled out. *)
Definition leafGlyph {R} {RS : RandSource R} (bt : BonsaiTree R)
  : Result (rune * BonsaiTree R) :=
  match Leaves (config bt) with
  | [] => Done (rune_of "&", bt)
  | _ :: _ =>
      let n := Z.of_nat (length (Leaves (config bt))) in
      let d := Intn n (rng bt) in
      match sliceIndex (Leaves (config bt)) (fst d) with
      | Done leaf =>
          match firstByte leaf with
          | Some c => Done (c, setRng (snd d) bt)
          | None => Panic IndexOutOfRange
          end
      | Panic e => Panic e
      | OutOfFuel => OutOfFuel
      end
  end.

(** ** Invariant and outcomes of a run *)

(** What every operation of the generator keeps: the configuration, and
    two canvases of one shape. *)
Definition Inv {R} (cfg : Config) (bt : BonsaiTree R) : Prop :=
  config bt = cfg /\ shape (canvas bt) = shape (colorCanvas bt).

(** An outcome that keeps the invariant, returns a value in [Q], and
    panics or runs out of fuel only if that is allowed. *)
Definition holds {R A} (panicOk fuelOk : bool) (cfg : Config) (Q : A -> Prop)
    (r : Result (A * BonsaiTree R)) : Prop :=
  match r with
  | Done p => Inv cfg (snd p) /\ Q (fst p)
  | Panic _ => panicOk = true
  | OutOfFuel => fuelOk = true
  end.

Definition steady {R A} (panicOk fuelOk : bool) (cfg : Config) (m : M R A)
    (Q : A -> Prop) : Prop :=
  forall bt, Inv cfg bt -> holds panicOk fuelOk cfg Q (m bt).

(** A generator whose trunk forks never get more life than the step that
    forks has left: the jitter [Intn(5) - 2] is never positive. *)
Definition forkDown (R : Type) {RS : RandSource R} : Prop :=
  forall r : R, fst (Intn 5 r) <= 2.

(** The calls a step of kind [ty] with remaining life [life] can make:
    kind and life of the branch it creates. *)
Inductive spawns {R} {RS : RandSource R} (cfg : Config) (ty : BranchType) (life : Z)
  : BranchType -> Z -> Prop :=
| spawns_dead : life < 3 -> spawns cfg ty life Dead life
| spawns_dying :
    ty <> Dying -> ty <> Dead -> 3 <= life -> life < Multiplier cfg + 2 ->
    spawns cfg ty life Dying life
| spawns_fork (r : R) :
    ty = Trunk -> 7 < life -> Multiplier cfg + 2 <= life ->
    spawns cfg ty life Trunk (life + fst (Intn 5 r) - 2)
| spawns_shoot (cty : BranchType) :
    ty = Trunk -> cty = ShootLeft \/ cty = ShootRight -> 3 <= life ->
    Multiplier cfg + 2 <= life ->
    spawns cfg ty life cty (life + Multiplier cfg).

(** Fuel that a branch of kind [ty] and life [life] needs at most, when its
    trunk forks do not gain life. *)
Definition need (cfg : Config) (ty : BranchType) (life : Z) : nat :=
  match ty with
  | Trunk => Z.to_nat life + Z.to_nat (Multiplier cfg) + 1
  | _ => Z.to_nat life + 1
  end.

(** The branches whose recursion is bounded by their life alone. *)
Definition tame (R : Type) {RS : RandSource R} (ty : BranchType) (life : Z) : Prop :=
  ty <> Trunk \/ life <= 8 \/ forkDown R.

(** The conditions under which no step of the generator panics. *)
Definition panicFree (R : Type) {RS : RandSource R} (cfg : Config) : Prop :=
  Multiplier cfg <> 0 /\ RandLawful R /\ leavesUsable (Leaves cfg).

(** ** Comparing runs *)

(** [m1] does what [m2] does, unless it runs out of fuel. *)
Definition refines {R A} (m1 m2 : M R A) : Prop :=
  forall bt, m1 bt = OutOfFuel \/ m1 bt = m2 bt.

(** The tunables of a configuration: all of it but the presentation
    ([Live], [Infinite], [PrintTree], [Message]) and the terminal size,
    which [NewBonsaiTree] overwrites. *)
Definition sameTunables (c1 c2 : Config) : Prop :=
  LifeStart c1 = LifeStart c2 /\ Multiplier c1 = Multiplier c2 /\
  BaseType c1 = BaseType c2 /\ Seed c1 = Seed c2 /\ Leaves c1 = Leaves c2 /\
  UseColors c1 = UseColors c2.

(** Two trees in step: same characters, same generator state, same shoot
    counter, same tunables and size, and canvases of one shape each. *)
Definition Sim {R} (b1 b2 : BonsaiTree R) : Prop :=
  canvas b1 = canvas b2 /\ rng b1 = rng b2 /\ shoots b1 = shoots b2 /\
  sameTunables (config b1) (config b2) /\
  Width (config b1) = Width (config b2) /\ Height (config b1) = Height (config b2) /\
  shape (canvas b1) = shape (colorCanvas b1) /\
  shape (canvas b2) = shape (colorCanvas b2).

(** Two outcomes in step: both return, with values in [V] and trees in
    step, or both panic alike, or both run out of fuel. *)
Definition agree {R A} (V : A -> A -> Prop) (r1 r2 : Result (A * BonsaiTree R)) : Prop :=
  match r1, r2 with
  | Done p1, Done p2 => V (fst p1) (fst p2) /\ Sim (snd p1) (snd p2)
  | Panic e1, Panic e2 => e1 = e2
  | OutOfFuel, OutOfFuel => True
  | _, _ => False
  end.

Definition related {R A} (V : A -> A -> Prop) (m1 m2 : M R A) : Prop :=
  forall b1 b2, Sim b1 b2 -> agree V (m1 b1) (m2 b2).

(** Two finished runs of [GrowTree] with the same result: the same
    character grid, generator state and shoot count, or the same panic. *)
Definition sameOutcome {R} (r1 r2 : Result (unit * BonsaiTree R)) : Prop :=
  match r1, r2 with
  | Done p1, Done p2 =>
      canvas (snd p1) = canvas (snd p2) /\ rng (snd p1) = rng (snd p2) /\
      shoots (snd p1) = shoots (snd p2)
  | Panic e1, Panic e2 => e1 = e2
  | _, _ => False
  end.

(** The grid after [g[y][x] = char] under the bounds guard. *)
Definition paint {A} (g : list (list A)) (x y : Z) (v : A) : list (list A) :=
  if inBounds g x y then
    match g !! Z.to_nat y with
    | Some row => <[Z.to_nat y := <[Z.to_nat x := v]> row]> g
    | None => g
    end
  else g.

(** ** Sample inputs *)

(** The configuration [main] starts from, without colours. *)
Definition sampleConfig (life mult base seed : Z) (leaves : list string) : Config :=
  mkConfig false false true life mult base seed "" leaves 0 0 false.

(** A fresh tree on a scripted source that replays [draws] and then
    repeats the seed. *)
Definition sampleTree (cfg : Config) (width height : nat) (draws : list Z)
  : BonsaiTree Script :=
  let bt := NewBonsaiTree cfg width height in
  mkTree (canvas bt) (colorCanvas bt) (config bt) (branches bt) (shoots bt)
         (mkScript draws (Seed cfg)) (initialized bt) (messageOffset bt).

(** The source made by [NewSource 24] answers [24 mod n] for ever: 0 on
    the three-sided and the eight-sided die, 4 on the five-sided one. *)
Definition s24 : Script := mkScript [] 24.

(** A source that always answers 0. *)
Definition zeroSource : RandSource unit :=
  {| NewSource := fun _ => tt; Intn := fun _ _ => (0, tt) |}.

(** ** Vocabulary of the further properties *)

(** The range of the deltas of each kind. *)
Definition deltaBounds (ty : BranchType) (dx dy : Z) : Prop :=
  match ty with
  | Trunk => -2 <= dx <= 2 /\ -1 <= dy <= 0
  | ShootLeft => -2 <= dx <= 1 /\ -1 <= dy <= 1
  | ShootRight => -1 <= dx <= 2 /\ -1 <= dy <= 1
  | Dying => -3 <= dx <= 3 /\ -1 <= dy <= 1
  | Dead => -1 <= dx <= 1 /\ -1 <= dy <= 1
  end.

(** Two trees that differ at most in the state of the generator. *)
Definition sameButRng {R} (a b : BonsaiTree R) : Prop :=
  canvas a = canvas b /\ colorCanvas a = colorCanvas b /\ config a = config b /\
  branches a = branches b /\ shoots a = shoots b /\
  initialized a = initialized b /\ messageOffset a = messageOffset b.

(** A glyph seen in a mirror: slash and backslash change places. *)
Definition mirrorGlyph (c : rune) : rune :=
  if c =? rune_of "/" then rune_of "\"
  else if c =? rune_of "\" then rune_of "/"
  else c.

(** [strings.Join(pieces, ",")]. *)
Fixpoint joinComma (pieces : list string) : string :=
  match pieces with
  | [] => EmptyString
  | [piece] => piece
  | piece :: rest => piece ++ "," ++ joinComma rest
  end.

(** The number of commas of a string. *)
Fixpoint commas (s : string) : nat :=
  match s with
  | EmptyString => O
  | String c rest => if Ascii.eqb c ","%char then S (commas rest) else commas rest
  end.

(** An operation keeps [I]: from a tree in [I], whenever it returns, the
    tree it leaves is in [I] and the value it returns in [Q]. *)
Definition keeps {R A} (I : BonsaiTree R -> Prop) (m : M R A) (Q : A -> Prop) : Prop :=
  forall bt, I bt -> forall a bt', m bt = Done (a, bt') -> I bt' /\ Q a.

(** The cells the base may occupy: the four bottom rows, and the columns of
    the widest line of the base around the centre. *)
Definition potBox (cfg : Config) (x y : Z) : Prop :=
  Height cfg - 4 <= y <= Height cfg - 1 /\
  ((BaseType cfg = 1 /\
    Z.quot (Width cfg) 2 - 15 <= x <= Z.quot (Width cfg) 2 + 15) \/
   (BaseType cfg = 2 /\
    Z.quot (Width cfg) 2 - 11 <= x <= Z.quot (Width cfg) 2 + 10)).

(** A grid with every cell replaced by [a]. *)
Definition fill {A} (a : A) (g : list (list A)) : list (list A) :=
  map (fun row => map (fun _ => a) row) g.

(** The cells [x], ..., [x + n - 1] of a row replaced by [a], one after the
    other as the loop that blanks a row does. *)
Fixpoint fillCells {A} (x n : nat) (a : A) (row : list A) : list A :=
  match n with
  | O => row
  | S n' => fillCells (S x) n' a (<[x := a]> row)
  end.

(** The rows [y], ..., [y + n - 1] of a grid blanked one after the other. *)
Fixpoint fillRows {A} (y n : nat) (a : A) (g : list (list A)) : list (list A) :=
  match n with
  | O => g
  | S n' =>
      fillRows (S y) n' a
        match g !! y with
        | Some row => <[y := fillCells 0 (length row) a row]> g
        | None => g
        end
  end.

(** The tree as the two blanking loops of [GrowTree] leave it. *)
Definition blanked {R} (bt : BonsaiTree R) : BonsaiTree R :=
  mkTree (fill (rune_of " ") (canvas bt)) (fill EmptyString (colorCanvas bt))
         (config bt) 0 0 (rng bt) (Live (config bt)) 0.

(** Two trees with one configuration and canvases of the same dimensions. *)
Definition sameSize {R} (a b : BonsaiTree R) : Prop :=
  config a = config b /\ shape (canvas a) = shape (canvas b) /\
  shape (colorCanvas a) = shape (colorCanvas b).

(** Both canvases of the two trees agree at cell [(i, j)]. *)
Definition sameCell {R} (a b : BonsaiTree R) (i j : nat) : Prop :=
  cell (canvas a) i j = cell (canvas b) i j /\
  cell (colorCanvas a) i j = cell (colorCanvas b) i j.

(** The row from which [GrowTree] starts the trunk. *)
Definition trunkRow (cfg : Config) : Z :=
  if BaseType cfg >? 0 then Height cfg + 2 - 5 else Height cfg + 2.

(** The invariant of size: the configuration and the dimensions of [bt0],
    and in live mode its colour canvas. *)
Definition sized {R} (bt0 bt : BonsaiTree R) : Prop :=
  sameSize bt bt0 /\ (Live (config bt0) = true -> colorCanvas bt = colorCanvas bt0).

(** The invariant of the ground: the configuration of [bt0], and the
    cells of [bt0] in every row below [bound]. *)
Definition grounded (bound : Z) {R} (bt0 bt : BonsaiTree R) : Prop :=
  config bt = config bt0 /\
  forall i j, bound < Z.of_nat j -> sameCell bt bt0 i j.

(** The invariant of [DrawBase]: all of [bt0] but the cells of the box of
    the base. *)
Definition outsidePot {R} (bt0 bt : BonsaiTree R) : Prop :=
  sameControl bt bt0 /\ sameSize bt bt0 /\
  (forall i j, ~ potBox (config bt0) (Z.of_nat i) (Z.of_nat j) -> sameCell bt bt0 i j) /\
  (Live (config bt0) = true -> colorCanvas bt = colorCanvas bt0).

(** ** Vocabulary for the generator of [main.go] *)

(** Every outcome of [m] from a state in [I] is a state in [I] and a value
    in [Q], a panic only if [panicOk], the end of the fuel only if
    [fuelOk]. *)
Definition sound {R A} (I : BonsaiTree R -> Prop) (panicOk fuelOk : bool)
    (m : M R A) (Q : A -> Prop) : Prop :=
  forall bt, I bt ->
    match m bt with
    | Done p => I (snd p) /\ Q (fst p)
    | Panic _ => panicOk = true
    | OutOfFuel => fuelOk = true
    end.

(** The cells of the base of [main.go]: four rows of at most 31 columns
    for the large pot, three rows of 15 columns for the small one. *)
Definition legacyPotBox (cfg : Config) (x y : Z) : Prop :=
  (BaseType cfg = 1 /\ Height cfg - 4 <= y <= Height cfg - 1 /\
   Z.quot (Width cfg) 2 - 15 <= x <= Z.quot (Width cfg) 2 + 15) \/
  (BaseType cfg = 2 /\ Height cfg - 3 <= y <= Height cfg - 1 /\
   Z.quot (Width cfg) 2 - 7 <= x <= Z.quot (Width cfg) 2 + 7).

(** The tree as the blanking loop of the [GrowTree] of [main.go] leaves it. *)
Definition legacyBlanked {R} (bt : BonsaiTree R) : BonsaiTree R :=
  mkTree (fill (rune_of " ") (canvas bt)) (colorCanvas bt) (config bt) 0 0 (rng bt)
         (initialized bt) (messageOffset bt).

(** The row from which the [GrowTree] of [main.go] starts the trunk. *)
Definition legacyTrunkRow (cfg : Config) : Z :=
  if BaseType cfg >? 0 then Height cfg - 1 - 4 else Height cfg - 1.

(** The tree [bt0] but for the content of its character canvas, the
    counters and the generator. *)
Definition legacySized {R} (bt0 bt : BonsaiTree R) : Prop :=
  config bt = config bt0 /\ shape (canvas bt) = shape (canvas bt0) /\
  colorCanvas bt = colorCanvas bt0.

(** The configuration of [bt0], and its characters in every row below
    [bound]. *)
Definition legacyGrounded {R} (bound : Z) (bt0 bt : BonsaiTree R) : Prop :=
  config bt = config bt0 /\
  forall i j, bound < Z.of_nat j -> cell (canvas bt) i j = cell (canvas bt0) i j.

(** All of [bt0] but the characters in the box of the base. *)
Definition legacyOutsidePot {R} (bt0 bt : BonsaiTree R) : Prop :=
  sameControl bt bt0 /\ colorCanvas bt = colorCanvas bt0 /\
  shape (canvas bt) = shape (canvas bt0) /\
  forall i j, ~ legacyPotBox (config bt0) (Z.of_nat i) (Z.of_nat j) ->
              cell (canvas bt) i j = cell (canvas bt0) i j.

(** ** What [Render] prints *)

(** The pieces written to the terminal: a string as it is, a rune under
    [%c], and the sequence of [MoveCursor(x, y)]. *)
Inductive Out : Type :=
| Str (s : string)
| Chr (c : rune)
| Csi (x y : Z).

Definition ColorReset : string := esc ++ "[0m".
Definition newline : string := String "010"%char EmptyString.

(** The [Printf] of one cell in [Render]. *)
Definition printCell (useColors : bool) (char : rune) (color : string) : list Out :=
  if negb (String.eqb color "") && useColors
  then [Str color; Chr char; Str ColorReset]
  else [Chr char].

(** [for x := 0; x < len(bt.canvas[y]); x++], from column [x] with [n]
    columns to go. *)
Fixpoint renderCells {R} (bt : BonsaiTree R) (y x : Z) (n : nat) : Result (list Out) :=
  match n with
  | O => Done []
  | S n' =>
      bindR (sliceIndex (canvas bt) y) (fun row =>
      bindR (sliceIndex row x) (fun char =>
      bindR (sliceIndex (colorCanvas bt) y) (fun crow =>
      bindR (sliceIndex crow x) (fun color =>
      bindR (renderCells bt y (x + 1) n') (fun rest =>
      Done (printCell (UseColors (config bt)) char color ++ rest)%list)))))
  end.

(** [for y := 0; y < len(bt.canvas); y++], from row [y] with [n] rows to
    go; [fmt.Println()] ends each row. *)
Fixpoint renderRows {R} (bt : BonsaiTree R) (y : Z) (n : nat) : Result (list Out) :=
  match n with
  | O => Done []
  | S n' =>
      bindR (sliceIndex (canvas bt) y) (fun row =>
      bindR (renderCells bt y 0 (length row)) (fun cells =>
      bindR (renderRows bt (y + 1) n') (fun rest =>
      Done (cells ++ Str newline :: rest)%list)))
  end.

(** [ClearScreen]: nothing in print mode. *)
Definition clearScreenOut (cfg : Config) : list Out :=
  if negb (PrintTree cfg) then [Str (esc ++ "[2J"); Str (esc ++ "[H")] else [].

(** [fmt.Printf("\n%s\n", bt.config.Message)] under its test. *)
Definition messageOut (cfg : Config) : list Out :=
  if negb (String.eqb (Message cfg) "")
  then [Str newline; Str (Message cfg); Str newline]
  else [].

(** What [Render] writes; the state it leaves is that of [Render]. *)
Definition RenderOutput {R} (bt : BonsaiTree R) : Result (list Out) :=
  let cfg := config bt in
  let pre := if negb (initialized bt) then clearScreenOut cfg else [] in
  if negb (Live cfg) then
    bindR (renderRows bt 0 (length (canvas bt))) (fun body =>
    Done (pre ++ (if PrintTree cfg then [] else [Csi 1 1]) ++ body ++ messageOut cfg)%list)
  else if negb (String.eqb (Message cfg) "") && (messageOffset bt =? 0) then
    Done (pre ++ [Csi 1 (Height cfg + 2); Str (Message cfg)])%list
  else Done pre.

(** The cells of a row with their colours, then the end of the line; the
    rows of a picture one after the other. *)
Definition rowOut (useColors : bool) (row : list rune) (crow : list string) : list Out :=
  (flat_map (fun p => printCell useColors (fst p) (snd p)) (combine row crow)
   ++ [Str newline])%list.

Definition rowsOut (useColors : bool) (cv : list (list rune)) (cc : list (list string))
  : list Out :=
  flat_map (fun p => rowOut useColors (fst p) (snd p)) (combine cv cc).

(** A picture as plain text. *)
Definition plainOut (cv : list (list rune)) : list Out :=
  flat_map (fun row => (map Chr row ++ [Str newline])%list) cv.

(** * Properties *)

(** ** Canvas: writes stay inside the grid *)

Lemma shape_lookup {A} (g : list (list A)) (y : nat) :
  shape g !! y = length <$> (g !! y).
Proof. unfold shape. apply list_lookup_fmap. Qed.

Lemma inBounds_shape {A B} (g : list (list A)) (h : list (list B)) x y :
  shape g = shape h -> inBounds g x y = inBounds h x y.
Proof.
  intros E. unfold inBounds.
  assert (L : length g = length h).
  { rewrite <- (length_map length g), <- (length_map length h).
    unfold shape in E. now rewrite E. }
  rewrite L. f_equal.
  pose proof (shape_lookup g (Z.to_nat y)) as Hg.
  pose proof (shape_lookup h (Z.to_nat y)) as Hh.
  rewrite E, Hh in Hg.
  destruct (g !! Z.to_nat y), (h !! Z.to_nat y); simpl in Hg; congruence.
Qed.

Lemma store_in_bounds {A} (g : list (list A)) x y v :
  inBounds g x y = true ->
  exists row,
    g !! Z.to_nat y = Some row /\ (Z.to_nat x < length row)%nat /\ 0 <= x /\ 0 <= y /\
    store g x y v = Done (<[Z.to_nat y := <[Z.to_nat x := v]> row]> g).
Proof.
  unfold inBounds, store. intros H.
  destruct (g !! Z.to_nat y) as [row|] eqn:Hrow.
  - apply andb_prop in H as [H Hx2]. apply andb_prop in H as [H Hx1].
    apply andb_prop in H as [Hy1 Hy2].
    apply Z.leb_le in Hy1, Hx1. apply Z.ltb_lt in Hy2, Hx2.
    exists row. repeat split; try lia.
    replace (y <? 0) with false by (symmetry; apply Z.ltb_ge; lia).
    replace (Z.of_nat (length g) <=? y) with false by (symmetry; apply Z.leb_gt; lia).
    replace (x <? 0) with false by (symmetry; apply Z.ltb_ge; lia).
    replace (Z.of_nat (length row) <=? x) with false by (symmetry; apply Z.leb_gt; lia).
    reflexivity.
  - rewrite andb_false_r in H. discriminate.
Qed.

Lemma shape_insert_row {A} (g : list (list A)) (y x : nat) row v :
  g !! y = Some row -> shape (<[y := <[x := v]> row]> g) = shape g.
Proof.
  intros Hrow. unfold shape. rewrite list_fmap_insert, length_insert.
  apply list_insert_id. rewrite list_lookup_fmap, Hrow. reflexivity.
Qed.

Lemma cell_insert_row {A} (g : list (list A)) (x y : Z) row v (i j : nat) :
  0 <= x -> 0 <= y ->
  g !! Z.to_nat y = Some row -> (Z.to_nat x < length row)%nat ->
  cell (<[Z.to_nat y := <[Z.to_nat x := v]> row]> g) i j = overwrite x y v i j (cell g i j).
Proof.
  intros Hx Hy Hrow Hlt. unfold cell, overwrite.
  assert (Hylt : (Z.to_nat y < length g)%nat) by (eapply lookup_lt_Some; eauto).
  destruct (decide (j = Z.to_nat y)) as [->|Hj].
  - rewrite list_lookup_insert_eq by assumption. rewrite Hrow.
    replace (y =? Z.of_nat (Z.to_nat y)) with true by (symmetry; apply Z.eqb_eq; lia).
    rewrite andb_true_r.
    destruct (decide (i = Z.to_nat x)) as [->|Hi].
    + rewrite list_lookup_insert_eq by assumption.
      replace (x =? Z.of_nat (Z.to_nat x)) with true by (symmetry; apply Z.eqb_eq; lia).
      destruct (row !! Z.to_nat x) eqn:E; [reflexivity|].
      apply lookup_ge_None in E. lia.
    + rewrite list_lookup_insert_ne by congruence.
      replace (x =? Z.of_nat i) with false by (symmetry; apply Z.eqb_neq; lia).
      now destruct (row !! i).
  - rewrite list_lookup_insert_ne by congruence.
    replace (y =? Z.of_nat j) with false by (symmetry; apply Z.eqb_neq; lia).
    rewrite andb_false_r. destruct (g !! j) as [r|]; [|reflexivity].
    now destruct (r !! i).
Qed.

Lemma overwrite_out_of_grid {A} (g : list (list A)) x y v i j :
  inBounds g x y = false -> overwrite x y v i j (cell g i j) = cell g i j.
Proof.
  intros H. unfold overwrite.
  destruct (cell g i j) as [a|] eqn:Hc; [|reflexivity].
  destruct ((x =? Z.of_nat i) && (y =? Z.of_nat j)) eqn:E; [|reflexivity].
  apply andb_prop in E as [Ex Ey]. apply Z.eqb_eq in Ex, Ey. subst x y.
  unfold cell in Hc. unfold inBounds in H. rewrite Nat2Z.id in H.
  destruct (g !! j) as [row|] eqn:Hrow; [|discriminate].
  apply lookup_lt_Some in Hrow. apply lookup_lt_Some in Hc.
  exfalso. revert H.
  replace (0 <=? Z.of_nat j) with true by (symmetry; apply Z.leb_le; lia).
  replace (0 <=? Z.of_nat i) with true by (symmetry; apply Z.leb_le; lia).
  replace (Z.of_nat j <? Z.of_nat (length g)) with true by (symmetry; apply Z.ltb_lt; lia).
  replace (Z.of_nat i <? Z.of_nat (length row)) with true by (symmetry; apply Z.ltb_lt; lia).
  discriminate.
Qed.

Section CanvasFacts.

Context {R : Type} {RS : RandSource R}.

(** One call: it returns, keeps both shapes, and changes at most the cell
    it names. *)
Lemma SetPixel_one (bt : BonsaiTree R) x y char color :
  shape (canvas bt) = shape (colorCanvas bt) ->
  exists bt',
    SetPixel x y char color bt = Done (tt, bt') /\
    shape (canvas bt') = shape (canvas bt) /\
    shape (colorCanvas bt') = shape (colorCanvas bt) /\
    sameControl bt' bt /\
    (inBounds (canvas bt) x y = false -> bt' = bt) /\
    (forall i j, cell (canvas bt') i j = overwrite x y char i j (cell (canvas bt) i j)) /\
    (forall i j,
        cell (colorCanvas bt') i j = overwrite x y color i j (cell (colorCanvas bt) i j)).
Proof.
  intros Hwf. unfold SetPixel, bind, get. simpl.
  destruct (inBounds (canvas bt) x y) eqn:Hin.
  - destruct (store_in_bounds (canvas bt) x y char Hin)
      as (row & Hrow & Hlt & Hx & Hy & Hst).
    assert (Hin' : inBounds (colorCanvas bt) x y = true)
      by (rewrite <- (inBounds_shape _ _ x y Hwf); exact Hin).
    destruct (store_in_bounds (colorCanvas bt) x y color Hin')
      as (crow & Hcrow & Hclt & _ & _ & Hcst).
    unfold liftR. rewrite Hst. simpl. rewrite Hcst. simpl.
    eexists. split; [reflexivity|]. simpl.
    split; [now apply shape_insert_row|].
    split; [now apply shape_insert_row|].
    split; [now repeat split|].
    split; [discriminate|].
    split; intros i j; now apply cell_insert_row.
  - exists bt. unfold ret. split; [reflexivity|].
    repeat split; try reflexivity.
    + intros i j. symmetry. now apply overwrite_out_of_grid.
    + intros i j. symmetry. apply overwrite_out_of_grid.
      rewrite <- (inBounds_shape _ _ x y Hwf). exact Hin.
Qed.

Lemma painted_step {A} (pick : rune * string -> A) x y char color rest i j old :
  painted pick rest i j (overwrite x y (pick (char, color)) i j old)
  = painted pick ((x, y, char, color) :: rest) i j old.
Proof.
  unfold painted, overwrite. destruct old as [a|]; [|reflexivity]. simpl.
  destruct (lastWrite rest i j); [reflexivity|].
  now destruct ((x =? Z.of_nat i) && (y =? Z.of_nat j)).
Qed.

(** C2. Any sequence of [SetPixel] calls, whatever the coordinates, returns
    without a panic; the shapes of both canvases are what they were; every
    cell of the grid holds the last write aimed at it, or else its old
    content, and no other cell comes to exist; calls that all fall outside
    the grid leave the tree as it was. *)
Theorem SetPixels_stay_in_grid (bt : BonsaiTree R) (calls : list (Z * Z * rune * string)) :
  shape (canvas bt) = shape (colorCanvas bt) ->
  exists bt',
    SetPixels calls bt = Done (tt, bt') /\
    shape (canvas bt') = shape (canvas bt) /\
    shape (colorCanvas bt') = shape (colorCanvas bt) /\
    sameControl bt' bt /\
    (allOutside (canvas bt) calls -> bt' = bt) /\
    (forall i j, cell (canvas bt') i j = painted fst calls i j (cell (canvas bt) i j)) /\
    (forall i j,
        cell (colorCanvas bt') i j = painted snd calls i j (cell (colorCanvas bt) i j)).
Proof.
  revert bt. induction calls as [|[[[x y] char] color] rest IH]; intros bt Hwf.
  - exists bt. simpl. unfold ret, painted.
    repeat split; try reflexivity; intros i j.
    + now destruct (cell (canvas bt) i j).
    + now destruct (cell (colorCanvas bt) i j).
  - destruct (SetPixel_one bt x y char color Hwf)
      as (bt1 & Hrun & Hs1 & Hs2 & Hctl & Hout & Hcv & Hcc).
    assert (Hwf1 : shape (canvas bt1) = shape (colorCanvas bt1)) by congruence.
    destruct (IH bt1 Hwf1) as (bt2 & Hrun2 & Ht1 & Ht2 & Hctl2 & Hout2 & Hcv2 & Hcc2).
    exists bt2. simpl. unfold bind. rewrite Hrun. simpl.
    split; [exact Hrun2|].
    split; [congruence|]. split; [congruence|].
    split.
    { destruct Hctl as (?&?&?&?&?&?), Hctl2 as (?&?&?&?&?&?).
      repeat split; congruence. }
    split.
    { intros Hall. inversion Hall as [|c l Hc Hl]; subst. simpl in Hc.
      specialize (Hout Hc). subst bt1. now apply Hout2. }
    split; intros i j.
    + rewrite Hcv2, Hcv. apply (painted_step fst).
    + rewrite Hcc2, Hcc. apply (painted_step snd).
Qed.

End CanvasFacts.

(** ** Movement tables of the shoots *)

Section ShootDeltas.

Context {R : Type} {RS : RandSource R}.

Lemma shootRightDx_mirror (d : Z) : shootRightDx d = - shootLeftDx d.
Proof.
  unfold shootRightDx, shootLeftDx.
  destruct (d <=? 1); [reflexivity|].
  destruct (d <=? 5); [reflexivity|].
  destruct (d <=? 8); reflexivity.
Qed.

Lemma shootRightDy_same (d : Z) : shootRightDy d = shootLeftDy d.
Proof. reflexivity. Qed.

(** What [GetDeltas] does for a left shoot: two draws from the ten-sided
    die, the first for [dy], the second for [dx]. *)
Lemma GetDeltas_ShootLeft (bt : BonsaiTree R) life age :
  GetDeltas ShootLeft life age bt =
  let d1 := Intn 10 (rng bt) in
  let d2 := Intn 10 (snd d1) in
  Done ((shootLeftDx (fst d2), shootLeftDy (fst d1)), setRng (snd d2) bt).
Proof. reflexivity. Qed.

Lemma GetDeltas_ShootRight (bt : BonsaiTree R) life age :
  GetDeltas ShootRight life age bt =
  let d1 := Intn 10 (rng bt) in
  let d2 := Intn 10 (snd d1) in
  Done ((shootRightDx (fst d2), shootRightDy (fst d1)), setRng (snd d2) bt).
Proof. reflexivity. Qed.

(** C5, amended. Both shoot kinds take [dy] from the first draw of the
    ten-sided die with two faces up, six level and two down (20%, 60%, 20%
    on a fair die), and [dx] from the second draw; from the same generator
    state a right shoot moves as the mirror image along x of a left shoot,
    and the two [dx] tables take mirrored values on equally many faces. *)
Theorem shoot_deltas_split_and_mirror :
  shootDySplit 2 6 2 /\
  shootDxMirrored /\
  (forall (bt : BonsaiTree R) life age,
      GetDeltas ShootLeft life age bt =
      Done ((shootLeftDx (fst (Intn 10 (snd (Intn 10 (rng bt))))),
             shootLeftDy (fst (Intn 10 (rng bt)))),
            setRng (snd (Intn 10 (snd (Intn 10 (rng bt))))) bt)) /\
  (forall (bt : BonsaiTree R) life age life' age',
      GetDeltas ShootRight life' age' bt = mirrorX (GetDeltas ShootLeft life age bt)).
Proof.
  split; [repeat split; reflexivity|].
  split.
  { intros v. unfold faces.
    erewrite List.filter_ext; [reflexivity|].
    intros d. simpl. rewrite shootRightDx_mirror.
    destruct (Z.eqb_spec (- shootLeftDx d) v), (Z.eqb_spec (shootLeftDx d) (- v));
      try reflexivity; lia. }
  split; [reflexivity|].
  intros bt life age life' age'.
  rewrite GetDeltas_ShootLeft, GetDeltas_ShootRight. simpl.
  now rewrite shootRightDx_mirror, shootRightDy_same.
Qed.

End ShootDeltas.

(** C5 as the specification words it does not hold: one face up, six level
    and three down is not the split of the table. *)
Lemma shoot_dy_split_not_1_6_3 : ~ shootDySplit 1 6 3.
Proof.
  intros [[Hup _] _]. vm_compute in Hup. discriminate.
Qed.

(** ** The scripted source is lawful *)

Lemma Script_lawful : RandLawful Script.
Proof.
  intros n [p f] Hn. simpl. unfold scriptIntn. simpl.
  destruct p as [|d ds]; simpl; apply Z.mod_pos_bound; exact Hn.
Qed.

(** ** Glyph selection *)

Section Glyphs.

Context {R : Type} {RS : RandSource R}.

Lemma glyphKind_alive ty life : 4 <= life -> glyphKind ty life = ty.
Proof.
  intros H. unfold glyphKind.
  now replace (life <? 4) with false by (symmetry; apply Z.ltb_ge; lia).
Qed.

Lemma glyphKind_low ty life : life < 4 -> glyphKind ty life = Dying.
Proof.
  intros H. unfold glyphKind.
  now replace (life <? 4) with true by (symmetry; apply Z.ltb_lt; lia).
Qed.

(** C6, amended. While the remaining life is at least 4, a trunk step with
    [dy = 0] is drawn as a tilde whatever [dx] is, and a left shoot moving
    down as a backslash; neither draws from the generator. *)
Theorem ChooseChar_trunk_level_shootleft_down (bt : BonsaiTree R) (life dx : Z) :
  4 <= life ->
  ChooseChar Trunk life dx 0 bt = Done (rune_of "~", bt) /\
  (forall dy, 0 < dy -> ChooseChar ShootLeft life dx dy bt = Done (rune_of "\", bt)).
Proof.
  intros Hlife. unfold ChooseChar. rewrite !glyphKind_alive by exact Hlife.
  split; [reflexivity|].
  intros dy Hdy. unfold shootLeftChar, ret.
  now replace (dy >? 0) with true by (symmetry; apply Z.gtb_lt; lia).
Qed.

Lemma stringIndex_first (s : string) :
  stringIndex s 0 =
  match s with
  | EmptyString => Panic IndexOutOfRange
  | String b _ => Done b
  end.
Proof. destruct s; reflexivity. Qed.

Lemma ChooseChar_foliage (bt : BonsaiTree R) ty life dx dy :
  glyphKind ty life = Dying \/ glyphKind ty life = Dead ->
  ChooseChar ty life dx dy bt = leafGlyph bt.
Proof.
  intros Hk. unfold ChooseChar, leafGlyph.
  transitivity
    ((let* bt0 := get in
      let leaves := Leaves (config bt0) in
      if Z.of_nat (length leaves) >? 0
      then
        let* i := intn (Z.of_nat (length leaves)) in
        let* leaf := liftR (sliceIndex leaves i) in
        let* b := liftR (stringIndex leaf 0) in ret (rune_of b)
      else ret (rune_of "&")) bt).
  { destruct Hk as [Hk | Hk]; rewrite Hk; reflexivity. }
  unfold bind, get. simpl.
  destruct (Leaves (config bt)) as [|l0 ls] eqn:HL; [reflexivity|].
  replace (Z.of_nat (length (l0 :: ls)) >? 0) with true
    by (symmetry; apply Z.gtb_lt; simpl length; lia).
  unfold intn.
  replace (Z.of_nat (length (l0 :: ls)) <=? 0) with false
    by (symmetry; apply Z.leb_gt; simpl length; lia).
  simpl. unfold liftR.
  destruct (sliceIndex (l0 :: ls) _) as [leaf| |]; simpl; try reflexivity.
  rewrite stringIndex_first. destruct leaf; reflexivity.
Qed.

Lemma sliceIndex_in_range {A} (l : list A) (i : Z) :
  0 <= i < Z.of_nat (length l) ->
  exists a, l !! Z.to_nat i = Some a /\ sliceIndex l i = Done a.
Proof.
  intros Hi. unfold sliceIndex.
  replace (i <? 0) with false by (symmetry; apply Z.ltb_ge; lia).
  replace (Z.of_nat (length l) <=? i) with false by (symmetry; apply Z.leb_gt; lia).
  simpl. destruct (l !! Z.to_nat i) as [a|] eqn:E.
  - now exists a.
  - apply lookup_ge_None in E. lia.
Qed.

(** C9, amended. When the kind that selects the glyph is Dying or Dead,
    [ChooseChar] ignores [dx] and [dy]; on an empty leaf list it returns an
    ampersand and draws nothing; on a list of strings that all have a first
    byte it draws one index below the length of the list and returns the
    first byte of the leaf at that index. *)
Theorem ChooseChar_leaf_glyph (bt : BonsaiTree R) (ty : BranchType) (life dx dy : Z) :
  RandLawful R ->
  glyphKind ty life = Dying \/ glyphKind ty life = Dead ->
  leavesUsable (Leaves (config bt)) ->
  (forall dx' dy', ChooseChar ty life dx' dy' bt = ChooseChar ty life dx dy bt) /\
  (Leaves (config bt) = [] -> ChooseChar ty life dx dy bt = Done (rune_of "&", bt)) /\
  (Leaves (config bt) <> [] ->
   let d := Intn (Z.of_nat (length (Leaves (config bt)))) (rng bt) in
   exists leaf c,
     0 <= fst d < Z.of_nat (length (Leaves (config bt))) /\
     Leaves (config bt) !! Z.to_nat (fst d) = Some leaf /\
     firstByte leaf = Some c /\
     ChooseChar ty life dx dy bt = Done (c, setRng (snd d) bt)).
Proof.
  intros Hlaw Hk Huse.
  split; [intros dx' dy'; now rewrite !ChooseChar_foliage|].
  rewrite ChooseChar_foliage by exact Hk. unfold leafGlyph.
  split; [intros ->; reflexivity|].
  intros Hne. destruct (Leaves (config bt)) as [|l0 ls] eqn:HL; [congruence|].
  cbv zeta.
  pose proof (Hlaw (Z.of_nat (length (l0 :: ls))) (rng bt)) as Hr.
  assert (Hpos : 0 < Z.of_nat (length (l0 :: ls))) by (simpl length; lia).
  specialize (Hr Hpos).
  destruct (sliceIndex_in_range (l0 :: ls) _ Hr) as (leaf & Hlk & Hsl).
  rewrite Hsl.
  assert (Hleaf : leaf <> EmptyString).
  { unfold leavesUsable in Huse. rewrite Forall_forall in Huse.
    apply Huse. eapply list_elem_of_lookup_2. exact Hlk. }
  destruct leaf as [|b rest]; [congruence|].
  exists (String b rest), (rune_of b). simpl firstByte. now repeat split.
Qed.

Lemma splitComma_consecutive (a b : string) :
  In EmptyString (tail (splitComma (a ++ ",," ++ b))).
Proof.
  induction a as [|c a IH]; simpl in *.
  - now left.
  - destruct (Ascii.eqb c ","%char);
      destruct (splitComma (a ++ String "," (String "," b))); simpl in *; tauto.
Qed.

(** C10. In the foliage case the glyph is the first byte of the drawn leaf
    and nothing else of the string is used; the choice returns whenever
    every leaf has a first byte, and it panics with an index out of range
    when the drawn leaf is the empty string; a [--leaf] value with two
    commas in a row is split into a list that holds the empty string. *)
Theorem leaf_glyph_first_byte (bt : BonsaiTree R) (ty : BranchType) (life dx dy : Z) :
  RandLawful R ->
  glyphKind ty life = Dying \/ glyphKind ty life = Dead ->
  Leaves (config bt) <> [] ->
  let d := Intn (Z.of_nat (length (Leaves (config bt)))) (rng bt) in
  (exists leaf,
    Leaves (config bt) !! Z.to_nat (fst d) = Some leaf /\
    (forall b rest, leaf = String b rest ->
       ChooseChar ty life dx dy bt = Done (rune_of b, setRng (snd d) bt)) /\
    (leaf = EmptyString -> ChooseChar ty life dx dy bt = Panic IndexOutOfRange) /\
    (leavesUsable (Leaves (config bt)) -> returns (ChooseChar ty life dx dy bt))) /\
  (forall a b default, In EmptyString (parseLeaves (a ++ ",," ++ b) default)).
Proof.
  intros Hlaw Hk Hne d. split.
  2:{ intros a b default. unfold parseLeaves.
      assert (E : String.eqb (a ++ ",," ++ b) "" = false).
      { apply String.eqb_neq. destruct a; discriminate. }
      rewrite E. pose proof (splitComma_consecutive a b) as H.
      destruct (splitComma (a ++ ",," ++ b)); simpl in *; tauto. }
  rewrite ChooseChar_foliage by exact Hk. unfold leafGlyph.
  destruct (Leaves (config bt)) as [|l0 ls] eqn:HL; [congruence|].
  cbv zeta. fold d.
  assert (Hpos : 0 < Z.of_nat (length (l0 :: ls))) by (simpl length; lia).
  pose proof (Hlaw _ (rng bt) Hpos) as Hr. fold d in Hr.
  destruct (sliceIndex_in_range (l0 :: ls) _ Hr) as (leaf & Hlk & Hsl).
  rewrite Hsl. exists leaf. split; [exact Hlk|].
  split; [intros b rest ->; reflexivity|].
  split; [intros ->; reflexivity|].
  intros Huse. unfold leavesUsable in Huse. rewrite Forall_forall in Huse.
  assert (Hleaf : leaf <> EmptyString)
    by (apply Huse; eapply list_elem_of_lookup_2; exact Hlk).
  destruct leaf as [|b rest]; [congruence|].
  simpl. eexists. reflexivity.
Qed.

End Glyphs.

(** C6 as the specification words it does not hold at every life: with a
    remaining life of 3 a level trunk step is drawn as a leaf. *)
Lemma ChooseChar_trunk_level_at_life_3 :
  let bt := sampleTree (sampleConfig 32 5 1 0 defaultLeaves) 8 6 [] in
  ChooseChar Trunk 3 1 0 bt = Done (rune_of "&", bt) /\
  ChooseChar Trunk 3 1 0 bt <> Done (rune_of "~", bt).
Proof. split; [reflexivity | discriminate]. Qed.

Lemma ChooseChar_trunk_level_shootleft_down_witness :
  let bt := sampleTree (sampleConfig 32 5 1 0 defaultLeaves) 8 6 [] in
  4 <= 9 /\ ChooseChar Trunk 9 (-2) 0 bt = Done (rune_of "~", bt).
Proof.
  intros bt. split; [lia|].
  apply (ChooseChar_trunk_level_shootleft_down bt 9 (-2)). lia.
Defined.

(** C9 as the specification words it does not hold for every leaf list: on
    a list that holds only the empty string no glyph is returned, and on a
    list that holds a two-byte string the glyph returned is not one of the
    list. *)
Lemma ChooseChar_leaf_not_from_list :
  (let bt := sampleTree (sampleConfig 32 5 1 0 [""]) 8 6 [] in
   ChooseChar Dying 10 0 0 bt = Panic IndexOutOfRange) /\
  (let bt := sampleTree (sampleConfig 32 5 1 0 ["ab"]) 8 6 [] in
   ChooseChar Dying 10 0 0 bt = Done (rune_of "a", bt) /\
   ~ In (glyphString (rune_of "a")) (Leaves (config bt))).
Proof.
  split; [reflexivity|]. split; [reflexivity|].
  simpl. intros [H|[]]. discriminate.
Qed.

Lemma ChooseChar_leaf_glyph_witness :
  let bt := sampleTree (sampleConfig 32 5 1 0 defaultLeaves) 8 6 [7] in
  (glyphKind Dead 10 = Dying \/ glyphKind Dead 10 = Dead) /\
  leavesUsable (Leaves (config bt)) /\
  ChooseChar Dead 10 1 1 bt = ChooseChar Dead 10 0 (-1) bt.
Proof.
  intros bt.
  assert (Hty : glyphKind Dead 10 = Dying \/ glyphKind Dead 10 = Dead)
    by (right; reflexivity).
  assert (Huse : leavesUsable (Leaves (config bt))).
  { unfold leavesUsable. simpl. repeat constructor; discriminate. }
  split; [exact Hty|]. split; [exact Huse|].
  exact (proj1 (ChooseChar_leaf_glyph bt Dead 10 0 (-1) Script_lawful Hty Huse) 1 1).
Defined.

Lemma leaf_glyph_first_byte_witness :
  let bt := sampleTree (sampleConfig 32 5 1 0 ["xy"; "z"]) 8 6 [2] in
  (glyphKind Trunk 2 = Dying \/ glyphKind Trunk 2 = Dead) /\
  Leaves (config bt) <> [] /\
  In EmptyString (parseLeaves "a,,b" defaultLeaves).
Proof.
  intros bt.
  assert (Hk : glyphKind Trunk 2 = Dying \/ glyphKind Trunk 2 = Dead)
    by (left; reflexivity).
  assert (Hne : Leaves (config bt) <> []) by discriminate.
  split; [exact Hk|]. split; [exact Hne|].
  exact (proj2 (leaf_glyph_first_byte bt Trunk 2 0 0 Script_lawful Hk Hne)
               "a" "b" defaultLeaves).
Defined.

Lemma SetPixels_stay_in_grid_witness :
  let bt := sampleTree (sampleConfig 32 5 1 0 defaultLeaves) 4 3 [] in
  let calls := [(-1, 0, rune_of "a", ""); (9, 9, rune_of "b", ""); (1, 2, rune_of "c", "")] in
  shape (canvas bt) = shape (colorCanvas bt) /\
  exists bt',
    SetPixels calls bt = Done (tt, bt') /\ shape (canvas bt') = shape (canvas bt).
Proof.
  intros bt calls.
  assert (Hwf : shape (canvas bt) = shape (colorCanvas bt)) by reflexivity.
  split; [exact Hwf|].
  destruct (SetPixels_stay_in_grid bt calls Hwf) as (bt' & Hrun & Hshape & _).
  exists bt'. split; [exact Hrun | exact Hshape].
Defined.

(** ** The age of a step and the first-move rule *)

Section Steps.

Context {R : Type} {RS : RandSource R}.

(** The movement of a step: the deltas drawn by [GetDeltas] at the age of
    the step, clamped at the ground, then lifted. *)
Lemma stepDeltas_eq (bt : BonsaiTree R) (y : Z) (ty : BranchType) (life : Z) :
  stepDeltas y ty life bt =
  bindR (GetDeltas ty life (branchAge (config bt) life) bt)
        (fun p =>
           Done ((fst (fst p),
                  firstMoveLift (branchAge (config bt) life)
                                (groundClamp (config bt) y (snd (fst p)))),
                 snd p)).
Proof.
  unfold stepDeltas, bind, get. simpl.
  destruct (GetDeltas ty life (branchAge (config bt) life) bt) as [[[dx dy] bt']| |];
    reflexivity.
Qed.



End Steps.



(** ** Outcomes of the operations *)

Section Triples.

Context {R : Type} {RS : RandSource R}.
Variables (panicOk fuelOk : bool) (cfg : Config).

Local Abbreviation ok := (steady (R:=R) panicOk fuelOk cfg).
Local Abbreviation any := (fun _ => True).

Lemma steady_ret {A} (a : A) (Q : A -> Prop) : Q a -> ok (ret (R:=R) a) Q.
Proof. intros Ha bt HI. simpl. now split. Qed.

Lemma steady_bind {A B} (m : M R A) (k : A -> M R B) (Q : A -> Prop) (Q' : B -> Prop) :
  ok m Q -> (forall a, Q a -> ok (k a) Q') -> ok (bind m k) Q'.
Proof.
  intros Hm Hk bt HI. unfold bind. specialize (Hm bt HI).
  destruct (m bt) as [[a bt']| |]; simpl in *; try exact Hm.
  destruct Hm as [HI' Ha]. now apply Hk.
Qed.

Lemma steady_weaken {A} (m : M R A) (Q Q' : A -> Prop) :
  ok m Q -> (forall a, Q a -> Q' a) -> ok m Q'.
Proof.
  intros Hm HQ bt HI. specialize (Hm bt HI).
  destruct (m bt) as [[a bt']| |]; simpl in *; try exact Hm.
  destruct Hm. split; auto.
Qed.

Lemma steady_get : ok get (Inv (R:=R) cfg).
Proof. intros bt HI. simpl. now split. Qed.

Lemma steady_liftR {A} (r : Result A) (Q : A -> Prop) :
  match r with
  | Done a => Q a
  | Panic _ => panicOk = true
  | OutOfFuel => fuelOk = true
  end ->
  ok (liftR (R:=R) r) Q.
Proof. intros Hr bt HI. unfold liftR. destruct r; simpl; auto. Qed.

Lemma steady_intn (n : Z) :
  panicOk = true \/ 0 < n ->
  ok (intn n) (fun v => exists r : R, v = fst (Intn n r)).
Proof.
  intros Hn bt [Hc Hs]. unfold intn.
  destruct (n <=? 0) eqn:E; simpl.
  - destruct Hn as [H|H]; [exact H|]. apply Z.leb_le in E. lia.
  - split; [now split|]. now exists (rng bt).
Qed.

Lemma steady_incrBranches : ok incrBranches any.
Proof. intros bt [Hc Hs]. simpl. now repeat split. Qed.

Lemma steady_incrShoots : ok incrShoots any.
Proof. intros bt [Hc Hs]. simpl. now repeat split. Qed.

Lemma steady_SetPixel x y char color : ok (SetPixel x y char color) any.
Proof.
  intros bt [Hc Hs].
  destruct (SetPixel_one bt x y char color Hs)
    as (bt' & Hrun & Hs1 & Hs2 & (Hcfg & _) & _).
  rewrite Hrun. simpl. repeat split; congruence.
Qed.

Lemma steady_SetPixelLive x y char color : ok (SetPixelLive x y char color) any.
Proof.
  intros bt [Hc Hs]. unfold SetPixelLive, bind, get. simpl.
  destruct (inBounds (canvas bt) x y) eqn:Hin.
  - destruct (store_in_bounds (canvas bt) x y char Hin)
      as (row & Hrow & Hlt & Hx & Hy & Hst).
    unfold liftR. rewrite Hst. cbn -[shape]. repeat split; [exact Hc|].
    unfold setCanvas. cbn [canvas colorCanvas].
    rewrite <- Hs. now apply shape_insert_row.
  - simpl. now repeat split.
Qed.

Lemma steady_drawPixel x y char color : ok (drawPixel x y char color) any.
Proof.
  unfold drawPixel. eapply steady_bind; [apply steady_get|].
  intros bt _. destruct (Live (config bt)).
  - apply steady_SetPixelLive.
  - apply steady_SetPixel.
Qed.

Lemma steady_GetBranchColor ty : ok (GetBranchColor ty) any.
Proof.
  unfold GetBranchColor. eapply steady_bind; [apply steady_get|].
  intros bt _. destruct (negb (UseColors (config bt))); [now apply steady_ret|].
  destruct ty; try (now apply steady_ret);
    (eapply steady_bind; [apply steady_intn; right; lia|]); intros d _.
  - destruct (d =? 0); now apply steady_ret.
  - destruct (d =? 0); now apply steady_ret.
  - destruct (d <=? 8); [now apply steady_ret|].
    destruct (d =? 9); now apply steady_ret.
  - destruct (d <=? 8); [now apply steady_ret|].
    destruct (d =? 9); now apply steady_ret.
Qed.

Lemma steady_GetBaseColor : ok GetBaseColor any.
Proof.
  unfold GetBaseColor. eapply steady_bind; [apply steady_get|].
  intros bt _. destruct (negb (UseColors (config bt))); now apply steady_ret.
Qed.

Lemma halfUp_positive (m : Z) : 1 <= m -> halfUp m <> 0.
Proof.
  intros H. unfold halfUp. rewrite Z.quot_div_nonneg by lia.
  pose proof (Z.div_le_lower_bound (m + 1) 2 1). lia.
Qed.

(** [GetDeltas] never panics: the modulus of the growth phase is taken only
    when [2 < age < 3 * Multiplier], which makes the divisor positive. *)
Lemma steady_GetDeltas ty life age : ok (GetDeltas ty life age) any.
Proof.
  unfold GetDeltas. eapply steady_bind; [apply steady_get|].
  intros bt _. destruct ty.
  - destruct ((age <=? 2) || (life <? 4)) eqn:E1.
    + eapply steady_bind; [apply steady_intn; right; lia|].
      intros d _. now apply steady_ret.
    + destruct (age <? Multiplier (config bt) * 3) eqn:E2.
      * apply orb_false_elim in E1 as [E1 _].
        apply Z.leb_gt in E1. apply Z.ltb_lt in E2.
        eapply steady_bind.
        { apply steady_liftR with (Q := any). unfold goRem.
          destruct (halfUp (Multiplier (config bt)) =? 0) eqn:E3; [|exact I].
          apply Z.eqb_eq in E3. exfalso. revert E3. apply halfUp_positive. lia. }
        intros m _. eapply steady_bind; [apply steady_intn; right; lia|].
        intros d _. now apply steady_ret.
      * eapply steady_bind; [apply steady_intn; right; lia|].
        intros d _. eapply steady_bind; [apply steady_intn; right; lia|].
        intros d3 _. now apply steady_ret.
  - eapply steady_bind; [apply steady_intn; right; lia|].
    intros d _. eapply steady_bind; [apply steady_intn; right; lia|].
    intros d' _. now apply steady_ret.
  - eapply steady_bind; [apply steady_intn; right; lia|].
    intros d _. eapply steady_bind; [apply steady_intn; right; lia|].
    intros d' _. now apply steady_ret.
  - eapply steady_bind; [apply steady_intn; right; lia|].
    intros d _. eapply steady_bind; [apply steady_intn; right; lia|].
    intros d' _. now apply steady_ret.
  - eapply steady_bind; [apply steady_intn; right; lia|].
    intros d _. eapply steady_bind; [apply steady_intn; right; lia|].
    intros d' _. now apply steady_ret.
Qed.

Lemma steady_stepDeltas y ty life : ok (stepDeltas y ty life) any.
Proof.
  unfold stepDeltas. eapply steady_bind; [apply steady_get|].
  intros bt _. eapply steady_bind; [apply steady_GetDeltas|].
  intros [dx dy] _. now apply steady_ret.
Qed.

Lemma sliceIndex_Done {A} (l : list A) (i : Z) (a : A) :
  sliceIndex l i = Done a -> l !! Z.to_nat i = Some a.
Proof.
  unfold sliceIndex. destruct ((i <? 0) || (Z.of_nat (length l) <=? i)); [discriminate|].
  destruct (l !! Z.to_nat i); [|discriminate]. now intros [= ->].
Qed.

Lemma sliceIndex_total {A} (l : list A) (i : Z) : sliceIndex l i <> OutOfFuel.
Proof.
  unfold sliceIndex. destruct ((i <? 0) || (Z.of_nat (length l) <=? i)); [discriminate|].
  destruct (l !! Z.to_nat i); discriminate.
Qed.

(** [ChooseChar] panics only on an index out of range: of the leaf list,
    which a lawful generator excludes, or of an empty leaf. *)
Lemma steady_ChooseChar ty life dx dy :
  panicOk = true \/ (RandLawful R /\ leavesUsable (Leaves cfg)) ->
  ok (ChooseChar ty life dx dy) any.
Proof.
  intros Hsafe bt [Hc Hs].
  assert (Hwoody : forall c : rune, holds panicOk fuelOk cfg any (Done (c, bt)))
    by (intros c; simpl; now repeat split).
  destruct (glyphKind ty life) eqn:Hk;
    try (unfold ChooseChar; rewrite Hk; apply Hwoody).
  all: rewrite ChooseChar_foliage by (rewrite Hk; tauto).
  all: unfold leafGlyph; rewrite Hc.
  all: destruct (Leaves cfg) as [|l0 ls] eqn:HL; [apply Hwoody|].
  all: cbv zeta.
  all: assert (Hpos : 0 < Z.of_nat (length (l0 :: ls))) by (simpl length; lia).
  all: destruct (sliceIndex (l0 :: ls) _) as [leaf| |] eqn:Hsl.
  all: try (exfalso; revert Hsl; apply sliceIndex_total).
  all: try (destruct Hsafe as [Hp | [Hlaw Huse]]; [exact Hp|]; exfalso;
            destruct (sliceIndex_in_range (l0 :: ls) _ (Hlaw _ (rng bt) Hpos))
              as (leaf & _ & Hsl');
            congruence).
  all: destruct leaf as [|b rest]; simpl; [|now repeat split].
  all: destruct Hsafe as [Hp | [Hlaw Huse]]; [exact Hp|]; exfalso.
  all: apply sliceIndex_Done in Hsl.
  all: unfold leavesUsable in Huse; rewrite Forall_forall in Huse.
  all: apply (Huse EmptyString); [|reflexivity].
  all: eapply list_elem_of_lookup_2; exact Hsl.
Qed.

(** The branching logic of a step, given the outcome of the calls it can
    make.  Its only panic of its own is the modulus by a zero
    multiplier. *)
Lemma steady_branching (Branch : Z -> Z -> BranchType -> Z -> M R unit)
    (x y : Z) (ty : BranchType) (life cd : Z) :
  panicOk = true \/ Multiplier cfg <> 0 ->
  (forall x y cty cl, spawns cfg ty life cty cl -> ok (Branch x y cty cl) any) ->
  ok (branching Branch x y ty life cd) any.
Proof.
  intros Hsafe HB. unfold branching.
  eapply steady_bind; [apply steady_get|]. intros bt [Hc _]. rewrite Hc.
  destruct (life <? 3) eqn:E3.
  { apply Z.ltb_lt in E3.
    eapply steady_bind; [apply HB; now constructor|].
    intros _ _. now apply steady_ret. }
  apply Z.ltb_ge in E3.
  destruct (BranchType_eqb ty Trunk && (life <? Multiplier cfg + 2)) eqn:E4.
  { apply andb_prop in E4 as [Et El]. apply Z.ltb_lt in El.
    eapply steady_bind;
      [apply HB; apply spawns_dying; try assumption; destruct ty; discriminate|].
    intros _ _. now apply steady_ret. }
  destruct ((BranchType_eqb ty ShootLeft || BranchType_eqb ty ShootRight)
            && (life <? Multiplier cfg + 2)) eqn:E5.
  { apply andb_prop in E5 as [Et El]. apply Z.ltb_lt in El.
    eapply steady_bind;
      [apply HB; apply spawns_dying; try assumption; destruct ty; discriminate|].
    intros _ _. now apply steady_ret. }
  destruct (BranchType_eqb ty Trunk) eqn:Et; [|now apply steady_ret].
  assert (ty = Trunk) as -> by (destruct ty; (reflexivity || discriminate)).
  simpl in E4. apply Z.ltb_ge in E4.
  eapply steady_bind; [apply steady_intn; right; lia|]. intros d _.
  eapply steady_bind with (Q := any).
  { destruct (d =? 0); [now apply steady_ret|].
    eapply steady_bind with (Q := any); [|intros m _; now apply steady_ret].
    apply steady_liftR. unfold goRem.
    destruct (Multiplier cfg =? 0) eqn:E0; [|exact I].
    destruct Hsafe as [Hp|Hm]; [exact Hp|]. apply Z.eqb_eq in E0. contradiction. }
  intros fires _. destruct fires; [|now apply steady_ret].
  eapply steady_bind; [apply steady_intn; right; lia|]. intros d8 _.
  destruct ((d8 =? 0) && (life >? 7)) eqn:E8.
  { apply andb_prop in E8 as [_ E8]. apply Z.gtb_lt in E8.
    eapply steady_bind; [apply steady_intn; right; lia|]. intros j [r ->].
    eapply steady_bind; [apply HB; now apply spawns_fork|].
    intros _ _. now apply steady_ret. }
  destruct (cd <=? 0); [|now apply steady_ret].
  eapply steady_bind; [apply steady_incrShoots|]. intros _ _.
  eapply steady_bind; [apply steady_get|]. intros bt' _.
  eapply steady_bind with (Q := any); [|intros _ _; now apply steady_ret].
  destruct (Z.rem (shoots bt') 2 =? 0); apply HB; apply spawns_shoot; auto.
Qed.

Lemma need_positive ty life : (1 <= need cfg ty life)%nat.
Proof. unfold need. destruct ty; lia. Qed.

(** The loop of [Branch]: with fuel for its need, a tame branch never runs
    out of fuel; where no step can panic, none does. *)
Lemma steady_BranchLoop (fuel : nat) :
  0 <= Multiplier cfg ->
  panicOk = true \/ panicFree R cfg ->
  forall x y ty life cd,
    fuelOk = true \/ ((need cfg ty life <= fuel)%nat /\ tame R ty life) ->
    ok (BranchLoop fuel x y ty life cd) any.
Proof.
  intros Hmult Hsafe. induction fuel as [|fuel IH]; intros x y ty life cd Hfuel.
  - intros bt HI. simpl. destruct Hfuel as [H|[H _]]; [exact H|].
    pose proof (need_positive ty life). lia.
  - simpl. destruct (life >? 0) eqn:El; [|now apply steady_ret].
    apply Z.gtb_lt in El.
    eapply steady_bind; [apply steady_stepDeltas|]. intros [dx dy] _.
    eapply steady_bind with (Q := any).
    { apply steady_branching.
      - destruct Hsafe as [H|(H & _)]; [now left | now right].
      - intros x' y' cty cl Hsp.
        eapply steady_bind; [apply steady_incrBranches|]. intros _ _.
        eapply steady_bind; [apply steady_get|]. intros bt' _.
        apply IH. destruct Hfuel as [H|[Hneed Htame]]; [now left|right].
        destruct Hsp as [Hlt | Hty1 Hty2 Hge Hlt | r Hty Hgt Hge | cty Hty Hcty Hge Hge'].
        + split; [unfold need in *; destruct ty; lia | left; discriminate].
        + split; [unfold need in *; destruct ty; lia | left; discriminate].
        + subst ty. destruct Htame as [H|[H|H]]; [congruence|lia|].
          split; [|right; right; exact H].
          specialize (H r). unfold need in *. lia.
        + subst ty. split.
          * unfold need in *. destruct Hcty as [-> | ->]; lia.
          * left. destruct Hcty as [-> | ->]; discriminate. }
    intros cd' _.
    eapply steady_bind.
    { apply steady_ChooseChar.
      destruct Hsafe as [H|(_ & H1 & H2)]; [now left | right; now split]. }
    intros char _.
    eapply steady_bind; [apply steady_GetBranchColor|]. intros color _.
    eapply steady_bind; [apply steady_drawPixel|]. intros _ _.
    apply IH. destruct Hfuel as [H|[Hneed Htame]]; [now left|right].
    split.
    + unfold need in *. destruct ty; lia.
    + destruct Htame as [H|[H|H]]; [now left | right; left; lia | right; right; exact H].
Qed.

Lemma steady_Branch (fuel : nat) x y ty life :
  0 <= Multiplier cfg ->
  panicOk = true \/ panicFree R cfg ->
  fuelOk = true \/ ((need cfg ty life <= fuel)%nat /\ tame R ty life) ->
  ok (Branch fuel x y ty life) any.
Proof.
  intros Hmult Hsafe Hfuel. unfold Branch.
  eapply steady_bind; [apply steady_incrBranches|]. intros _ _.
  eapply steady_bind; [apply steady_get|]. intros bt' _.
  now apply steady_BranchLoop.
Qed.

Lemma stringIndex_in_range (s : string) (i : Z) :
  0 <= i < len s -> exists b, stringIndex s i = Done b.
Proof.
  intros Hi. unfold stringIndex, len in *.
  replace (i <? 0) with false by (symmetry; apply Z.ltb_ge; lia).
  replace (Z.of_nat (String.length s) <=? i) with false by (symmetry; apply Z.leb_gt; lia).
  simpl.
  assert (H : forall (t : string) (n : nat),
             (n < String.length t)%nat -> exists b, String.get n t = Some b).
  { induction t as [|c t IHt]; intros n Hn; simpl in *; [lia|].
    destruct n; [now exists c|]. apply IHt. lia. }
  destruct (H s (Z.to_nat i)) as [b Hb]; [lia|]. rewrite Hb. now exists b.
Qed.

Lemma steady_rangeString (s : list rune) (body : Z -> rune -> M R unit) :
  forall i,
    (forall j c, i <= j -> In c s -> ok (body j c) any) ->
    ok (rangeString i s body) any.
Proof.
  induction s as [|c s IH]; intros i Hbody; simpl.
  - now apply steady_ret.
  - eapply steady_bind; [apply Hbody; [lia | now left]|]. intros _ _.
    apply IH. intros j c' Hj Hin. apply Hbody; [lia | now right].
Qed.

(** A cell of the rim of the large pot: the grass indices stay in range
    from column 0 on, for every character but the blank. *)
Lemma steady_potRimCell baseColor grassColor startX baseY i char :
  panicOk = true \/ (0 <= i /\ char <> rune_of " ") ->
  ok (potRimCell baseColor grassColor startX baseY i char) any.
Proof.
  intros Hsafe. unfold potRimCell.
  eapply steady_bind with (Q := any); [|intros [c col] _; apply steady_drawPixel].
  destruct ((char =? rune_of "(") || (char =? rune_of ")") || (char =? rune_of "^"));
    [now apply steady_ret|].
  destruct (char =? rune_of "_").
  { eapply steady_bind with (Q := any); [|intros b _; now apply steady_ret].
    apply steady_liftR.
    destruct (stringIndex grassChars _) as [b| |] eqn:E; auto.
    - destruct Hsafe as [H|[Hi _]]; [exact H|]. exfalso.
      destruct (stringIndex_in_range grassChars
                  (Z.rem (i - 7 + len grassChars) (len grassChars))) as [b Hb];
        [|congruence].
      change (len grassChars) with 10. rewrite Z.rem_mod_nonneg by lia.
      apply Z.mod_pos_bound. lia.
    - exfalso. unfold stringIndex in E.
      destruct ((_ <? 0) || _) in E; [discriminate|].
      destruct (String.get _ _) in E; discriminate. }
  destruct ((char =? rune_of ".") || (char =? rune_of "/") || (char =? rune_of "~")
            || (char =? rune_of "\")); [now apply steady_ret|].
  destruct ((i >? 0) && (i <? 30)); [|now apply steady_ret].
  eapply steady_bind with (Q := any); [|intros c _; now apply steady_ret].
  destruct (char =? rune_of " ") eqn:Esp; [|now apply steady_ret].
  apply Z.eqb_eq in Esp.
  eapply steady_bind with (Q := any); [|intros b _; now apply steady_ret].
  apply steady_liftR.
  destruct (stringIndex grassChars _) as [b| |] eqn:E; auto.
  - destruct Hsafe as [H|[_ Hc]]; [exact H|]. contradiction.
  - exfalso. unfold stringIndex in E.
    destruct ((_ <? 0) || _) in E; [discriminate|].
    destruct (String.get _ _) in E; discriminate.
Qed.

Lemma steady_DrawBase : ok DrawBase any.
Proof.
  unfold DrawBase. eapply steady_bind; [apply steady_get|]. intros bt _.
  destruct (BaseType (config bt) =? 0); [now apply steady_ret|].
  destruct (BaseType (config bt) =? 1).
  { eapply steady_bind; [apply steady_GetBaseColor|]. intros baseColor _.
    eapply steady_bind.
    { apply steady_rangeString. intros j c Hj Hin. apply steady_potRimCell.
      right. split; [exact Hj|]. intros ->. revert Hin. vm_compute.
      intuition discriminate. }
    intros _ _. eapply steady_bind.
    { apply steady_rangeString. intros j c _ _. apply steady_drawPixel. }
    intros _ _. eapply steady_bind.
    { apply steady_rangeString. intros j c _ _. apply steady_drawPixel. }
    intros _ _. apply steady_rangeString. intros j c _ _. apply steady_drawPixel. }
  destruct (BaseType (config bt) =? 2); [|now apply steady_ret].
  eapply steady_bind.
  { apply steady_rangeString. intros j c _ _.
    destruct (_ && _); [apply steady_drawPixel | now apply steady_ret]. }
  intros _ _. eapply steady_bind.
  { apply steady_rangeString. intros j c _ _. apply steady_drawPixel. }
  intros _ _. eapply steady_bind; [apply steady_GetBaseColor|]. intros baseColor _.
  eapply steady_bind.
  { apply steady_rangeString. intros j c _ _. apply steady_drawPixel. }
  intros _ _. apply steady_rangeString. intros j c _ _. apply steady_drawPixel.
Qed.

Lemma steady_Render : ok Render any.
Proof. intros bt [Hc Hs]. simpl. now repeat split. Qed.

(** Blanking a row, then all rows, of a tree whose canvases have one
    shape. *)
Lemma clearCells_ok (n : nat) :
  forall (y x : Z) (bt : BonsaiTree R) (row : list rune),
    Inv cfg bt -> 0 <= y -> 0 <= x ->
    canvas bt !! Z.to_nat y = Some row ->
    (Z.to_nat x + n <= length row)%nat ->
    exists bt',
      clearCells y x n bt = Done (tt, bt') /\ Inv cfg bt' /\
      shape (canvas bt') = shape (canvas bt).
Proof.
  induction n as [|n IH]; intros y x bt row HI Hy Hx Hrow Hlen; simpl.
  - exists bt. split; [reflexivity | split; [exact HI | reflexivity]].
  - destruct HI as [Hc Hs].
    assert (Hylt : (Z.to_nat y < length (canvas bt))%nat)
      by (eapply lookup_lt_Some; eauto).
    assert (Hin : inBounds (canvas bt) x y = true).
    { unfold inBounds. rewrite Hrow.
      apply andb_true_intro; split; [|apply Z.ltb_lt; lia].
      apply andb_true_intro; split; [|apply Z.leb_le; lia].
      apply andb_true_intro; split; [apply Z.leb_le | apply Z.ltb_lt]; lia. }
    destruct (store_in_bounds (canvas bt) x y (rune_of " ") Hin)
      as (row1 & Hrow1 & Hlt & _ & _ & Hst).
    assert (Hin' : inBounds (colorCanvas bt) x y = true)
      by (rewrite <- (inBounds_shape _ _ x y Hs); exact Hin).
    destruct (store_in_bounds (colorCanvas bt) x y EmptyString Hin')
      as (crow & Hcrow & Hclt & _ & _ & Hcst).
    unfold bind, get, put, liftR. simpl. rewrite Hst. simpl. rewrite Hcst. simpl.
    assert (E : row1 = row) by congruence. subst row1.
    match goal with
    | |- exists bt', clearCells y (x + 1) n ?st = _ /\ _ /\ _ =>
        destruct (IH y (x + 1) st (<[Z.to_nat x := rune_of " "]> row))
          as (bt' & Hrun & HI' & Hsh)
    end.
    + split; [exact Hc|]. unfold setColorCanvas, setCanvas. cbn [canvas colorCanvas].
      rewrite (shape_insert_row _ _ _ _ _ Hrow), (shape_insert_row _ _ _ _ _ Hcrow).
      exact Hs.
    + exact Hy.
    + lia.
    + unfold setColorCanvas, setCanvas. cbn [canvas colorCanvas].
      now rewrite list_lookup_insert_eq.
    + rewrite length_insert. lia.
    + exists bt'. split; [exact Hrun|]. split; [exact HI'|].
      rewrite Hsh. unfold setColorCanvas, setCanvas. cbn [canvas colorCanvas].
      now apply shape_insert_row.
Qed.

Lemma clearRows_ok (n : nat) :
  forall (y : Z) (bt : BonsaiTree R),
    Inv cfg bt -> 0 <= y ->
    (Z.to_nat y + n <= length (canvas bt))%nat ->
    exists bt',
      clearRows y n bt = Done (tt, bt') /\ Inv cfg bt' /\
      shape (canvas bt') = shape (canvas bt).
Proof.
  induction n as [|n IH]; intros y bt HI Hy Hlen; simpl.
  - exists bt. split; [reflexivity | split; [exact HI | reflexivity]].
  - destruct (sliceIndex_in_range (canvas bt) y) as (row & Hrow & Hsl); [lia|].
    unfold bind, get, liftR. simpl. rewrite Hsl. simpl.
    destruct (clearCells_ok (length row) y 0 bt row HI Hy) as (bt1 & Hrun & HI1 & Hsh1);
      [lia | exact Hrow | simpl; lia |].
    rewrite Hrun. simpl.
    assert (Hlen1 : length (canvas bt1) = length (canvas bt)).
    { rewrite <- (length_map length (canvas bt1)), <- (length_map length (canvas bt)).
      unfold shape in Hsh1. now rewrite Hsh1. }
    destruct (IH (y + 1) bt1 HI1) as (bt2 & Hrun2 & HI2 & Hsh2); [lia | lia |].
    exists bt2. split; [exact Hrun2|]. split; [exact HI2|]. congruence.
Qed.

(** The reset never panics on a tree whose canvases have one shape. *)
Lemma steady_resetTree : ok resetTree any.
Proof.
  intros bt [Hc Hs]. unfold resetTree.
  unfold bind at 1. unfold get at 1. cbn [bindR fst snd].
  unfold bind at 1. unfold put at 1. cbn [bindR fst snd].
  unfold bind at 1.
  match goal with
  | |- context [clearRows 0 _ ?st] =>
      destruct (clearRows_ok (length (canvas bt)) 0 st) as (bt1 & Hrun & HI1 & _)
  end.
  { now split. }
  { lia. }
  { simpl. lia. }
  rewrite Hrun. cbn [bindR fst snd].
  revert bt1 HI1 Hrun. intros bt1 HI1 _.
  revert bt1 HI1.
  change (ok (let* bt := get in
              let cfg0 := config bt in
              run (if Live cfg0
                   then put (mkTree (canvas bt) (colorCanvas bt) cfg0 (branches bt)
                                    (shoots bt) (rng bt) true (messageOffset bt))
                   else ret tt) in
              DrawBase) any).
  eapply steady_bind; [apply steady_get|]. intros bt0 [Hc0 Hs0]. cbv zeta.
  rewrite Hc0.
  eapply steady_bind with (Q := any); [|intros _ _; apply steady_DrawBase].
  destruct (Live cfg); [|now apply steady_ret].
  intros bt' [Hc' Hs']. simpl. now repeat split.
Qed.

(** The whole of [GrowTree]. *)
Lemma steady_GrowTree (fuel : nat) :
  0 <= Multiplier cfg ->
  panicOk = true \/ panicFree R cfg ->
  fuelOk = true \/ ((need cfg Trunk (LifeStart cfg) <= fuel)%nat
                    /\ tame R Trunk (LifeStart cfg)) ->
  ok (GrowTree fuel) any.
Proof.
  intros Hmult Hsafe Hfuel. unfold GrowTree.
  eapply steady_bind; [apply steady_resetTree|]. intros _ _.
  eapply steady_bind; [apply steady_get|]. intros bt0 [Hc0 Hs0]. cbv zeta.
  rewrite Hc0.
  eapply steady_bind; [now apply steady_Branch|]. intros _ _.
  destruct (negb (Live cfg)); [apply steady_Render | now apply steady_ret].
Qed.

End Triples.

(** ** Termination and absence of panics *)

Section Generation.

Context {R : Type} {RS : RandSource R}.

Lemma shape_replicate {A} (h w : nat) (a : A) :
  shape (replicate h (replicate w a)) = replicate h w.
Proof. unfold shape. now rewrite fmap_replicate, length_replicate. Qed.

Lemma Inv_NewBonsaiTree (cfg : Config) (width height : nat) :
  Inv (config (NewBonsaiTree (R:=R) cfg width height)) (NewBonsaiTree cfg width height).
Proof.
  split; [reflexivity|]. unfold NewBonsaiTree. cbn [canvas colorCanvas].
  now rewrite !shape_replicate.
Qed.

Lemma validConfig_ranges (cfg : Config) :
  validConfig cfg = true ->
  0 <= LifeStart cfg <= 200 /\ 0 <= Multiplier cfg <= 20 /\ 0 <= BaseType cfg <= 2.
Proof.
  unfold validConfig. intros H.
  repeat (apply andb_prop in H as [H ?]). lia.
Qed.

(** The program has no ceiling on its steps.  For a valid
    configuration, generation ends (it returns or panics) within a nesting
    of calls and iterations of [LifeStart + Multiplier + 1] whenever the
    life is at most 8, so that no trunk can fork, or no trunk fork gains
    life over the step that forks; it then returns when moreover the
    multiplier is not 0, the generator is lawful and no leaf is empty.
    Any branch that is not a trunk ends within its life plus one. *)
Theorem generation_ends_when_forks_gain_no_life (cfg : Config) (width height fuel : nat) :
  validConfig cfg = true ->
  LifeStart cfg <= 8 \/ forkDown R ->
  (Z.to_nat (LifeStart cfg) + Z.to_nat (Multiplier cfg) + 1 <= fuel)%nat ->
  finished (GrowTree fuel (NewBonsaiTree cfg width height)) /\
  (panicFree R cfg -> returns (GrowTree fuel (NewBonsaiTree cfg width height))) /\
  (forall (bt : BonsaiTree R) x y ty life,
      shape (canvas bt) = shape (colorCanvas bt) ->
      Multiplier (config bt) = Multiplier cfg ->
      ty <> Trunk -> (Z.to_nat life + 1 <= fuel)%nat ->
      finished (Branch fuel x y ty life bt)).
Proof.
  intros Hvalid Htame Hfuel.
  destruct (validConfig_ranges cfg Hvalid) as (Hlife & Hmult & _).
  set (bt0 := NewBonsaiTree (R:=R) cfg width height).
  assert (Hcfg : Multiplier (config bt0) = Multiplier cfg
                 /\ LifeStart (config bt0) = LifeStart cfg
                 /\ Leaves (config bt0) = Leaves cfg) by (repeat split).
  destruct Hcfg as (Hm0 & Hl0 & Hlv0).
  assert (Hneed :
    false = true \/ ((need (config bt0) Trunk (LifeStart (config bt0)) <= fuel)%nat
                     /\ tame R Trunk (LifeStart (config bt0)))).
  { right. split; [unfold need; rewrite Hm0, Hl0; lia|].
    rewrite Hl0. destruct Htame; [right; left | right; right]; assumption. }
  split; [|split].
  - pose proof (steady_GrowTree true false (config bt0) fuel) as H.
    specialize (H ltac:(rewrite Hm0; lia) (or_introl eq_refl) Hneed bt0
                  (Inv_NewBonsaiTree cfg width height)).
    intros E. fold bt0 in E. rewrite E in H. discriminate.
  - intros (Hp1 & Hp2 & Hp3).
    pose proof (steady_GrowTree false false (config bt0) fuel) as H.
    assert (Hpf : false = true \/ panicFree R (config bt0))
      by (right; split; [rewrite Hm0; exact Hp1 | split; [exact Hp2 | rewrite Hlv0; exact Hp3]]).
    specialize (H ltac:(rewrite Hm0; lia) Hpf Hneed bt0
                  (Inv_NewBonsaiTree cfg width height)).
    destruct (GrowTree fuel bt0) as [[[] bt']| |]; simpl in H; try discriminate.
    now exists (tt, bt').
  - intros bt x y ty life Hs Hm Hty Hf.
    pose proof (steady_Branch true false (config bt) fuel x y ty life) as H.
    assert (Hn : false = true \/ ((need (config bt) ty life <= fuel)%nat
                                  /\ tame R ty life)).
    { right. split; [unfold need; destruct ty; try lia; congruence | now left]. }
    specialize (H ltac:(rewrite Hm; lia) (or_introl eq_refl) Hn bt (conj eq_refl Hs)).
    intros E. rewrite E in H. discriminate.
Qed.

(** Where the multiplier is not 0, the generator is lawful and no leaf is
    empty, no step of generation panics, whatever the fuel. *)
Lemma generation_never_panics (cfg : Config) (width height fuel : nat) (e : PanicKind) :
  0 <= Multiplier cfg -> panicFree R cfg ->
  GrowTree fuel (NewBonsaiTree cfg width height) <> Panic e.
Proof.
  intros Hmult (Hp1 & Hp2 & Hp3).
  set (bt0 := NewBonsaiTree (R:=R) cfg width height).
  pose proof (steady_GrowTree false true (config bt0) fuel) as H.
  assert (Hpf : false = true \/ panicFree R (config bt0))
    by (right; split; [exact Hp1 | split; [exact Hp2 | exact Hp3]]).
  specialize (H Hmult Hpf (or_introl eq_refl) bt0 (Inv_NewBonsaiTree cfg width height)).
  intros E. rewrite E in H. discriminate.
Qed.

End Generation.

Lemma forkDown_zeroSource : @forkDown unit zeroSource.
Proof. intros r. simpl. lia. Qed.

Lemma generation_ends_when_forks_gain_no_life_witness :
  let cfg := sampleConfig 200 20 1 0 defaultLeaves in
  validConfig cfg = true /\
  (LifeStart cfg <= 8 \/ @forkDown unit zeroSource) /\
  (Z.to_nat (LifeStart cfg) + Z.to_nat (Multiplier cfg) + 1 <= 221)%nat /\
  finished (@GrowTree unit zeroSource 221 (@NewBonsaiTree unit zeroSource cfg 80 24)).
Proof.
  intros cfg.
  assert (Hv : validConfig cfg = true) by reflexivity.
  assert (Ht : LifeStart cfg <= 8 \/ @forkDown unit zeroSource)
    by (right; exact forkDown_zeroSource).
  assert (Hf : (Z.to_nat (LifeStart cfg) + Z.to_nat (Multiplier cfg) + 1 <= 221)%nat)
    by (simpl; lia).
  split; [exact Hv|]. split; [exact Ht|]. split; [exact Hf|].
  exact (proj1 (@generation_ends_when_forks_gain_no_life unit zeroSource cfg 80 24 221
                  Hv Ht Hf)).
Defined.

(** ** A trunk that forks for ever, a multiplier of zero *)

Section Forking.

Lemma GetDeltas_trunk_young {R} {RS : RandSource R} (bt : BonsaiTree R) (life age : Z) :
  age <= 2 ->
  GetDeltas Trunk life age bt =
  Done ((fst (Intn 3 (rng bt)) - 1, 0), setRng (snd (Intn 3 (rng bt))) bt).
Proof.
  intros Hage. unfold GetDeltas, bind, get. simpl.
  replace (age <=? 2) with true by (symmetry; apply Z.leb_le; lia).
  reflexivity.
Qed.

Lemma branching_forks (Branch : Z -> Z -> BranchType -> Z -> M Script unit)
    (x y life cd : Z) (bt : BonsaiTree Script) :
  Multiplier (config bt) = 5 -> rng bt = s24 -> 8 <= life ->
  exists st,
    config st = config bt /\ rng st = s24 /\
    branching Branch x y Trunk life cd bt =
    bindR (Branch x y Trunk (life + 4 - 2) st) (fun p => Done (5 * 2, snd p)).
Proof.
  intros Hm Hr Hl. unfold branching, bind, get. simpl. rewrite Hm.
  destruct (life <? 3) eqn:E1; [lia|].
  destruct (life <? 5 + 2) eqn:E2; [lia|]. simpl.
  unfold intn. simpl. rewrite Hr. simpl.
  destruct (life >? 7) eqn:E3; [|lia]. simpl.
  eexists. split; [|split]; [| |reflexivity]; reflexivity.
Qed.

Lemma BranchLoop_forks_for_ever (fuel : nat) :
  forall (x y life cd : Z) (bt : BonsaiTree Script),
    9 <= life -> LifeStart (config bt) = 9 -> Multiplier (config bt) = 5 ->
    rng bt = s24 ->
    BranchLoop fuel x y Trunk life cd bt = OutOfFuel.
Proof.
  induction fuel as [|fuel IH]; intros x y life cd bt Hl Hls Hm Hr; [reflexivity|].
  cbn [BranchLoop].
  destruct (life >? 0) eqn:E0; [|lia].
  unfold bind at 1. rewrite stepDeltas_eq.
  rewrite GetDeltas_trunk_young by (unfold branchAge; lia).
  rewrite Hr. cbn [bindR fst snd Intn Script_source scriptIntn pending s24].
  unfold bind at 1.
  match goal with
  | |- context [branching ?B x y Trunk (life - 1) cd ?st] =>
      destruct (branching_forks B x y (life - 1) cd st) as (st' & Hc' & Hr' & Heq);
        [exact Hm | reflexivity | lia |]
  end.
  rewrite Heq. cbn beta.
  unfold bind at 1. unfold incrBranches at 1. cbn [bindR fst snd].
  unfold bind at 1. unfold get at 1. cbn [bindR fst snd].
  unfold setRng in Hc'. cbn [config] in Hc'.
  rewrite IH; [reflexivity | lia | | | ]; cbn [config rng]; congruence.
Qed.

End Forking.

(** The branching rules alone do not bound the recursion: on the
    scripted source that [NewSource 24] makes, with a life of 9 and a
    multiplier of 5, every trunk forks on its first step into a trunk with
    one more life, and no bound on the nesting lets generation end. *)
Lemma trunk_forks_for_ever :
  ~ exists fuel : nat,
      finished (GrowTree fuel (NewBonsaiTree (R:=Script)
                                 (sampleConfig 9 5 1 24 defaultLeaves) 40 14)).
Proof.
  intros [fuel Hfin]. apply Hfin. clear Hfin.
  set (bt0 := NewBonsaiTree (R:=Script) (sampleConfig 9 5 1 24 defaultLeaves) 40 14).
  assert (Hreset : exists bt1,
             resetTree bt0 = Done (tt, bt1) /\ rng bt1 = mkScript [] 24 /\
             LifeStart (config bt1) = 9 /\ Multiplier (config bt1) = 5).
  { eexists. split; [vm_compute; reflexivity|]. repeat split. }
  destruct Hreset as (bt1 & Hrun & Hr & Hls & Hm).
  unfold GrowTree. unfold bind at 1. rewrite Hrun. cbn [bindR fst snd].
  unfold bind at 1. unfold get at 1. cbn [bindR fst snd].
  unfold bind at 1. unfold Branch.
  unfold bind at 1. unfold incrBranches at 1. cbn [bindR fst snd].
  unfold bind at 1. unfold get at 1. cbn [bindR fst snd].
  rewrite BranchLoop_forks_for_ever; [reflexivity | | | |]; cbn [config rng]; try lia;
    assumption.
Qed.

(** With a multiplier of 0, a trunk step with at least 3 lives left whose
    one-in-three draw is not 0 takes the modulus of its life by 0. *)
Lemma zero_multiplier_step_panics {R} {RS : RandSource R} (bt bt1 : BonsaiTree R)
    (fuel : nat) (x y life cd dx dy : Z) :
  4 <= life ->
  stepDeltas y Trunk (life - 1) bt = Done ((dx, dy), bt1) ->
  Multiplier (config bt1) = 0 ->
  fst (Intn 3 (rng bt1)) <> 0 ->
  BranchLoop (S fuel) x y Trunk life cd bt = Panic DivideByZero.
Proof.
  intros Hl Hstep Hm Hd. cbn [BranchLoop].
  destruct (life >? 0) eqn:E0; [|lia].
  unfold bind at 1. rewrite Hstep. cbn [bindR fst snd].
  unfold bind at 1. unfold branching.
  unfold bind at 1. unfold get at 1. cbn [bindR fst snd]. rewrite Hm.
  destruct (life - 1 <? 3) eqn:E1; [lia|].
  destruct (life - 1 <? 0 + 2) eqn:E2; [lia|]. simpl.
  unfold bind at 1. unfold intn at 1. simpl.
  destruct (fst (Intn 3 (rng bt1)) =? 0) eqn:E3; [lia|].
  reflexivity.
Qed.

(** C3 at a multiplier of 0, which [main] accepts: with a life of 5 on the
    source that [NewSource 7] makes, the first trunk step draws 1 on the
    three-sided die and generation stops on an integer division by zero. *)
Lemma zero_multiplier_divides_by_zero :
  GrowTree 10 (NewBonsaiTree (R:=Script) (sampleConfig 5 0 1 7 defaultLeaves) 40 14)
  = Panic DivideByZero /\
  validConfig (sampleConfig 5 0 1 7 defaultLeaves) = true.
Proof. split; vm_compute; reflexivity. Qed.

(** ** More fuel changes no finished run *)

Section Fuel.

Context {R : Type} {RS : RandSource R}.

Lemma refines_refl {A} (m : M R A) : refines m m.
Proof. intros bt. now right. Qed.

Lemma refines_bind {A B} (m1 m2 : M R A) (k1 k2 : A -> M R B) :
  refines m1 m2 -> (forall a, refines (k1 a) (k2 a)) ->
  refines (bind m1 k1) (bind m2 k2).
Proof.
  intros Hm Hk bt. unfold bind.
  destruct (Hm bt) as [E|E]; rewrite E; [now left|].
  destruct (m2 bt) as [[a bt']| |]; simpl; [apply Hk | now right | now right].
Qed.

Lemma refines_trans {A} (m1 m2 m3 : M R A) :
  refines m1 m2 -> refines m2 m3 -> refines m1 m3.
Proof.
  intros H12 H23 bt. destruct (H12 bt) as [E|E]; [now left|].
  rewrite E. apply H23.
Qed.

Lemma refines_branching (B1 B2 : Z -> Z -> BranchType -> Z -> M R unit) x y ty life cd :
  (forall x y ty l, refines (B1 x y ty l) (B2 x y ty l)) ->
  refines (branching B1 x y ty life cd) (branching B2 x y ty life cd).
Proof.
  intros HB. unfold branching.
  apply refines_bind; [apply refines_refl|]. intros bt.
  destruct (life <? 3).
  { apply refines_bind; [apply HB | intros; apply refines_refl]. }
  destruct (BranchType_eqb ty Trunk && _).
  { apply refines_bind; [apply HB | intros; apply refines_refl]. }
  destruct ((BranchType_eqb ty ShootLeft || _) && _).
  { apply refines_bind; [apply HB | intros; apply refines_refl]. }
  destruct (BranchType_eqb ty Trunk); [|apply refines_refl].
  apply refines_bind; [apply refines_refl|]. intros d.
  apply refines_bind; [apply refines_refl|]. intros fires.
  destruct fires; [|apply refines_refl].
  apply refines_bind; [apply refines_refl|]. intros d8.
  destruct ((d8 =? 0) && _).
  { apply refines_bind; [apply refines_refl|]. intros j.
    apply refines_bind; [apply HB | intros; apply refines_refl]. }
  destruct (cd <=? 0); [|apply refines_refl].
  apply refines_bind; [apply refines_refl|]. intros _.
  apply refines_bind; [apply refines_refl|]. intros bt'.
  apply refines_bind; [|intros; apply refines_refl].
  destruct (_ =? 0); apply HB.
Qed.

Lemma refines_BranchLoop_S (fuel : nat) :
  forall x y ty life cd,
    refines (BranchLoop fuel x y ty life cd) (BranchLoop (S fuel) x y ty life cd).
Proof.
  induction fuel as [|fuel IH]; intros x y ty life cd; [intros bt; now left|].
  change (BranchLoop (S (S fuel)) x y ty life cd) with
    (if life >? 0 then
       let life := life - 1 in
       let* '(dx, dy) := stepDeltas y ty life in
       let* shootCooldown :=
         branching
           (fun x y ty l =>
              run incrBranches in
              let* bt := get in
              BranchLoop (S fuel) x y ty l (Multiplier (config bt)))
           x y ty life cd in
       let shootCooldown := shootCooldown - 1 in
       let x := x + dx in
       let y := y + dy in
       let* char := ChooseChar ty life dx dy in
       let* color := GetBranchColor ty in
       run drawPixel x y char color in
       BranchLoop (S fuel) x y ty life shootCooldown
     else ret tt).
  cbn [BranchLoop]. destruct (life >? 0); [|apply refines_refl]. cbv zeta.
  apply refines_bind; [apply refines_refl|]. intros [dx dy].
  apply refines_bind.
  { apply refines_branching. intros x' y' ty' l'.
    apply refines_bind; [apply refines_refl|]. intros _.
    apply refines_bind; [apply refines_refl|]. intros bt'. apply IH. }
  intros cd'.
  apply refines_bind; [apply refines_refl|]. intros char.
  apply refines_bind; [apply refines_refl|]. intros color.
  apply refines_bind; [apply refines_refl|]. intros _. apply IH.
Qed.

Lemma refines_BranchLoop (fuel fuel' : nat) x y ty life cd :
  (fuel <= fuel')%nat ->
  refines (BranchLoop fuel x y ty life cd) (BranchLoop fuel' x y ty life cd).
Proof.
  induction 1 as [|fuel' Hle IH]; [apply refines_refl|].
  eapply refines_trans; [exact IH | apply refines_BranchLoop_S].
Qed.

Lemma refines_GrowTree (fuel fuel' : nat) :
  (fuel <= fuel')%nat -> refines (GrowTree fuel) (GrowTree fuel').
Proof.
  intros Hle. unfold GrowTree.
  apply refines_bind; [apply refines_refl|]. intros _.
  apply refines_bind; [apply refines_refl|]. intros bt.
  apply refines_bind; [|intros; apply refines_refl].
  unfold Branch.
  apply refines_bind; [apply refines_refl|]. intros _.
  apply refines_bind; [apply refines_refl|]. intros bt'.
  now apply refines_BranchLoop.
Qed.

(** A run that finished is the run with any larger fuel. *)
Lemma GrowTree_fuel_irrelevant (fuel fuel' : nat) (bt : BonsaiTree R) :
  (fuel <= fuel')%nat -> finished (GrowTree fuel bt) ->
  GrowTree fuel' bt = GrowTree fuel bt.
Proof.
  intros Hle Hfin. destruct (refines_GrowTree fuel fuel' Hle bt) as [E|E].
  - contradiction.
  - now symmetry.
Qed.

End Fuel.

(** ** Two runs in step *)

Section InStep.

Context {R : Type} {RS : RandSource R}.

Lemma related_ret {A} (V : A -> A -> Prop) (a1 a2 : A) :
  V a1 a2 -> related (R:=R) V (ret a1) (ret a2).
Proof. intros HV b1 b2 HS. simpl. now split. Qed.

Lemma related_bind {A B} (V : A -> A -> Prop) (V' : B -> B -> Prop)
    (m1 m2 : M R A) (k1 k2 : A -> M R B) :
  related V m1 m2 ->
  (forall a1 a2, V a1 a2 -> related V' (k1 a1) (k2 a2)) ->
  related V' (bind m1 k1) (bind m2 k2).
Proof.
  intros Hm Hk b1 b2 HS. unfold bind. specialize (Hm b1 b2 HS).
  destruct (m1 b1) as [[a1 b1']| |], (m2 b2) as [[a2 b2']| |]; simpl in *;
    try contradiction; try exact Hm.
  destruct Hm as [HV HS']. now apply Hk.
Qed.

Lemma related_get : related (R:=R) Sim get get.
Proof. intros b1 b2 HS. simpl. now split. Qed.

Lemma related_liftR {A} (r : Result A) : related (R:=R) eq (liftR r) (liftR r).
Proof. intros b1 b2 HS. unfold liftR. destruct r; simpl; auto. Qed.

Lemma Sim_setRng (r : R) (b1 b2 : BonsaiTree R) :
  Sim b1 b2 -> Sim (setRng r b1) (setRng r b2).
Proof.
  intros (Hcv & Hrng & Hsh & Ht & Hw & Hh & Hwf1 & Hwf2).
  unfold Sim, setRng. cbn [canvas colorCanvas config rng shoots]. tauto.
Qed.

Lemma related_intn (n : Z) : related eq (intn n) (intn n).
Proof.
  intros b1 b2 HS. unfold intn. destruct (n <=? 0); simpl; [reflexivity|].
  pose proof HS as (_ & Hrng & _). rewrite Hrng.
  split; [reflexivity|]. now apply Sim_setRng.
Qed.

Lemma related_incrBranches : related (R:=R) eq incrBranches incrBranches.
Proof.
  intros b1 b2 (Hcv & Hrng & Hsh & Ht & Hw & Hh & Hwf1 & Hwf2). simpl.
  split; [reflexivity|]. unfold Sim. cbn [canvas colorCanvas config rng shoots]. tauto.
Qed.

Lemma related_incrShoots : related (R:=R) eq incrShoots incrShoots.
Proof.
  intros b1 b2 (Hcv & Hrng & Hsh & Ht & Hw & Hh & Hwf1 & Hwf2). simpl.
  split; [reflexivity|]. unfold Sim. cbn [canvas colorCanvas config rng shoots].
  rewrite Hsh. tauto.
Qed.

Lemma shape_paint {A} (g : list (list A)) x y v : shape (paint g x y v) = shape g.
Proof.
  unfold paint. destruct (inBounds g x y); [|reflexivity].
  destruct (g !! Z.to_nat y) as [row|] eqn:E; [|reflexivity].
  now apply shape_insert_row.
Qed.

(** What [SetPixelLive] and [SetPixel] leave in the character canvas. *)
Lemma SetPixelLive_paints (bt : BonsaiTree R) x y char color :
  SetPixelLive x y char color bt = Done (tt, setCanvas (paint (canvas bt) x y char) bt).
Proof.
  unfold SetPixelLive, bind, get, paint. simpl.
  destruct (inBounds (canvas bt) x y) eqn:Hin.
  - destruct (store_in_bounds (canvas bt) x y char Hin)
      as (row & Hrow & Hlt & Hx & Hy & Hst).
    unfold liftR. rewrite Hst, Hrow. reflexivity.
  - unfold ret, setCanvas. now destruct bt.
Qed.

Lemma SetPixel_paints (bt : BonsaiTree R) x y char color :
  shape (canvas bt) = shape (colorCanvas bt) ->
  SetPixel x y char color bt =
  Done (tt, setColorCanvas (paint (colorCanvas bt) x y color)
                           (setCanvas (paint (canvas bt) x y char) bt)).
Proof.
  intros Hwf. unfold SetPixel, bind, get, paint. simpl.
  rewrite <- (inBounds_shape _ _ x y Hwf).
  destruct (inBounds (canvas bt) x y) eqn:Hin.
  - destruct (store_in_bounds (canvas bt) x y char Hin)
      as (row & Hrow & Hlt & Hx & Hy & Hst).
    assert (Hin' : inBounds (colorCanvas bt) x y = true)
      by (rewrite <- (inBounds_shape _ _ x y Hwf); exact Hin).
    destruct (store_in_bounds (colorCanvas bt) x y color Hin')
      as (crow & Hcrow & Hclt & _ & _ & Hcst).
    unfold liftR. rewrite Hst. simpl. rewrite Hcst, Hrow, Hcrow. reflexivity.
  - unfold ret, setColorCanvas, setCanvas. now destruct bt.
Qed.

(** Drawing a cell keeps two trees in step whatever their [Live] flags
    and whatever the colours. *)
Lemma related_drawPixel x y char color1 color2 :
  related (R:=R) eq (drawPixel x y char color1) (drawPixel x y char color2).
Proof.
  intros b1 b2 HS. pose proof HS as (Hcv & Hrng & Hsh & Ht & Hw & Hh & Hwf1 & Hwf2).
  unfold drawPixel, bind, get. cbn [bindR fst snd].
  assert (H1 : exists cc1,
             shape (paint (canvas b1) x y char) = shape cc1 /\
             (if Live (config b1) then SetPixelLive x y char color1
              else SetPixel x y char color1) b1
             = Done (tt, setColorCanvas cc1 (setCanvas (paint (canvas b1) x y char) b1))).
  { destruct (Live (config b1)).
    - exists (colorCanvas b1). rewrite shape_paint. split; [exact Hwf1|].
      rewrite SetPixelLive_paints. unfold setColorCanvas, setCanvas. reflexivity.
    - exists (paint (colorCanvas b1) x y color1). rewrite !shape_paint.
      split; [exact Hwf1|]. now apply SetPixel_paints. }
  assert (H2 : exists cc2,
             shape (paint (canvas b2) x y char) = shape cc2 /\
             (if Live (config b2) then SetPixelLive x y char color2
              else SetPixel x y char color2) b2
             = Done (tt, setColorCanvas cc2 (setCanvas (paint (canvas b2) x y char) b2))).
  { destruct (Live (config b2)).
    - exists (colorCanvas b2). rewrite shape_paint. split; [exact Hwf2|].
      rewrite SetPixelLive_paints. unfold setColorCanvas, setCanvas. reflexivity.
    - exists (paint (colorCanvas b2) x y color2). rewrite !shape_paint.
      split; [exact Hwf2|]. now apply SetPixel_paints. }
  destruct H1 as (cc1 & Hs1 & E1), H2 as (cc2 & Hs2 & E2).
  rewrite E1, E2. simpl. split; [reflexivity|].
  unfold Sim, setColorCanvas, setCanvas. cbn [canvas colorCanvas config rng shoots].
  rewrite Hcv. rewrite Hcv in Hs1. tauto.
Qed.

Ltac sim_fields HS :=
  let Hsh := fresh "Hsh" in
  let Hls := fresh "Hls" in
  let Hm := fresh "Hm" in
  let Hb := fresh "Hb" in
  let Hlv := fresh "Hlv" in
  let Huc := fresh "Huc" in
  let Hw := fresh "Hw" in
  let Hh := fresh "Hh" in
  pose proof HS as (_ & _ & Hsh & (Hls & Hm & Hb & _ & Hlv & Huc) & Hw & Hh & _ & _);
  rewrite ?Hsh, ?Hls, ?Hm, ?Hb, ?Hlv, ?Huc, ?Hw, ?Hh.

Ltac draw := eapply related_bind; [apply related_intn | intros ? ? <-].

Ltac same := apply related_ret; reflexivity.

Lemma related_GetBranchColor ty : related eq (GetBranchColor ty) (GetBranchColor ty).
Proof.
  unfold GetBranchColor. eapply related_bind; [apply related_get|].
  intros b1 b2 HS. sim_fields HS.
  destruct (negb (UseColors (config b2))); [same|].
  destruct ty; try same; draw.
  - destruct (_ =? 0); same.
  - destruct (_ =? 0); same.
  - destruct (_ <=? 8); [same|]. destruct (_ =? 9); same.
  - destruct (_ <=? 8); [same|]. destruct (_ =? 9); same.
Qed.

Lemma related_GetBaseColor : related (R:=R) eq GetBaseColor GetBaseColor.
Proof.
  unfold GetBaseColor. eapply related_bind; [apply related_get|].
  intros b1 b2 HS. sim_fields HS.
  destruct (negb (UseColors (config b2))); same.
Qed.

Lemma related_GetDeltas ty life age :
  related eq (GetDeltas ty life age) (GetDeltas ty life age).
Proof.
  unfold GetDeltas. eapply related_bind; [apply related_get|].
  intros b1 b2 HS. sim_fields HS.
  destruct ty.
  - destruct ((age <=? 2) || (life <? 4)); [draw; same|].
    destruct (age <? _).
    + eapply related_bind; [apply related_liftR|]. intros ? ? <-. draw. same.
    + draw. draw. same.
  - draw. draw. same.
  - draw. draw. same.
  - draw. draw. same.
  - draw. draw. same.
Qed.

Lemma related_stepDeltas y ty life :
  related eq (stepDeltas y ty life) (stepDeltas y ty life).
Proof.
  unfold stepDeltas. eapply related_bind; [apply related_get|].
  intros b1 b2 HS. unfold branchAge, groundClamp. sim_fields HS.
  eapply related_bind; [apply related_GetDeltas|]. intros [dx dy] ? <-. same.
Qed.

Lemma related_ChooseChar ty life dx dy :
  related eq (ChooseChar ty life dx dy) (ChooseChar ty life dx dy).
Proof.
  unfold ChooseChar. destruct (glyphKind ty life); try same.
  all: eapply related_bind; [apply related_get|].
  all: intros b1 b2 HS; sim_fields HS.
  all: destruct (_ >? 0); [|same].
  all: draw.
  all: eapply related_bind; [apply related_liftR|]; intros ? ? <-.
  all: eapply related_bind; [apply related_liftR|]; intros ? ? <-.
  all: same.
Qed.

Lemma related_branching (B1 B2 : Z -> Z -> BranchType -> Z -> M R unit) x y ty life cd :
  (forall x y ty l, related eq (B1 x y ty l) (B2 x y ty l)) ->
  related eq (branching B1 x y ty life cd) (branching B2 x y ty life cd).
Proof.
  intros HB. unfold branching.
  eapply related_bind; [apply related_get|]. intros b1 b2 HS. sim_fields HS.
  destruct (life <? 3).
  { eapply related_bind; [apply HB|]. intros; same. }
  destruct (BranchType_eqb ty Trunk && _).
  { eapply related_bind; [apply HB|]. intros; same. }
  destruct ((BranchType_eqb ty ShootLeft || _) && _).
  { eapply related_bind; [apply HB|]. intros; same. }
  destruct (BranchType_eqb ty Trunk); [|same].
  draw.
  eapply related_bind with (V := eq).
  { destruct (_ =? 0); [same|].
    eapply related_bind; [apply related_liftR|]. intros ? ? <-. same. }
  intros fires ? <-. destruct fires; [|same].
  draw. destruct ((_ =? 0) && _).
  { draw. eapply related_bind; [apply HB|]. intros; same. }
  destruct (cd <=? 0); [|same].
  eapply related_bind; [apply related_incrShoots|]. intros _ _ _.
  eapply related_bind; [apply related_get|]. intros b1' b2' HS'. sim_fields HS'.
  eapply related_bind with (V := eq); [|intros; same].
  destruct (_ =? 0); apply HB.
Qed.

Lemma related_BranchLoop (fuel : nat) :
  forall x y ty life cd,
    related eq (BranchLoop fuel x y ty life cd) (BranchLoop fuel x y ty life cd).
Proof.
  induction fuel as [|fuel IH]; intros x y ty life cd.
  - intros b1 b2 HS. exact I.
  - cbn [BranchLoop]. destruct (life >? 0); [|same]. cbv zeta.
    eapply related_bind; [apply related_stepDeltas|]. intros [dx dy] ? <-.
    eapply related_bind.
    { apply related_branching. intros x' y' ty' l'.
      eapply related_bind; [apply related_incrBranches|]. intros _ _ _.
      eapply related_bind; [apply related_get|]. intros b1 b2 HS. sim_fields HS.
      apply IH. }
    intros cd' ? <-.
    eapply related_bind; [apply related_ChooseChar|]. intros char ? <-.
    eapply related_bind; [apply related_GetBranchColor|]. intros color ? <-.
    eapply related_bind; [apply related_drawPixel|]. intros _ _ _.
    apply IH.
Qed.

Lemma related_Branch (fuel : nat) x y ty life :
  related eq (Branch fuel x y ty life) (Branch fuel x y ty life).
Proof.
  unfold Branch.
  eapply related_bind; [apply related_incrBranches|]. intros _ _ _.
  eapply related_bind; [apply related_get|]. intros b1 b2 HS. sim_fields HS.
  apply related_BranchLoop.
Qed.

Lemma related_rangeString (s : list rune) (body1 body2 : Z -> rune -> M R unit) :
  (forall i c, related eq (body1 i c) (body2 i c)) ->
  forall i, related eq (rangeString i s body1) (rangeString i s body2).
Proof.
  intros Hbody. induction s as [|c s IH]; intros i; simpl; [same|].
  eapply related_bind; [apply Hbody|]. intros _ _ _. apply IH.
Qed.

Lemma related_potRimCell baseColor grassColor startX baseY i char :
  related (R:=R) eq (potRimCell baseColor grassColor startX baseY i char)
                    (potRimCell baseColor grassColor startX baseY i char).
Proof.
  unfold potRimCell.
  eapply related_bind with (V := eq); [|intros [c col] ? <-; apply related_drawPixel].
  destruct (_ || _); [same|].
  destruct (char =? rune_of "_").
  { eapply related_bind; [apply related_liftR|]. intros ? ? <-. same. }
  destruct (_ || _); [same|].
  destruct (_ && _); [|same].
  eapply related_bind with (V := eq); [|intros ? ? <-; same].
  destruct (char =? rune_of " "); [|same].
  eapply related_bind; [apply related_liftR|]. intros ? ? <-. same.
Qed.

Lemma related_DrawBase : related (R:=R) eq DrawBase DrawBase.
Proof.
  unfold DrawBase. eapply related_bind; [apply related_get|].
  intros b1 b2 HS. sim_fields HS.
  destruct (BaseType (config b2) =? 0); [same|].
  destruct (BaseType (config b2) =? 1).
  { eapply related_bind; [apply related_GetBaseColor|]. intros baseColor ? <-.
    eapply related_bind.
    { apply related_rangeString. intros. apply related_potRimCell. }
    intros _ _ _. eapply related_bind.
    { apply related_rangeString. intros. apply related_drawPixel. }
    intros _ _ _. eapply related_bind.
    { apply related_rangeString. intros. apply related_drawPixel. }
    intros _ _ _. apply related_rangeString. intros. apply related_drawPixel. }
  destruct (BaseType (config b2) =? 2); [|same].
  eapply related_bind.
  { apply related_rangeString. intros.
    destruct (_ && _); [apply related_drawPixel | same]. }
  intros _ _ _. eapply related_bind.
  { apply related_rangeString. intros. apply related_drawPixel. }
  intros _ _ _. eapply related_bind; [apply related_GetBaseColor|].
  intros baseColor ? <-. eapply related_bind.
  { apply related_rangeString. intros. apply related_drawPixel. }
  intros _ _ _. apply related_rangeString. intros. apply related_drawPixel.
Qed.

(** [store] succeeds exactly inside the grid. *)
Lemma store_outcome {A} (g : list (list A)) x y v :
  store g x y v = if inBounds g x y then Done (paint g x y v) else Panic IndexOutOfRange.
Proof.
  destruct (inBounds g x y) eqn:Hin.
  - destruct (store_in_bounds g x y v Hin) as (row & Hrow & _ & _ & _ & Hst).
    rewrite Hst. unfold paint. now rewrite Hin, Hrow.
  - unfold store, inBounds in *.
    destruct (Z.ltb_spec y 0); [reflexivity|].
    destruct (Z.leb_spec (Z.of_nat (length g)) y); [reflexivity|]. simpl.
    destruct (g !! Z.to_nat y) as [row|]; [|reflexivity].
    destruct (Z.ltb_spec x 0); [reflexivity|].
    destruct (Z.leb_spec (Z.of_nat (length row)) x); [reflexivity|]. simpl.
    exfalso. revert Hin.
    replace (0 <=? y) with true by (symmetry; apply Z.leb_le; lia).
    replace (y <? Z.of_nat (length g)) with true by (symmetry; apply Z.ltb_lt; lia).
    replace (0 <=? x) with true by (symmetry; apply Z.leb_le; lia).
    replace (x <? Z.of_nat (length row)) with true by (symmetry; apply Z.ltb_lt; lia).
    discriminate.
Qed.

Lemma related_put (st1 st2 : BonsaiTree R) :
  Sim st1 st2 -> related eq (put st1) (put st2).
Proof. intros HS b1 b2 _. simpl. now split. Qed.

Lemma related_liftR2 {A} (V : A -> A -> Prop) (r1 r2 : Result A) :
  match r1, r2 with
  | Done a1, Done a2 => V a1 a2
  | Panic e1, Panic e2 => e1 = e2
  | OutOfFuel, OutOfFuel => True
  | _, _ => False
  end ->
  related (R:=R) V (liftR r1) (liftR r2).
Proof.
  intros H b1 b2 HS. unfold liftR.
  destruct r1, r2; simpl in *; try contradiction; auto.
Qed.

Lemma related_clearCells (n : nat) :
  forall y x, related (R:=R) eq (clearCells y x n) (clearCells y x n).
Proof.
  induction n as [|n IH]; intros y x; simpl; [same|].
  eapply related_bind; [apply related_get|]. intros b1 b2 HS.
  pose proof HS as (Hcv & Hrng & Hsh & Ht & Hw & Hh & Hwf1 & Hwf2).
  eapply related_bind
    with (V := fun a b => a = paint (canvas b1) x y (rune_of " ") /\ b = a).
  { apply related_liftR2. rewrite !store_outcome, <- Hcv.
    destruct (inBounds (canvas b1) x y); [now split | reflexivity]. }
  intros cv ? [-> ->].
  eapply related_bind
    with (V := fun a b => a = paint (colorCanvas b1) x y EmptyString
                          /\ b = paint (colorCanvas b2) x y EmptyString).
  { apply related_liftR2. rewrite !store_outcome.
    rewrite <- (inBounds_shape _ _ x y Hwf1).
    rewrite <- (inBounds_shape _ _ x y Hwf2), <- Hcv.
    destruct (inBounds (canvas b1) x y); [now split | reflexivity]. }
  intros cc1 cc2 [-> ->].
  eapply related_bind; [|intros _ _ _; apply IH].
  apply related_put. unfold Sim, setColorCanvas, setCanvas.
  cbn [canvas colorCanvas config rng shoots]. rewrite !shape_paint.
  rewrite <- Hcv in Hwf2. tauto.
Qed.

Lemma related_clearRows (n : nat) :
  forall y, related (R:=R) eq (clearRows y n) (clearRows y n).
Proof.
  induction n as [|n IH]; intros y; simpl; [same|].
  eapply related_bind; [apply related_get|]. intros b1 b2 HS.
  pose proof HS as (Hcv & _). rewrite Hcv.
  eapply related_bind; [apply related_liftR|]. intros row ? <-.
  eapply related_bind; [apply related_clearCells|]. intros _ _ _. apply IH.
Qed.

Lemma related_bind_get {A} (V : A -> A -> Prop) (k1 k2 : BonsaiTree R -> M R A) :
  (forall b1 b2, Sim b1 b2 -> agree V (k1 b1 b1) (k2 b2 b2)) ->
  related V (bind get k1) (bind get k2).
Proof. intros Hk b1 b2 HS. unfold bind, get. simpl. now apply Hk. Qed.

Lemma related_resetTree : related (R:=R) eq resetTree resetTree.
Proof.
  unfold resetTree. eapply related_bind; [apply related_get|]. intros b1 b2 HS.
  pose proof HS as (Hcv & Hrng & Hsh & Ht & Hw & Hh & Hwf1 & Hwf2).
  eapply related_bind.
  { apply related_put. unfold Sim. cbn [canvas colorCanvas config rng shoots]. tauto. }
  intros _ _ _. rewrite Hcv.
  eapply related_bind; [apply related_clearRows|]. intros _ _ _.
  apply related_bind_get. intros b1' b2' HS'. cbv zeta.
  pose proof HS' as (Hcv' & Hrng' & Hsh' & Ht' & Hw' & Hh' & Hwf1' & Hwf2').
  unfold bind at 1 2.
  destruct (Live (config b1')), (Live (config b2')); cbn [put ret bindR fst snd];
    apply related_DrawBase; unfold Sim; cbn [canvas colorCanvas config rng shoots];
    tauto.
Qed.

(** Two trees in step stay in step through [GrowTree], whatever their
    presentation flags. *)
Lemma related_GrowTree (fuel : nat) : related eq (GrowTree fuel) (GrowTree fuel).
Proof.
  unfold GrowTree. eapply related_bind; [apply related_resetTree|]. intros _ _ _.
  eapply related_bind; [apply related_get|]. intros b1 b2 HS. cbv zeta.
  sim_fields HS.
  eapply related_bind; [apply related_Branch|]. intros _ _ _.
  intros c1 c2 HSc.
  pose proof HSc as (Hcv & Hrng & Hsh' & Ht & Hw' & Hh' & Hwf1 & Hwf2).
  destruct (negb (Live (config b1))), (negb (Live (config b2))); simpl;
    (split; [reflexivity|]); unfold Sim; cbn [canvas colorCanvas config rng shoots];
    tauto.
Qed.

Lemma Sim_NewBonsaiTree (cfg1 cfg2 : Config) (width height : nat) :
  sameTunables cfg1 cfg2 ->
  Sim (NewBonsaiTree (R:=R) cfg1 width height) (NewBonsaiTree cfg2 width height).
Proof.
  intros (Hls & Hm & Hb & Hseed & Hlv & Huc).
  unfold Sim, NewBonsaiTree, sameTunables.
  cbn [canvas colorCanvas config rng shoots LifeStart Multiplier BaseType Seed Leaves
       UseColors Width Height].
  rewrite !shape_replicate, Hseed. tauto.
Qed.

(** C1. Two runs of [GrowTree] on trees made by [NewBonsaiTree] for the
    same terminal size, from configurations with the same seed, life,
    multiplier, base type, leaves and colour switch, end alike whatever
    fuel bounds each and whatever the presentation flags: they return the
    same character grid, generator state and shoot count, or they stop on
    the same panic.  From one and the same configuration the two outcomes
    are equal in full, colour canvas included. *)
Theorem GrowTree_deterministic (cfg1 cfg2 : Config) (width height fuel1 fuel2 : nat) :
  sameTunables cfg1 cfg2 ->
  finished (GrowTree fuel1 (NewBonsaiTree (R:=R) cfg1 width height)) ->
  finished (GrowTree fuel2 (NewBonsaiTree (R:=R) cfg2 width height)) ->
  sameOutcome (GrowTree fuel1 (NewBonsaiTree cfg1 width height))
              (GrowTree fuel2 (NewBonsaiTree cfg2 width height)) /\
  (cfg1 = cfg2 ->
   GrowTree fuel1 (NewBonsaiTree cfg1 width height)
   = GrowTree fuel2 (NewBonsaiTree cfg2 width height)).
Proof.
  intros Hsame Hfin1 Hfin2. split.
  - pose proof (related_GrowTree (Nat.max fuel1 fuel2) _ _
                  (Sim_NewBonsaiTree cfg1 cfg2 width height Hsame)) as H.
    rewrite (GrowTree_fuel_irrelevant fuel1 (Nat.max fuel1 fuel2)) in H
      by (try exact Hfin1; lia).
    rewrite (GrowTree_fuel_irrelevant fuel2 (Nat.max fuel1 fuel2)) in H
      by (try exact Hfin2; lia).
    unfold finished in *.
    destruct (GrowTree fuel1 _) as [[[] b1]| |], (GrowTree fuel2 _) as [[[] b2]| |];
      simpl in *; try contradiction; try congruence.
    destruct H as (_ & Hcv & Hrng & Hsh & _). now repeat split.
  - intros <-.
    rewrite <- (GrowTree_fuel_irrelevant fuel1 (Nat.max fuel1 fuel2))
      by (try exact Hfin1; lia).
    rewrite <- (GrowTree_fuel_irrelevant fuel2 (Nat.max fuel1 fuel2))
      by (try exact Hfin2; lia).
    reflexivity.
Qed.

End InStep.

Lemma GrowTree_deterministic_witness :
  let cfg1 := mkConfig false false true 10 3 0 42 "" defaultLeaves 0 0 false in
  let cfg2 := mkConfig true true false 10 3 0 42 "bonsai" defaultLeaves 80 24 false in
  sameTunables cfg1 cfg2 /\
  finished (GrowTree 40 (NewBonsaiTree (R:=Script) cfg1 40 20)) /\
  finished (GrowTree 60 (NewBonsaiTree (R:=Script) cfg2 40 20)) /\
  sameOutcome (GrowTree 40 (NewBonsaiTree (R:=Script) cfg1 40 20))
              (GrowTree 60 (NewBonsaiTree (R:=Script) cfg2 40 20)).
Proof.
  intros cfg1 cfg2.
  assert (Hs : sameTunables cfg1 cfg2) by (repeat split).
  assert (H1 : finished (GrowTree 40 (NewBonsaiTree (R:=Script) cfg1 40 20)))
    by (intros E; vm_compute in E; discriminate).
  assert (H2 : finished (GrowTree 60 (NewBonsaiTree (R:=Script) cfg2 40 20)))
    by (intros E; vm_compute in E; discriminate).
  split; [exact Hs|]. split; [exact H1|]. split; [exact H2|].
  exact (proj1 (GrowTree_deterministic cfg1 cfg2 40 20 40 60 Hs H1 H2)).
Defined.

(** ** The monochrome generator *)

Section LegacyFacts.

Context {R : Type} {RS : RandSource R}.

Lemma cell_paint {A} (g : list (list A)) x y v i j :
  cell (paint g x y v) i j = overwrite x y v i j (cell g i j).
Proof.
  unfold paint. destruct (inBounds g x y) eqn:Hin.
  - destruct (store_in_bounds g x y v Hin) as (row & Hrow & Hlt & Hx & Hy & _).
    rewrite Hrow. now apply cell_insert_row.
  - symmetry. now apply overwrite_out_of_grid.
Qed.

Lemma Legacy_SetPixel_paints (bt : BonsaiTree R) x y char :
  Legacy.SetPixel x y char bt = Done (tt, setCanvas (paint (canvas bt) x y char) bt).
Proof. exact (SetPixelLive_paints bt x y char EmptyString). Qed.

(** The [SetPixel] of [main.go] has the same guard: any sequence of calls
    returns, keeps the shape of the canvas, and leaves in every cell the
    last write aimed at it or its old content. *)
Lemma Legacy_SetPixels_stay_in_grid (calls : list (Z * Z * rune)) :
  forall bt : BonsaiTree R,
  exists bt',
    Legacy.SetPixels calls bt = Done (tt, bt') /\
    shape (canvas bt') = shape (canvas bt) /\
    sameControl bt' bt /\
    (forall i j,
        cell (canvas bt') i j =
        painted fst (map (fun c => (c, EmptyString)) calls) i j (cell (canvas bt) i j)).
Proof.
  induction calls as [|[[x y] char] rest IH]; intros bt.
  - exists bt. simpl. unfold ret, painted. repeat split.
    intros i j. now destruct (cell (canvas bt) i j).
  - destruct (IH (setCanvas (paint (canvas bt) x y char) bt))
      as (bt' & Hrun & Hshape & Hctl & Hcell).
    exists bt'. simpl Legacy.SetPixels. unfold bind.
    rewrite Legacy_SetPixel_paints. simpl. split; [exact Hrun|].
    unfold setCanvas in Hshape, Hctl, Hcell. cbn [canvas] in Hshape, Hcell.
    split; [now rewrite Hshape, shape_paint|].
    split; [exact Hctl|].
    intros i j. rewrite Hcell, cell_paint. apply (painted_step fst).
Qed.

End LegacyFacts.

(** [main.go] lifts no step: the first step of the trunk that its
    [GrowTree] starts keeps a level delta, where the coloured generator
    replaces it by -2. *)
Lemma Legacy_first_step_not_lifted :
  let cfg := sampleConfig 32 5 1 0 defaultLeaves in
  (exists bt', Legacy.stepDeltas 9 Trunk (32 - 1) (sampleTree cfg 8 12 [1; 5])
               = Done ((0, 0), bt')) /\
  (exists bt', stepDeltas 9 Trunk (32 - 1) (sampleTree cfg 8 12 [1; 5])
               = Done ((0, -2), bt')).
Proof. split; eexists; vm_compute; reflexivity. Qed.

(** The modulus by a zero multiplier is in [main.go] too. *)
Lemma Legacy_zero_multiplier_divides_by_zero :
  Legacy.GrowTree 10
    (Legacy.NewBonsaiTree (R:=Script) (sampleConfig 5 0 1 7 defaultLeaves) 40 14)
  = Panic DivideByZero.
Proof. vm_compute. reflexivity. Qed.

(** ** The first step of a branch, and every other step *)

Section FirstStep.

Context {R : Type} {RS : RandSource R}.




End FirstStep.


(** * Further properties of the code *)

(** ** The deltas of a step *)

Section Deltas.

Context {R : Type} {RS : RandSource R}.

Lemma trunkDx_range (d : Z) : -2 <= trunkDx d <= 2.
Proof.
  unfold trunkDx.
  destruct (d =? 0); [lia|]. destruct (d <=? 3); [lia|]. destruct (d <=? 5); [lia|].
  destruct (d <=? 8); [lia|]. destruct (d =? 9); lia.
Qed.

Lemma sameButRng_setRng (r : R) (bt : BonsaiTree R) : sameButRng (setRng r bt) bt.
Proof. now repeat split. Qed.

(** [GetDeltas] returns for every kind, life, age and multiplier, touches
    nothing but the generator, and on a lawful generator its deltas are in
    the range of the kind. *)
Lemma GetDeltas_range (bt : BonsaiTree R) (ty : BranchType) (life age : Z) :
  RandLawful R ->
  exists dx dy r,
    GetDeltas ty life age bt = Done ((dx, dy), setRng r bt) /\ deltaBounds ty dx dy.
Proof.
  intros Hlaw.
  assert (H3 : forall r : R, -1 <= fst (Intn 3 r) - 1 <= 1)
    by (intros r; pose proof (Hlaw 3 r); lia).
  destruct ty; unfold GetDeltas, bind, get, intn, ret; cbn [bindR fst snd].
  - destruct ((age <=? 2) || (life <? 4)) eqn:E1.
    + simpl. eexists _, _, _. split; [reflexivity|]. simpl.
      pose proof (H3 (rng bt)). lia.
    + destruct (age <? Multiplier (config bt) * 3) eqn:E2.
      * apply orb_false_elim in E1 as [E1 _].
        apply Z.leb_gt in E1. apply Z.ltb_lt in E2.
        unfold liftR, goRem.
        destruct (halfUp (Multiplier (config bt)) =? 0) eqn:E3.
        { apply Z.eqb_eq in E3. exfalso. revert E3. apply halfUp_positive. lia. }
        simpl. eexists _, _, _. split; [reflexivity|]. simpl.
        split; [apply trunkDx_range|].
        destruct (Z.rem age (halfUp (Multiplier (config bt))) =? 0); lia.
      * simpl. eexists _, _, _. split; [reflexivity|]. simpl.
        pose proof (H3 (snd (Intn 10 (rng bt)))).
        destruct (fst (Intn 10 (rng bt)) >? 2); lia.
  - simpl. eexists _, _, _. split; [reflexivity|]. simpl.
    unfold shootLeftDx, shootLeftDy.
    split; repeat match goal with |- context [if ?c then _ else _] => destruct c end; lia.
  - simpl. eexists _, _, _. split; [reflexivity|]. simpl.
    unfold shootRightDx, shootRightDy.
    split; repeat match goal with |- context [if ?c then _ else _] => destruct c end; lia.
  - simpl. eexists _, _, _. split; [reflexivity|]. simpl.
    unfold dyingDx, dyingDy.
    split; repeat match goal with |- context [if ?c then _ else _] => destruct c end; lia.
  - simpl. eexists _, _, _. split; [reflexivity|]. simpl.
    unfold deadDy. split; [apply H3|].
    repeat match goal with |- context [if ?c then _ else _] => destruct c end; lia.
Qed.

End Deltas.

Section StepFacts.

Context {R : Type} {RS : RandSource R}.

(** X1. On a lawful generator [GetDeltas] returns for every kind, life, age
    and multiplier (the modulus of the growth phase is never taken by 0),
    changes nothing of the tree but the generator state, and its deltas lie
    in the range of the kind: a trunk never moves down and never more than
    two columns, a left shoot never more than one column right, a right
    shoot never more than one column left, foliage within three columns and
    one row. *)
Theorem GetDeltas_returns_in_range (bt : BonsaiTree R) (ty : BranchType) (life age : Z) :
  RandLawful R ->
  exists dx dy bt',
    GetDeltas ty life age bt = Done ((dx, dy), bt') /\
    sameButRng bt' bt /\ deltaBounds ty dx dy.
Proof.
  intros Hlaw. destruct (GetDeltas_range bt ty life age Hlaw) as (dx & dy & r & Hrun & Hb).
  exists dx, dy, (setRng r bt). split; [exact Hrun|]. split; [|exact Hb].
  apply sameButRng_setRng.
Qed.

Lemma deltaBounds_any (ty : BranchType) (dx dy : Z) :
  deltaBounds ty dx dy -> -3 <= dx <= 3 /\ -1 <= dy <= 1.
Proof. destruct ty; simpl; lia. Qed.

(** The movement of a step on a lawful generator. *)
Lemma stepDeltas_range (bt : BonsaiTree R) (y : Z) (ty : BranchType) (life : Z) :
  RandLawful R ->
  exists dx dy r,
    stepDeltas y ty life bt = Done ((dx, dy), setRng r bt) /\
    -3 <= dx <= 3 /\ -2 <= dy <= 1 /\
    (Height (config bt) - 7 < y -> dy <= 0).
Proof.
  intros Hlaw. rewrite stepDeltas_eq.
  destruct (GetDeltas_range bt ty life (branchAge (config bt) life) Hlaw)
    as (dx & dy & r & Hrun & Hb).
  rewrite Hrun. cbn [bindR fst snd]. apply deltaBounds_any in Hb.
  eexists _, _, _. split; [reflexivity|].
  unfold firstMoveLift, groundClamp.
  destruct (branchAge (config bt) life =? 1);
    destruct (dy >? 0) eqn:E1; destruct (y >? Height (config bt) - 7) eqn:E2;
    cbn [andb];
    repeat match goal with |- context [if ?c then _ else _] => destruct c eqn:? end;
    lia.
Qed.

(** X2. On a lawful generator the movement of a step always exists, moves
    at most three columns, at most two rows up and one row down, and never
    down from a row within six of the bottom edge: the step ends no lower
    than the lower of its own row and row [Height - 6]. *)
Theorem step_stays_above_ground (bt : BonsaiTree R) (y : Z) (ty : BranchType) (life : Z) :
  RandLawful R ->
  exists dx dy bt',
    stepDeltas y ty life bt = Done ((dx, dy), bt') /\
    sameButRng bt' bt /\
    -3 <= dx <= 3 /\ -2 <= dy <= 1 /\
    (Height (config bt) - 7 < y -> dy <= 0) /\
    y + dy <= Z.max y (Height (config bt) - 6).
Proof.
  intros Hlaw.
  destruct (stepDeltas_range bt y ty life Hlaw) as (dx & dy & r & Hrun & Hx & Hy & Hg).
  exists dx, dy, (setRng r bt). split; [exact Hrun|].
  split; [apply sameButRng_setRng|]. repeat split; try lia; try exact Hg.
Qed.

End StepFacts.

Lemma GetDeltas_returns_in_range_witness :
  let bt := sampleTree (sampleConfig 32 0 1 0 defaultLeaves) 8 6 [3; 9] in
  exists dx dy bt',
    GetDeltas Trunk 20 5 bt = Done ((dx, dy), bt') /\ deltaBounds Trunk dx dy.
Proof.
  intros bt.
  destruct (GetDeltas_returns_in_range bt Trunk 20 5 Script_lawful)
    as (dx & dy & bt' & Hrun & _ & Hb).
  exists dx, dy, bt'. split; [exact Hrun | exact Hb].
Defined.

Lemma step_stays_above_ground_witness :
  let bt := sampleTree (sampleConfig 32 5 1 0 defaultLeaves) 8 12 [9; 1] in
  exists dx dy bt',
    stepDeltas 9 Dead 2 bt = Done ((dx, dy), bt') /\ 9 + dy <= Z.max 9 (12 - 6).
Proof.
  intros bt.
  destruct (step_stays_above_ground bt 9 Dead 2 Script_lawful)
    as (dx & dy & bt' & Hrun & _ & _ & _ & _ & H).
  exists dx, dy, bt'. split; [exact Hrun | exact H].
Defined.

(** ** The glyph tables *)

Section GlyphFacts.

Context {R : Type} {RS : RandSource R}.

(** X3. The glyph tables of the two shoot kinds are mirror images: a right
    shoot moving by [(dx, dy)] is drawn as the mirror glyph of a left shoot
    moving by [(-dx, dy)], slash and backslash exchanged; with the mirrored
    delta tables, a right shoot grown from a generator state is the mirror
    image of the left shoot grown from it. *)
Theorem shoot_glyphs_mirrored (dx dy : Z) :
  shootRightChar dx dy = mirrorGlyph (shootLeftChar (- dx) dy) /\
  shootLeftChar dx dy = mirrorGlyph (shootRightChar (- dx) dy) /\
  (forall (bt : BonsaiTree R) life,
      4 <= life ->
      ChooseChar ShootRight life dx dy bt =
      match ChooseChar ShootLeft life (- dx) dy bt with
      | Done (c, bt') => Done (mirrorGlyph c, bt')
      | Panic e => Panic e
      | OutOfFuel => OutOfFuel
      end).
Proof.
  assert (H1 : shootRightChar dx dy = mirrorGlyph (shootLeftChar (- dx) dy)).
  { unfold shootRightChar, shootLeftChar.
    destruct (dy >? 0); [reflexivity|]. destruct (dy =? 0); [reflexivity|].
    destruct (Z.ltb_spec dx 0), (Z.eqb_spec dx 0), (Z.ltb_spec (- dx) 0),
      (Z.eqb_spec (- dx) 0); try lia; reflexivity. }
  split; [exact H1|]. split.
  { unfold shootRightChar, shootLeftChar.
    destruct (dy >? 0); [reflexivity|]. destruct (dy =? 0); [reflexivity|].
    destruct (Z.ltb_spec dx 0), (Z.eqb_spec dx 0), (Z.ltb_spec (- dx) 0),
      (Z.eqb_spec (- dx) 0); try lia; reflexivity. }
  intros bt life Hl. unfold ChooseChar. rewrite !glyphKind_alive by exact Hl.
  unfold ret. now rewrite H1.
Qed.

(** X4. Below a remaining life of 4 every kind is drawn as foliage: the
    glyph and the generator state that [ChooseChar] returns are those of a
    Dying branch, whatever the kind and the deltas.  From a life of 4 on,
    the three woody kinds draw one of the five glyphs of the table and
    leave the generator as it is. *)
Theorem ChooseChar_tips_are_foliage (bt : BonsaiTree R) (ty : BranchType)
    (life dx dy : Z) :
  (life < 4 -> ChooseChar ty life dx dy bt = ChooseChar Dying life 0 0 bt) /\
  (4 <= life -> ty <> Dying -> ty <> Dead ->
   exists c, ChooseChar ty life dx dy bt = Done (c, bt) /\
             In c (map rune_of ["~"; "\"; "|"; "/"; "_"]%char)).
Proof.
  split.
  - intros Hl. rewrite !ChooseChar_foliage; [reflexivity | |];
      rewrite glyphKind_low by exact Hl; now left.
  - intros Hl H1 H2. unfold ChooseChar. rewrite glyphKind_alive by exact Hl.
    destruct ty; try congruence; unfold ret; eexists; (split; [reflexivity|]).
    + unfold trunkChar.
      repeat match goal with |- context [if ?c then _ else _] => destruct c end;
        simpl; tauto.
    + unfold shootLeftChar.
      repeat match goal with |- context [if ?c then _ else _] => destruct c end;
        simpl; tauto.
    + unfold shootRightChar.
      repeat match goal with |- context [if ?c then _ else _] => destruct c end;
        simpl; tauto.
Qed.

End GlyphFacts.

(** ** Colours *)

Section ColourFacts.

Context {R : Type} {RS : RandSource R}.

(** X5. [GetBranchColor] always returns and changes nothing but the
    generator state.  With colours off it returns the empty string and
    draws nothing.  With colours on, on a lawful generator: a trunk is
    yellow, without a draw; a shoot is yellow or bright yellow; foliage is
    bright green or medium green and never bright yellow, the third case
    of its switch repeating the test of the second. *)
Theorem GetBranchColor_palette (bt : BonsaiTree R) (ty : BranchType) :
  RandLawful R ->
  exists color bt',
    GetBranchColor ty bt = Done (color, bt') /\
    sameButRng bt' bt /\
    (UseColors (config bt) = false -> color = EmptyString /\ bt' = bt) /\
    (UseColors (config bt) = true ->
     match ty with
     | Trunk => color = ColorYellow /\ bt' = bt
     | ShootLeft | ShootRight => color = ColorYellow \/ color = ColorBrightYellow
     | Dying | Dead =>
         (color = ColorBrightGreen \/ color = ColorMediumGreen) /\
         color <> ColorBrightYellow /\ color <> EmptyString
     end).
Proof.
  intros Hlaw. unfold GetBranchColor, bind, get. cbn [bindR fst snd].
  destruct (UseColors (config bt)) eqn:Huc; cbn [negb].
  2:{ exists EmptyString, bt. unfold ret. split; [reflexivity|].
      split; [now repeat split|]. split; [now split | discriminate]. }
  pose proof (Hlaw 10 (rng bt) ltac:(lia)) as H10.
  destruct ty; unfold ret, intn; cbn [bindR fst snd Z.leb Z.compare].
  - exists ColorYellow, bt. split; [reflexivity|]. split; [now repeat split|].
    split; [discriminate | now split].
  - destruct (fst (Intn 4 (rng bt)) =? 0); eexists _, _; (split; [reflexivity|]);
      (split; [apply sameButRng_setRng|]); (split; [discriminate|]); intros _; tauto.
  - destruct (fst (Intn 4 (rng bt)) =? 0); eexists _, _; (split; [reflexivity|]);
      (split; [apply sameButRng_setRng|]); (split; [discriminate|]); intros _; tauto.
  - destruct (fst (Intn 10 (rng bt)) <=? 8) eqn:E8;
      [|destruct (fst (Intn 10 (rng bt)) =? 9) eqn:E9; [|lia]];
      eexists _, _; (split; [reflexivity|]); (split; [apply sameButRng_setRng|]);
      (split; [discriminate|]); intros _; (split; [tauto|]); split; discriminate.
  - destruct (fst (Intn 10 (rng bt)) <=? 8) eqn:E8;
      [|destruct (fst (Intn 10 (rng bt)) =? 9) eqn:E9; [|lia]];
      eexists _, _; (split; [reflexivity|]); (split; [apply sameButRng_setRng|]);
      (split; [discriminate|]); intros _; (split; [tauto|]); split; discriminate.
Qed.

End ColourFacts.

Lemma GetBranchColor_palette_witness :
  let bt := sampleTree (mkConfig false false true 32 5 1 0 "" defaultLeaves 0 0 true)
                       8 6 [9] in
  exists color bt',
    GetBranchColor Dead bt = Done (color, bt') /\ color <> ColorBrightYellow.
Proof.
  intros bt.
  destruct (GetBranchColor_palette bt Dead Script_lawful)
    as (color & bt' & Hrun & _ & _ & Hon).
  exists color, bt'. split; [exact Hrun|].
  exact (proj1 (proj2 (Hon eq_refl))).
Defined.

(** ** Writing cells *)

Section PixelFacts.

Context {R : Type} {RS : RandSource R}.

(** X6. [SetPixelLive] never panics, whatever the two canvases are; it
    leaves the colour canvas and the rest of the tree as they are, keeps
    the shape of the character canvas and changes at most the cell it
    names; on a tree whose canvases have one shape [SetPixel] leaves the
    same character canvas. *)
Theorem SetPixelLive_writes_characters_only (bt : BonsaiTree R) (x y : Z) (char : rune)
    (color : string) :
  exists bt',
    SetPixelLive x y char color bt = Done (tt, bt') /\
    colorCanvas bt' = colorCanvas bt /\ sameControl bt' bt /\
    shape (canvas bt') = shape (canvas bt) /\
    (forall i j, cell (canvas bt') i j = overwrite x y char i j (cell (canvas bt) i j)) /\
    (shape (canvas bt) = shape (colorCanvas bt) ->
     exists bt'', SetPixel x y char color bt = Done (tt, bt'') /\
                  canvas bt'' = canvas bt').
Proof.
  exists (setCanvas (paint (canvas bt) x y char) bt).
  split; [apply SetPixelLive_paints|]. split; [reflexivity|].
  split; [now repeat split|]. unfold setCanvas. cbn [canvas].
  split; [apply shape_paint|]. split; [intros i j; apply cell_paint|].
  intros Hwf. eexists. split; [now apply SetPixel_paints | reflexivity].
Qed.

Lemma lookup_replicate_lt {A} (n i : nat) (a : A) :
  replicate n a !! i = if (i <? n)%nat then Some a else None.
Proof.
  destruct (Nat.ltb_spec i n) as [H|H].
  - now apply lookup_replicate_2.
  - apply lookup_ge_None. rewrite length_replicate. lia.
Qed.

Lemma cell_replicate {A} (h w i j : nat) (a : A) :
  cell (replicate h (replicate w a)) i j =
  if ((i <? w) && (j <? h))%nat then Some a else None.
Proof.
  unfold cell. rewrite lookup_replicate_lt.
  destruct (j <? h)%nat; [|now rewrite andb_false_r].
  rewrite lookup_replicate_lt, andb_true_r. reflexivity.
Qed.

(** X7. The tree of [NewBonsaiTree] is a blank grid of [height] rows and
    [width] columns with the terminal size written into its configuration:
    [SetPixel] on it returns and leaves a grid whose cell [(i, j)], for
    [i < width] and [j < height], is the character written if [(i, j)] is
    the cell named, and a blank otherwise; there is no other cell. *)
Theorem fresh_tree_SetPixel (cfg : Config) (width height : nat) (x y : Z) (char : rune)
    (color : string) :
  Width (config (NewBonsaiTree (R:=R) cfg width height)) = Z.of_nat width /\
  Height (config (NewBonsaiTree (R:=R) cfg width height)) = Z.of_nat height /\
  exists bt',
    SetPixel x y char color (NewBonsaiTree (R:=R) cfg width height) = Done (tt, bt') /\
    (forall i j : nat,
        cell (canvas bt') i j =
        if ((i <? width) && (j <? height))%nat
        then Some (if (x =? Z.of_nat i) && (y =? Z.of_nat j) then char else rune_of " ")
        else None) /\
    (forall i j : nat,
        cell (colorCanvas bt') i j =
        if ((i <? width) && (j <? height))%nat
        then Some (if (x =? Z.of_nat i) && (y =? Z.of_nat j) then color else EmptyString)
        else None).
Proof.
  split; [reflexivity|]. split; [reflexivity|].
  set (bt := NewBonsaiTree (R:=R) cfg width height).
  assert (Hwf : shape (canvas bt) = shape (colorCanvas bt)).
  { unfold bt, NewBonsaiTree. cbn [canvas colorCanvas]. now rewrite !shape_replicate. }
  destruct (SetPixel_one bt x y char color Hwf)
    as (bt' & Hrun & _ & _ & _ & _ & Hcv & Hcc).
  exists bt'. split; [exact Hrun|].
  split; intros i j.
  - rewrite Hcv. unfold bt, NewBonsaiTree. cbn [canvas].
    rewrite cell_replicate. now destruct ((i <? width) && (j <? height))%nat.
  - rewrite Hcc. unfold bt, NewBonsaiTree. cbn [colorCanvas].
    rewrite cell_replicate. now destruct ((i <? width) && (j <? height))%nat.
Qed.

End PixelFacts.

(** ** The leaf flag *)

Lemma splitComma_nonempty (s : string) : splitComma s <> [].
Proof.
  destruct s as [|c s]; simpl; [discriminate|].
  destruct (Ascii.eqb c ","%char); [discriminate|].
  destruct (splitComma s); discriminate.
Qed.

Lemma joinComma_cons (piece : string) (rest : list string) :
  rest <> [] -> joinComma (piece :: rest) = piece ++ "," ++ joinComma rest.
Proof. destruct rest; [congruence | reflexivity]. Qed.

Lemma joinComma_splitComma (s : string) : joinComma (splitComma s) = s.
Proof.
  induction s as [|c s IH]; [reflexivity|]. simpl.
  destruct (Ascii.eqb_spec c ","%char) as [->|Hc].
  - rewrite joinComma_cons by apply splitComma_nonempty. simpl. now rewrite IH.
  - pose proof (splitComma_nonempty s) as Hne.
    destruct (splitComma s) as [|piece pieces]; [congruence|].
    destruct pieces as [|q qs]; simpl in *; now rewrite <- IH.
Qed.

Lemma length_splitComma (s : string) : length (splitComma s) = S (commas s).
Proof.
  induction s as [|c s IH]; [reflexivity|]. simpl.
  destruct (Ascii.eqb c ","%char); simpl; [now rewrite IH|].
  pose proof (splitComma_nonempty s) as Hne.
  destruct (splitComma s); [congruence | exact IH].
Qed.

Lemma splitComma_pieces (s : string) : Forall (fun p => commas p = O) (splitComma s).
Proof.
  induction s as [|c s IH]; simpl; [repeat constructor|].
  destruct (Ascii.eqb c ","%char) eqn:Ec; [constructor; [reflexivity | exact IH]|].
  destruct (splitComma s) as [|piece pieces]; [repeat constructor; simpl; now rewrite Ec|].
  inversion IH as [|? ? Hp Hps]; subst. constructor; [|exact Hps].
  simpl. now rewrite Ec.
Qed.

(** X8. The leaf list that [main] builds from the [--leaf] flag is never
    empty, so the ampersand that [ChooseChar] keeps for an empty list is
    not drawn for a configuration of [main]: an empty flag keeps the
    default list, and any other flag is cut at its commas into one piece
    more than it has commas, none of which holds a comma, and which joined
    by commas give the flag back. *)
Theorem parseLeaves_cuts_at_commas (leavesStr : string) (default : list string) :
  default <> [] ->
  parseLeaves leavesStr default <> [] /\
  (leavesStr = EmptyString -> parseLeaves leavesStr default = default) /\
  (leavesStr <> EmptyString ->
   joinComma (parseLeaves leavesStr default) = leavesStr /\
   length (parseLeaves leavesStr default) = S (commas leavesStr) /\
   Forall (fun p => commas p = O) (parseLeaves leavesStr default)).
Proof.
  intros Hd. unfold parseLeaves.
  destruct (String.eqb_spec leavesStr "") as [->|Hne].
  - split; [exact Hd|]. split; [reflexivity | congruence].
  - split; [apply splitComma_nonempty|]. split; [congruence|]. intros _.
    split; [apply joinComma_splitComma|].
    split; [apply length_splitComma | apply splitComma_pieces].
Qed.

Lemma parseLeaves_cuts_at_commas_witness :
  defaultLeaves <> [] /\ parseLeaves "&,*,o" defaultLeaves <> [].
Proof.
  assert (Hd : defaultLeaves <> []) by discriminate.
  split; [exact Hd|].
  exact (proj1 (parseLeaves_cuts_at_commas "&,*,o" defaultLeaves Hd)).
Defined.

(** ** What an operation keeps *)

Section Keeping.

Context {R : Type} {RS : RandSource R}.

Lemma bind_Done {A B} (m : M R A) (k : A -> M R B) (bt bt' : BonsaiTree R) (b : B) :
  bind m k bt = Done (b, bt') ->
  exists a bt1, m bt = Done (a, bt1) /\ k a bt1 = Done (b, bt').
Proof.
  unfold bind. destruct (m bt) as [[a bt1]| |]; simpl; try discriminate.
  intros H. now exists a, bt1.
Qed.

Lemma keeps_ret {A} (I : BonsaiTree R -> Prop) (a : A) (Q : A -> Prop) :
  Q a -> keeps I (ret a) Q.
Proof. intros Ha bt HI a' bt' [= <- <-]. now split. Qed.

Lemma keeps_bind {A B} (I : BonsaiTree R -> Prop) (m : M R A) (k : A -> M R B)
    (Q : A -> Prop) (Q' : B -> Prop) :
  keeps I m Q -> (forall a, Q a -> keeps I (k a) Q') -> keeps I (bind m k) Q'.
Proof.
  intros Hm Hk bt HI b bt' Hrun.
  destruct (bind_Done m k bt bt' b Hrun) as (a & bt1 & H1 & H2).
  destruct (Hm bt HI a bt1 H1) as [HI1 Ha]. exact (Hk a Ha bt1 HI1 b bt' H2).
Qed.

Lemma keeps_get (I : BonsaiTree R -> Prop) : keeps I get I.
Proof. intros bt HI a bt' [= <- <-]. now split. Qed.

Lemma keeps_liftR {A} (I : BonsaiTree R -> Prop) (r : Result A) :
  keeps I (liftR r) (fun a => r = Done a).
Proof.
  intros bt HI a bt'. unfold liftR. destruct r; simpl; try discriminate.
  intros [= <- <-]. now split.
Qed.

Lemma keeps_weaken {A} (I : BonsaiTree R -> Prop) (m : M R A) (Q Q' : A -> Prop) :
  keeps I m Q -> (forall a, Q a -> Q' a) -> keeps I m Q'.
Proof.
  intros Hm HQ bt HI a bt' Hrun. destruct (Hm bt HI a bt' Hrun). split; auto.
Qed.

(** One [drawPixel]: whenever it returns, the tree differs at most in the
    cell named, and in live mode the colour canvas is left alone. *)
Lemma drawPixel_frame (bt bt' : BonsaiTree R) (x y : Z) (char : rune) (color : string) :
  drawPixel x y char color bt = Done (tt, bt') ->
  sameControl bt' bt /\
  shape (canvas bt') = shape (canvas bt) /\
  shape (colorCanvas bt') = shape (colorCanvas bt) /\
  (forall i j, (x <> Z.of_nat i \/ y <> Z.of_nat j) ->
     cell (canvas bt') i j = cell (canvas bt) i j /\
     cell (colorCanvas bt') i j = cell (colorCanvas bt) i j) /\
  (Live (config bt) = true -> colorCanvas bt' = colorCanvas bt).
Proof.
  assert (Hov : forall A (v : A) i j (old : option A),
             (x <> Z.of_nat i \/ y <> Z.of_nat j) -> overwrite x y v i j old = old).
  { intros A v i j old Hne. unfold overwrite. destruct old; [|reflexivity].
    destruct (Z.eqb_spec x (Z.of_nat i)), (Z.eqb_spec y (Z.of_nat j)); simpl;
      try reflexivity. lia. }
  unfold drawPixel, bind, get. cbn [bindR fst snd].
  destruct (Live (config bt)) eqn:HL.
  - rewrite SetPixelLive_paints. intros [= <-].
    unfold setCanvas. cbn [canvas colorCanvas config].
    split; [now repeat split|]. split; [apply shape_paint|]. split; [reflexivity|].
    split; [|reflexivity].
    intros i j Hne. split; [|reflexivity]. rewrite cell_paint. now apply Hov.
  - unfold SetPixel, bind, get. cbn [bindR fst snd].
    destruct (inBounds (canvas bt) x y) eqn:Hin.
    + unfold liftR. rewrite !store_outcome, Hin. cbn [bindR fst snd].
      destruct (inBounds (colorCanvas bt) x y); cbn [bindR fst snd]; [|discriminate].
      unfold put. intros [= <-].
      unfold setColorCanvas, setCanvas. cbn [canvas colorCanvas config].
      split; [now repeat split|]. split; [apply shape_paint|].
      split; [apply shape_paint|]. split; [|discriminate].
      intros i j Hne. rewrite !cell_paint. split; now apply Hov.
    + unfold ret. intros [= <-].
      split; [now repeat split|]. repeat split; reflexivity.
Qed.

End Keeping.

Section Frames.

Context {R : Type} {RS : RandSource R}.
Variables (cfg : Config) (I : BonsaiTree R -> Prop) (P : Z -> Z -> Prop).

Hypothesis I_cfg : forall bt, I bt -> config bt = cfg.
Hypothesis H_draw :
  forall x y char color, P x y -> keeps I (drawPixel x y char color) (fun _ => True).

Local Abbreviation kept := (keeps (R:=R) I).
Local Abbreviation any := (fun _ => True).

Lemma keeps_GetBaseColor : kept GetBaseColor any.
Proof.
  unfold GetBaseColor. eapply keeps_bind; [apply keeps_get|]. intros bt _.
  destruct (negb (UseColors (config bt))); now apply keeps_ret.
Qed.

Lemma length_runes (s : string) : length (runes s) = String.length s.
Proof.
  unfold runes. rewrite length_map. induction s as [|c s IH]; simpl; congruence.
Qed.

Lemma keeps_rangeString (s : list rune) (body : Z -> rune -> M R unit) :
  forall i,
    (forall k c, i <= k < i + Z.of_nat (length s) -> kept (body k c) any) ->
    kept (rangeString i s body) any.
Proof.
  induction s as [|c s IH]; intros i Hbody; simpl.
  - now apply keeps_ret.
  - eapply keeps_bind; [apply Hbody; simpl length; lia|]. intros _ _.
    apply IH. intros k c' Hk. apply Hbody. simpl length. lia.
Qed.

Lemma keeps_potRimCell baseColor grassColor startX baseY i char :
  P (startX + i) (baseY - 3) ->
  kept (potRimCell baseColor grassColor startX baseY i char) any.
Proof.
  intros HP. unfold potRimCell.
  eapply keeps_bind with (Q := any); [|intros [c col] _; now apply H_draw].
  destruct (_ || _); [now apply keeps_ret|].
  destruct (char =? rune_of "_").
  { eapply keeps_bind; [apply keeps_liftR|]. intros b _. now apply keeps_ret. }
  destruct (_ || _); [now apply keeps_ret|].
  destruct (_ && _); [|now apply keeps_ret].
  eapply keeps_bind with (Q := any); [|intros c _; now apply keeps_ret].
  destruct (char =? rune_of " "); [|now apply keeps_ret].
  eapply keeps_bind; [apply keeps_liftR|]. intros b _. now apply keeps_ret.
Qed.

(** [DrawBase] draws inside the box of the base only. *)
Lemma keeps_DrawBase :
  (forall x y, potBox cfg x y -> P x y) -> kept DrawBase any.
Proof.
  intros Hbox. unfold DrawBase. eapply keeps_bind; [apply keeps_get|].
  intros bt Hbt. rewrite (I_cfg bt Hbt).
  destruct (BaseType cfg =? 0) eqn:E0; [now apply keeps_ret|].
  destruct (BaseType cfg =? 1) eqn:E1.
  { apply Z.eqb_eq in E1.
    assert (HP : forall (n off k row : Z),
               0 <= k < n -> n - off <= 16 -> 14 <= off <= 15 -> 0 <= row <= 3 ->
               P (Z.quot (Width cfg) 2 - off + k) (Height cfg - 1 - row)).
    { intros n off k row Hk Hn Hoff Hrow. apply Hbox. unfold potBox.
      split; [lia|]. left. split; [exact E1 | lia]. }
    eapply keeps_bind; [apply keeps_GetBaseColor|]. intros baseColor _.
    eapply keeps_bind.
    { apply keeps_rangeString. intros k c Hk. rewrite length_runes in Hk.
      apply keeps_potRimCell. apply (HP 31 15 k 3); [exact Hk | lia | lia | lia]. }
    intros _ _. eapply keeps_bind.
    { apply keeps_rangeString. intros k c Hk. rewrite length_runes in Hk.
      apply H_draw. apply (HP 31 15 k 2); [exact Hk | lia | lia | lia]. }
    intros _ _. eapply keeps_bind.
    { apply keeps_rangeString. intros k c Hk. rewrite length_runes in Hk.
      apply H_draw. apply (HP 30 15 k 1); [exact Hk | lia | lia | lia]. }
    intros _ _. apply keeps_rangeString. intros k c Hk. rewrite length_runes in Hk.
    apply H_draw.
    replace (Height cfg - 1) with (Height cfg - 1 - 0) by lia.
    apply (HP 29 14 k 0); [exact Hk | lia | lia | lia]. }
  destruct (BaseType cfg =? 2) eqn:E2; [|now apply keeps_ret].
  apply Z.eqb_eq in E2.
  assert (HP : forall (n off k row : Z),
             0 <= k < n -> n - off <= 11 -> 6 <= off <= 11 -> 0 <= row <= 3 ->
             P (Z.quot (Width cfg) 2 - off + k) (Height cfg - 1 - row)).
  { intros n off k row Hk Hn Hoff Hrow. apply Hbox. unfold potBox.
    split; [lia|]. right. split; [exact E2 | lia]. }
  eapply keeps_bind.
  { apply keeps_rangeString. intros k c Hk. rewrite length_runes in Hk.
    destruct (_ && _); [|now apply keeps_ret].
    apply H_draw. apply (HP 22 11 k 3); [exact Hk | lia | lia | lia]. }
  intros _ _. eapply keeps_bind.
  { apply keeps_rangeString. intros k c Hk. rewrite length_runes in Hk.
    apply H_draw. apply (HP 13 6 k 2); [exact Hk | lia | lia | lia]. }
  intros _ _. eapply keeps_bind; [apply keeps_GetBaseColor|]. intros baseColor _.
  eapply keeps_bind.
  { apply keeps_rangeString. intros k c Hk. rewrite length_runes in Hk.
    apply H_draw. apply (HP 15 7 k 1); [exact Hk | lia | lia | lia]. }
  intros _ _. apply keeps_rangeString. intros k c Hk. rewrite length_runes in Hk.
  apply H_draw.
  replace (Height cfg - 1) with (Height cfg - 1 - 0) by lia.
  apply (HP 15 7 k 0); [exact Hk | lia | lia | lia].
Qed.

(** The generator part: what is kept by every draw from the generator and
    by the two counters is kept by a whole branch, provided each step
    leads from an allowed position to an allowed position. *)
Hypothesis I_rng : forall bt r, I bt -> I (setRng r bt).
Hypothesis I_branches : forall bt a bt', I bt -> incrBranches bt = Done (a, bt') -> I bt'.
Hypothesis I_shoots : forall bt a bt', I bt -> incrShoots bt = Done (a, bt') -> I bt'.
Hypothesis H_step :
  forall x y ty life,
    P x y -> kept (stepDeltas y ty life) (fun d => P (x + fst d) (y + snd d)).

Lemma keeps_intn (n : Z) : kept (intn n) any.
Proof.
  intros bt HI a bt'. unfold intn. destruct (n <=? 0); [discriminate|].
  intros [= <- <-]. split; [now apply I_rng | exact Logic.I].
Qed.

Lemma keeps_GetBranchColor ty : kept (GetBranchColor ty) any.
Proof.
  unfold GetBranchColor. eapply keeps_bind; [apply keeps_get|]. intros bt _.
  destruct (negb (UseColors (config bt))); [now apply keeps_ret|].
  destruct ty; try (now apply keeps_ret);
    (eapply keeps_bind; [apply keeps_intn|]); intros d _;
    repeat match goal with |- context [if ?c then _ else _] => destruct c end;
    now apply keeps_ret.
Qed.

Lemma keeps_ChooseChar ty life dx dy : kept (ChooseChar ty life dx dy) any.
Proof.
  unfold ChooseChar. destruct (glyphKind ty life); try (now apply keeps_ret).
  all: eapply keeps_bind; [apply keeps_get|]; intros bt _.
  all: destruct (_ >? 0); [|now apply keeps_ret].
  all: eapply keeps_bind; [apply keeps_intn|]; intros i _.
  all: eapply keeps_bind; [apply keeps_liftR|]; intros leaf _.
  all: eapply keeps_bind; [apply keeps_liftR|]; intros b _.
  all: now apply keeps_ret.
Qed.

Lemma keeps_branching (B : Z -> Z -> BranchType -> Z -> M R unit) x y ty life cd :
  (forall cty cl, kept (B x y cty cl) any) ->
  kept (branching B x y ty life cd) any.
Proof.
  intros HB. unfold branching.
  eapply keeps_bind; [apply keeps_get|]. intros bt _.
  destruct (life <? 3).
  { eapply keeps_bind; [apply HB|]. intros; now apply keeps_ret. }
  destruct (BranchType_eqb ty Trunk && _).
  { eapply keeps_bind; [apply HB|]. intros; now apply keeps_ret. }
  destruct ((BranchType_eqb ty ShootLeft || _) && _).
  { eapply keeps_bind; [apply HB|]. intros; now apply keeps_ret. }
  destruct (BranchType_eqb ty Trunk); [|now apply keeps_ret].
  eapply keeps_bind; [apply keeps_intn|]. intros d _.
  eapply keeps_bind with (Q := any).
  { destruct (d =? 0); [now apply keeps_ret|].
    eapply keeps_bind; [apply keeps_liftR|]. intros; now apply keeps_ret. }
  intros fires _. destruct fires; [|now apply keeps_ret].
  eapply keeps_bind; [apply keeps_intn|]. intros d8 _.
  destruct ((d8 =? 0) && _).
  { eapply keeps_bind; [apply keeps_intn|]. intros j _.
    eapply keeps_bind; [apply HB|]. intros; now apply keeps_ret. }
  destruct (cd <=? 0); [|now apply keeps_ret].
  eapply keeps_bind with (Q := any).
  { intros bt0 HI0 a bt' Hrun. split; [eapply I_shoots; eauto | exact Logic.I]. }
  intros _ _. eapply keeps_bind; [apply keeps_get|]. intros bt' _.
  eapply keeps_bind with (Q := any); [|intros; now apply keeps_ret].
  destruct (_ =? 0); apply HB.
Qed.

Lemma keeps_BranchLoop (fuel : nat) :
  forall x y ty life cd, P x y -> kept (BranchLoop fuel x y ty life cd) any.
Proof.
  induction fuel as [|fuel IH]; intros x y ty life cd HP.
  - intros bt HI a bt'. discriminate.
  - cbn [BranchLoop]. destruct (life >? 0); [|now apply keeps_ret]. cbv zeta.
    eapply keeps_bind; [apply H_step; exact HP|]. intros [dx dy] HP'.
    cbn [fst snd] in HP'.
    eapply keeps_bind with (Q := any).
    { apply keeps_branching. intros cty cl.
      eapply keeps_bind with (Q := any).
      { intros bt0 HI0 a bt' Hrun. split; [eapply I_branches; eauto | exact Logic.I]. }
      intros _ _. eapply keeps_bind; [apply keeps_get|]. intros bt' _.
      now apply IH. }
    intros cd' _.
    eapply keeps_bind; [apply keeps_ChooseChar|]. intros char _.
    eapply keeps_bind; [apply keeps_GetBranchColor|]. intros color _.
    eapply keeps_bind; [now apply H_draw|]. intros _ _.
    now apply IH.
Qed.

Lemma keeps_Branch (fuel : nat) x y ty life :
  P x y -> kept (Branch fuel x y ty life) any.
Proof.
  intros HP. unfold Branch.
  eapply keeps_bind with (Q := any).
  { intros bt0 HI0 a bt' Hrun. split; [eapply I_branches; eauto | exact Logic.I]. }
  intros _ _. eapply keeps_bind; [apply keeps_get|]. intros bt' _.
  now apply keeps_BranchLoop.
Qed.

End Frames.

(** ** Blanking the canvases *)

Lemma length_fillCells {A} (n x : nat) (a : A) (row : list A) :
  length (fillCells x n a row) = length row.
Proof.
  revert x row. induction n as [|n IH]; intros x row; simpl; [reflexivity|].
  now rewrite IH, length_insert.
Qed.

Lemma fillCells_take_drop {A} (n : nat) (a : A) :
  forall (x : nat) (row : list A),
    (x + n <= length row)%nat ->
    fillCells x n a row = (take x row ++ replicate n a ++ drop (x + n) row)%list.
Proof.
  induction n as [|n IH]; intros x row Hlen; simpl.
  - rewrite Nat.add_0_r. now rewrite take_drop.
  - rewrite IH by (rewrite length_insert; lia).
    rewrite (take_S_r _ _ a) by (apply list_lookup_insert_eq; lia).
    rewrite take_insert_ge by lia.
    rewrite drop_insert_lt by lia.
    rewrite <- app_assoc. simpl. repeat f_equal. lia.
Qed.

Lemma map_const_replicate {A B} (a : A) (l : list B) :
  map (fun _ => a) l = replicate (length l) a.
Proof. induction l; simpl; congruence. Qed.

Lemma fillCells_whole {A} (a : A) (row : list A) :
  fillCells 0 (length row) a row = map (fun _ => a) row.
Proof.
  rewrite fillCells_take_drop by lia. simpl.
  rewrite drop_all, app_nil_r. symmetry. apply map_const_replicate.
Qed.

Lemma fillRows_take_drop {A} (n : nat) (a : A) :
  forall (y : nat) (g : list (list A)),
    (y + n <= length g)%nat ->
    fillRows y n a g = (take y g ++ fill a (take n (drop y g)) ++ drop (y + n) g)%list.
Proof.
  induction n as [|n IH]; intros y g Hlen; simpl.
  - rewrite Nat.add_0_r. now rewrite take_drop.
  - destruct (g !! y) as [row|] eqn:Hrow;
      [|apply lookup_ge_None in Hrow; lia].
    rewrite IH by (rewrite length_insert; lia).
    rewrite (take_S_r _ _ (fillCells 0 (length row) a row))
      by (apply list_lookup_insert_eq; lia).
    rewrite take_insert_ge by lia.
    rewrite !drop_insert_lt by lia.
    rewrite (drop_S g row y Hrow). simpl.
    rewrite fillCells_whole, <- app_assoc. simpl. repeat f_equal. lia.
Qed.

Lemma fillRows_whole {A} (a : A) (g : list (list A)) :
  fillRows 0 (length g) a g = fill a g.
Proof.
  rewrite fillRows_take_drop by lia. simpl.
  now rewrite drop_0, firstn_all, drop_all, app_nil_r.
Qed.

Lemma shape_fill {A} (a : A) (g : list (list A)) : shape (fill a g) = shape g.
Proof.
  unfold shape, fill. rewrite map_map. apply map_ext. intros row. apply length_map.
Qed.

Lemma fill_by_shape {A} (a : A) (g : list (list A)) :
  fill a g = map (fun n => replicate n a) (shape g).
Proof.
  unfold shape, fill. rewrite map_map. apply map_ext. intros row.
  apply map_const_replicate.
Qed.

Section Blanking.

Context {R : Type} {RS : RandSource R}.

Lemma setCanvases_id (bt : BonsaiTree R) :
  setColorCanvas (colorCanvas bt) (setCanvas (canvas bt) bt) = bt.
Proof. now destruct bt. Qed.

Lemma clearCells_exact (n : nat) :
  forall (y x : Z) (bt : BonsaiTree R) (row : list rune) (crow : list string),
    0 <= y -> 0 <= x ->
    canvas bt !! Z.to_nat y = Some row ->
    colorCanvas bt !! Z.to_nat y = Some crow ->
    length crow = length row ->
    (Z.to_nat x + n <= length row)%nat ->
    clearCells y x n bt =
    Done (tt, setColorCanvas
                (<[Z.to_nat y := fillCells (Z.to_nat x) n EmptyString crow]> (colorCanvas bt))
                (setCanvas
                   (<[Z.to_nat y := fillCells (Z.to_nat x) n (rune_of " ") row]> (canvas bt))
                   bt)).
Proof.
  induction n as [|n IH]; intros y x bt row crow Hy Hx Hrow Hcrow Hlen Hn; simpl.
  - rewrite !list_insert_id by assumption. now rewrite setCanvases_id.
  - assert (Hylt : (Z.to_nat y < length (canvas bt))%nat)
      by (eapply lookup_lt_Some; eauto).
    assert (Hyclt : (Z.to_nat y < length (colorCanvas bt))%nat)
      by (eapply lookup_lt_Some; eauto).
    assert (Hin : inBounds (canvas bt) x y = true).
    { unfold inBounds. rewrite Hrow.
      apply andb_true_intro; split; [|apply Z.ltb_lt; lia].
      apply andb_true_intro; split; [|apply Z.leb_le; lia].
      apply andb_true_intro; split; [apply Z.leb_le | apply Z.ltb_lt]; lia. }
    assert (Hin' : inBounds (colorCanvas bt) x y = true).
    { unfold inBounds. rewrite Hcrow.
      apply andb_true_intro; split; [|apply Z.ltb_lt; lia].
      apply andb_true_intro; split; [|apply Z.leb_le; lia].
      apply andb_true_intro; split; [apply Z.leb_le | apply Z.ltb_lt]; lia. }
    unfold bind, get, put, liftR. cbn [bindR fst snd].
    rewrite !store_outcome, Hin. cbn [bindR fst snd].
    rewrite Hin'. cbn [bindR fst snd].
    unfold paint. rewrite Hin, Hin', Hrow, Hcrow.
    erewrite IH.
    + unfold setColorCanvas, setCanvas. cbn [canvas colorCanvas config branches shoots
                                              rng initialized messageOffset].
      rewrite !list_insert_insert_eq.
      replace (Z.to_nat (x + 1)) with (S (Z.to_nat x)) by lia. reflexivity.
    + exact Hy.
    + lia.
    + unfold setColorCanvas, setCanvas. cbn [canvas].
      now apply list_lookup_insert_eq.
    + unfold setColorCanvas, setCanvas. cbn [colorCanvas].
      now apply list_lookup_insert_eq.
    + rewrite !length_insert. exact Hlen.
    + rewrite length_insert. lia.
Qed.

Lemma clearRows_exact (n : nat) :
  forall (y : Z) (bt : BonsaiTree R),
    0 <= y -> shape (canvas bt) = shape (colorCanvas bt) ->
    (Z.to_nat y + n <= length (canvas bt))%nat ->
    clearRows y n bt =
    Done (tt, setColorCanvas (fillRows (Z.to_nat y) n EmptyString (colorCanvas bt))
                             (setCanvas (fillRows (Z.to_nat y) n (rune_of " ") (canvas bt))
                                        bt)).
Proof.
  induction n as [|n IH]; intros y bt Hy Hwf Hn; simpl.
  - now rewrite setCanvases_id.
  - destruct (sliceIndex_in_range (canvas bt) y) as (row & Hrow & Hsl); [lia|].
    assert (Hcrow : exists crow, colorCanvas bt !! Z.to_nat y = Some crow
                                 /\ length crow = length row).
    { pose proof (shape_lookup (canvas bt) (Z.to_nat y)) as H1.
      pose proof (shape_lookup (colorCanvas bt) (Z.to_nat y)) as H2.
      rewrite Hwf, H2, Hrow in H1.
      destruct (colorCanvas bt !! Z.to_nat y) as [crow|]; simpl in H1; [|discriminate].
      exists crow. split; [reflexivity|]. now inversion H1. }
    destruct Hcrow as (crow & Hcrow & Hlen).
    unfold bind, get, liftR. cbn [bindR fst snd]. rewrite Hsl. cbn [bindR fst snd].
    rewrite (clearCells_exact (length row) y 0 bt row crow) by (try assumption; simpl; lia).
    cbn [bindR fst snd].
    rewrite IH.
    + unfold setColorCanvas, setCanvas.
      cbn [canvas colorCanvas config branches shoots rng initialized messageOffset].
      rewrite Hrow, Hcrow, Hlen.
      replace (Z.to_nat (y + 1)) with (S (Z.to_nat y)) by lia. reflexivity.
    + lia.
    + unfold setColorCanvas, setCanvas. cbn [canvas colorCanvas].
      unfold shape in *. rewrite !list_fmap_insert, !length_fillCells, Hlen.
      f_equal. exact Hwf.
    + unfold setColorCanvas, setCanvas. cbn [canvas]. rewrite length_insert. lia.
Qed.

(** The first half of [GrowTree] on a tree whose canvases have one shape:
    [DrawBase] on the blanked tree. *)
Lemma resetTree_blanks (bt : BonsaiTree R) :
  shape (canvas bt) = shape (colorCanvas bt) ->
  resetTree bt = DrawBase (blanked bt).
Proof.
  intros Hwf. unfold resetTree.
  unfold bind at 1. unfold get at 1. cbn [bindR fst snd].
  unfold bind at 1. unfold put at 1. cbn [bindR fst snd].
  unfold bind at 1.
  rewrite clearRows_exact; [|lia|exact Hwf|simpl; lia].
  cbn [bindR fst snd]. unfold setColorCanvas, setCanvas.
  cbn [canvas colorCanvas config branches shoots rng initialized messageOffset].
  rewrite fillRows_whole.
  assert (Hl : length (canvas bt) = length (colorCanvas bt)).
  { pose proof (f_equal (@length nat) Hwf) as Hl. unfold shape in Hl.
    now rewrite !length_map in Hl. }
  rewrite Hl, fillRows_whole.
  unfold bind at 1. unfold get at 1. cbn [bindR fst snd config].
  unfold bind at 1. unfold blanked.
  destruct (Live (config bt)); reflexivity.
Qed.

End Blanking.

(** ** What growing a tree leaves alone *)

Section Walks.

Context {R : Type} {RS : RandSource R}.
Variable I : BonsaiTree R -> Prop.
Hypothesis I_rng : forall bt r, I bt -> I (setRng r bt).

Lemma keeps_GetDeltas ty life age : keeps I (GetDeltas ty life age) (fun _ => True).
Proof.
  unfold GetDeltas. eapply keeps_bind; [apply keeps_get|]. intros bt _. cbv zeta.
  destruct ty;
    repeat match goal with
           | |- keeps _ (if ?c then _ else _) _ => destruct c
           end;
    repeat first
      [ now apply keeps_ret
      | eapply keeps_bind;
        [first [apply keeps_intn; exact I_rng | apply keeps_liftR]|]; intros ? _ ].
Qed.

Lemma keeps_stepDeltas y ty life : keeps I (stepDeltas y ty life) (fun _ => True).
Proof.
  unfold stepDeltas. eapply keeps_bind; [apply keeps_get|]. intros bt _. cbv zeta.
  eapply keeps_bind; [apply keeps_GetDeltas|]. intros [dx dy] _. now apply keeps_ret.
Qed.

End Walks.

Section Footprints.

Context {R : Type} {RS : RandSource R}.

Lemma sameSize_refl (bt : BonsaiTree R) : sameSize bt bt.
Proof. repeat split. Qed.

Lemma sameSize_trans (a b c : BonsaiTree R) : sameSize a b -> sameSize b c -> sameSize a c.
Proof. intros (?&?&?) (?&?&?). repeat split; congruence. Qed.

Lemma sameSize_blanked (bt : BonsaiTree R) : sameSize (blanked bt) bt.
Proof. unfold sameSize, blanked. cbn [canvas colorCanvas config]. now rewrite !shape_fill. Qed.

Lemma sized_drawPixel (bt0 : BonsaiTree R) x y char color :
  keeps (sized bt0) (drawPixel x y char color) (fun _ => True).
Proof.
  intros bt [Hs Hl] [] bt' Hrun.
  destruct (drawPixel_frame bt bt' x y char color Hrun)
    as ((Hc & _) & Hcv & Hcc & _ & Hlive).
  split; [|exact Logic.I]. split.
  - eapply sameSize_trans; [|exact Hs]. repeat split; assumption.
  - intros Hl0. rewrite Hlive; [now apply Hl|].
    destruct Hs as (Hcfg & _). now rewrite Hcfg.
Qed.

Lemma sized_Branch (bt0 : BonsaiTree R) fuel x y ty life :
  keeps (sized bt0) (Branch fuel x y ty life) (fun _ => True).
Proof.
  apply (keeps_Branch (sized bt0) (fun _ _ => True)).
  - intros. apply sized_drawPixel.
  - intros bt r H. exact H.
  - intros bt a bt' H [= <- <-]. exact H.
  - intros bt a bt' H [= <- <-]. exact H.
  - intros x0 y0 ty0 life0 _. eapply keeps_weaken.
    + apply keeps_stepDeltas. intros bt r H. exact H.
    + intros; exact Logic.I.
  - exact Logic.I.
Qed.

Lemma sized_DrawBase (bt0 : BonsaiTree R) :
  keeps (sized bt0) DrawBase (fun _ => True).
Proof.
  apply (keeps_DrawBase (config bt0) (sized bt0) (fun _ _ => True)).
  - intros bt [(Hc & _) _]. exact Hc.
  - intros. apply sized_drawPixel.
  - intros; exact Logic.I.
Qed.

(** The three stages of a run of [GrowTree] that returns: the base on the
    blanked canvases, the trunk from [trunkRow], and [Render], which
    changes neither canvas. *)
Lemma GrowTree_stages (fuel : nat) (bt bt' : BonsaiTree R) :
  shape (canvas bt) = shape (colorCanvas bt) ->
  GrowTree fuel bt = Done (tt, bt') ->
  exists base tree,
    DrawBase (blanked bt) = Done (tt, base) /\
    Branch fuel (Z.quot (Width (config base)) 2) (trunkRow (config base)) Trunk
           (LifeStart (config base)) base = Done (tt, tree) /\
    canvas bt' = canvas tree /\ colorCanvas bt' = colorCanvas tree /\
    config bt' = config tree.
Proof.
  intros Hwf Hrun. unfold GrowTree in Hrun.
  apply bind_Done in Hrun as ([] & base & Hreset & Hrest).
  rewrite resetTree_blanks in Hreset by exact Hwf.
  apply bind_Done in Hrest as (bt0 & st & Hget & Hrest).
  unfold get in Hget. injection Hget as <- <-. cbv zeta in Hrest.
  apply bind_Done in Hrest as ([] & tree & Hbranch & Hfin).
  exists base, tree. split; [exact Hreset|]. split; [exact Hbranch|].
  destruct (negb (Live (config base))).
  - unfold Render in Hfin. injection Hfin as <-. repeat split.
  - unfold ret in Hfin. injection Hfin as <-. repeat split.
Qed.

(** X9. A run of [GrowTree] that returns leaves the configuration and the
    dimensions of both canvases as they were: the picture is redrawn in
    place, whatever the generator answers. *)
Theorem GrowTree_keeps_canvas_size (fuel : nat) (bt bt' : BonsaiTree R) :
  shape (canvas bt) = shape (colorCanvas bt) ->
  GrowTree fuel bt = Done (tt, bt') ->
  sameSize bt' bt /\ shape (canvas bt') = shape (colorCanvas bt').
Proof.
  intros Hwf Hrun.
  destruct (GrowTree_stages fuel bt bt' Hwf Hrun)
    as (base & tree & Hbase & Htree & Hcv & Hcc & Hcfg).
  assert (H0 : sized (blanked bt) (blanked bt)) by (split; [apply sameSize_refl | auto]).
  destruct (sized_DrawBase (blanked bt) (blanked bt) H0 tt base Hbase) as [H1 _].
  destruct (sized_Branch (blanked bt) fuel _ _ _ _ base H1 tt tree Htree) as [[H2 _] _].
  assert (Hs : sameSize bt' bt).
  { eapply sameSize_trans; [|apply sameSize_blanked].
    eapply sameSize_trans; [|exact H2].
    unfold sameSize. now rewrite Hcv, Hcc, Hcfg. }
  split; [exact Hs|].
  destruct Hs as (_ & Hs1 & Hs2). now rewrite Hs1, Hs2.
Qed.

(** X10. In live mode no colour is recorded: a run of [GrowTree] that
    returns leaves every cell of the colour canvas empty, the base and the
    tree being drawn on the character canvas only. *)
Theorem GrowTree_live_records_no_colour (fuel : nat) (bt bt' : BonsaiTree R) :
  shape (canvas bt) = shape (colorCanvas bt) ->
  Live (config bt) = true ->
  GrowTree fuel bt = Done (tt, bt') ->
  colorCanvas bt' = fill EmptyString (colorCanvas bt).
Proof.
  intros Hwf Hlive Hrun.
  destruct (GrowTree_stages fuel bt bt' Hwf Hrun)
    as (base & tree & Hbase & Htree & Hcv & Hcc & Hcfg).
  assert (H0 : sized (blanked bt) (blanked bt)) by (split; [apply sameSize_refl | auto]).
  destruct (sized_DrawBase (blanked bt) (blanked bt) H0 tt base Hbase) as [H1 _].
  destruct (sized_Branch (blanked bt) fuel _ _ _ _ base H1 tt tree Htree) as [[_ H2] _].
  rewrite Hcc. now rewrite (H2 Hlive).
Qed.

Lemma grounded_drawPixel (bound : Z) (bt0 : BonsaiTree R) x y char color :
  y <= bound ->
  keeps (grounded bound bt0) (drawPixel x y char color) (fun _ => True).
Proof.
  intros Hy bt [Hc Hcells] [] bt' Hrun.
  destruct (drawPixel_frame bt bt' x y char color Hrun)
    as ((Hc' & _) & _ & _ & Hsame & _).
  split; [|exact Logic.I]. split; [congruence|].
  intros i j Hj. destruct (Hsame i j) as [E1 E2]; [right; lia|].
  destruct (Hcells i j Hj) as [E3 E4]. split; congruence.
Qed.

Lemma grounded_Branch (bound : Z) (bt0 : BonsaiTree R) fuel x y ty life :
  RandLawful R -> Height (config bt0) - 6 <= bound -> y <= bound ->
  keeps (grounded bound bt0) (Branch fuel x y ty life) (fun _ => True).
Proof.
  intros Hlaw Hb Hy.
  apply (keeps_Branch (grounded bound bt0) (fun _ y => y <= bound)).
  - intros. now apply grounded_drawPixel.
  - intros bt r H. exact H.
  - intros bt a bt' H [= <- <-]. exact H.
  - intros bt a bt' H [= <- <-]. exact H.
  - intros x0 y0 ty0 life0 Hy0 bt HI [dx dy] bt' Hrun.
    destruct (stepDeltas_range bt y0 ty0 life0 Hlaw)
      as (dx' & dy' & r & Hstep & _ & Hdy & Hclamp).
    rewrite Hstep in Hrun. injection Hrun as <- <- <-.
    split; [exact HI|]. cbn [fst snd].
    destruct HI as [Hc _]. rewrite Hc in Hclamp.
    destruct (Z_lt_le_dec (Height (config bt0) - 7) y0) as [Hlow|Hhigh].
    + specialize (Hclamp Hlow). lia.
    + lia.
  - exact Hy.
Qed.

(** X11. With a generator that answers in range, a branch never draws
    below the row it starts from, nor below row [Height - 6] if it starts
    above it: every cell of both canvases in a lower row is as it was. *)
Theorem Branch_draws_no_lower (fuel : nat) (x y : Z) (ty : BranchType) (life : Z)
    (bt bt' : BonsaiTree R) :
  RandLawful R ->
  Branch fuel x y ty life bt = Done (tt, bt') ->
  forall i j, Z.max y (Height (config bt) - 6) < Z.of_nat j -> sameCell bt' bt i j.
Proof.
  intros Hlaw Hrun i j Hj.
  assert (H0 : grounded (Z.max y (Height (config bt) - 6)) bt bt)
    by (split; [reflexivity | intros; split; reflexivity]).
  destruct (grounded_Branch (Z.max y (Height (config bt) - 6)) bt fuel x y ty life Hlaw
              ltac:(lia) ltac:(lia) bt H0 tt bt' Hrun) as [[_ H] _].
  now apply H.
Qed.

(** X12. With a base and a generator that answers in range, the tree
    never overwrites the two bottom rows of the picture: in rows
    [Height - 2] and below, a finished run of [GrowTree] shows what
    [DrawBase] drew on the blanked canvases. *)
Theorem GrowTree_leaves_pot_bottom (fuel : nat) (bt bt' : BonsaiTree R) :
  RandLawful R ->
  shape (canvas bt) = shape (colorCanvas bt) ->
  0 < BaseType (config bt) ->
  GrowTree fuel bt = Done (tt, bt') ->
  exists base,
    DrawBase (blanked bt) = Done (tt, base) /\
    forall i j, Height (config bt) - 3 < Z.of_nat j -> sameCell bt' base i j.
Proof.
  intros Hlaw Hwf Hbase Hrun.
  destruct (GrowTree_stages fuel bt bt' Hwf Hrun)
    as (base & tree & Hdraw & Htree & Hcv & Hcc & Hcfg).
  exists base. split; [exact Hdraw|]. intros i j Hj.
  assert (H0 : sized (blanked bt) (blanked bt)) by (split; [apply sameSize_refl | auto]).
  destruct (sized_DrawBase (blanked bt) (blanked bt) H0 tt base Hdraw) as [[(Hc & _) _] _].
  cbn [blanked config] in Hc.
  assert (Hrow : trunkRow (config base) = Height (config bt) - 3).
  { unfold trunkRow. rewrite Hc.
    destruct (BaseType (config bt) >? 0) eqn:E; lia. }
  rewrite Hrow in Htree.
  assert (H1 : grounded (Height (config bt) - 3) base base)
    by (split; [reflexivity | intros; split; reflexivity]).
  assert (Hb6 : Height (config base) - 6 <= Height (config bt) - 3)
    by (rewrite Hc; lia).
  destruct (grounded_Branch (Height (config bt) - 3) base fuel
              (Z.quot (Width (config base)) 2) (Height (config bt) - 3) Trunk
              (LifeStart (config base)) Hlaw Hb6 (Z.le_refl _) base H1 tt tree Htree)
    as [[_ H] _].
  unfold sameCell. rewrite Hcv, Hcc. now apply H.
Qed.

Lemma sameControl_trans (a b c : BonsaiTree R) :
  sameControl a b -> sameControl b c -> sameControl a c.
Proof.
  unfold sameControl. intros (?&?&?&?&?&?) (?&?&?&?&?&?). repeat split; congruence.
Qed.

Lemma outsidePot_drawPixel (bt0 : BonsaiTree R) x y char color :
  potBox (config bt0) x y ->
  keeps (outsidePot bt0) (drawPixel x y char color) (fun _ => True).
Proof.
  intros Hbox bt (Hctl & Hs & Hcells & Hl) [] bt' Hrun.
  destruct (drawPixel_frame bt bt' x y char color Hrun)
    as (Hctl' & Hcv & Hcc & Hsame & Hlive).
  split; [|exact Logic.I]. split; [|split; [|split]].
  - eapply sameControl_trans; eassumption.
  - eapply sameSize_trans; [|exact Hs]. repeat split; try assumption. apply Hctl'.
  - intros i j Hout.
    destruct (Hsame i j) as [E1 E2].
    { destruct (Z.eq_dec x (Z.of_nat i)) as [->|]; [|now left].
      destruct (Z.eq_dec y (Z.of_nat j)) as [->|]; [|now right].
      contradiction. }
    destruct (Hcells i j Hout) as [E3 E4]. split; congruence.
  - intros Hl0. rewrite Hlive; [now apply Hl|].
    destruct Hs as (Hcfg & _). now rewrite Hcfg.
Qed.

(** On a tree whose canvases have one shape [DrawBase] returns and keeps
    all but the cells in the box of the base. *)
Lemma DrawBase_outside (bt : BonsaiTree R) :
  shape (canvas bt) = shape (colorCanvas bt) ->
  exists bt', DrawBase bt = Done (tt, bt') /\ outsidePot bt bt'.
Proof.
  intros Hwf.
  pose proof (steady_DrawBase false false (config bt) bt (conj eq_refl Hwf)) as Hok.
  destruct (DrawBase bt) as [[[] bt']| |] eqn:Hrun; simpl in Hok; try discriminate.
  exists bt'. split; [reflexivity|].
  assert (H0 : outsidePot bt bt).
  { split; [repeat split|]. split; [apply sameSize_refl|].
    split; [intros; split; reflexivity | auto]. }
  pose proof (keeps_DrawBase (config bt) (outsidePot bt) (potBox (config bt))) as K.
  exact (proj1 (K ltac:(intros b (_ & (Hc & _) & _); exact Hc)
                  ltac:(intros; now apply outsidePot_drawPixel)
                  ltac:(auto) bt H0 tt bt' Hrun)).
Qed.

(** X13. On a tree whose canvases have one shape [DrawBase] returns; it
    draws inside the box of the base only (four rows at the bottom, 31
    columns for the large pot and 22 for the small one, about the middle),
    draws nothing without a base, keeps the generator, the counters and
    the dimensions, and in live mode leaves the colour canvas alone. *)
Theorem DrawBase_stays_in_pot_box (bt : BonsaiTree R) :
  shape (canvas bt) = shape (colorCanvas bt) ->
  exists bt',
    DrawBase bt = Done (tt, bt') /\
    sameControl bt' bt /\ sameSize bt' bt /\
    (forall i j, ~ potBox (config bt) (Z.of_nat i) (Z.of_nat j) -> sameCell bt' bt i j) /\
    (Live (config bt) = true -> colorCanvas bt' = colorCanvas bt) /\
    (BaseType (config bt) = 0 -> bt' = bt).
Proof.
  intros Hwf.
  destruct (DrawBase_outside bt Hwf) as (bt' & Hrun & H1 & H2 & H3 & H4).
  exists bt'. repeat (split; [assumption|]).
  intros Hb. unfold DrawBase, bind, get in Hrun. cbn [bindR fst snd] in Hrun.
  rewrite Hb in Hrun. cbn in Hrun. now injection Hrun as <-.
Qed.

(** X14. [GrowTree] forgets the previous picture: on two trees with the
    same configuration, generator state and canvas dimensions it gives
    the same outcome, whatever the canvases held and whatever the
    counters and flags were. *)
Theorem GrowTree_forgets_previous_picture (fuel : nat) (bt1 bt2 : BonsaiTree R) :
  shape (canvas bt1) = shape (colorCanvas bt1) ->
  shape (canvas bt2) = shape (colorCanvas bt2) ->
  config bt1 = config bt2 -> rng bt1 = rng bt2 ->
  shape (canvas bt1) = shape (canvas bt2) ->
  GrowTree fuel bt1 = GrowTree fuel bt2.
Proof.
  intros Hwf1 Hwf2 Hc Hr Hs.
  assert (Hb : blanked bt1 = blanked bt2).
  { unfold blanked. rewrite !fill_by_shape, <- Hwf1, <- Hwf2, Hs, Hc, Hr. reflexivity. }
  unfold GrowTree, bind. now rewrite !resetTree_blanks, Hb by assumption.
Qed.

(** X15. A branch of any kind, started anywhere, also off the canvas, on
    a tree whose canvases have one shape, returns within a nesting of
    [need] calls and iterations when the multiplier is positive, the
    generator lawful, no leaf empty and the branch tame; the tree it
    leaves has the configuration and the dimensions it had. *)
Theorem Branch_returns_from_anywhere (fuel : nat) (x y : Z) (ty : BranchType) (life : Z)
    (bt : BonsaiTree R) :
  shape (canvas bt) = shape (colorCanvas bt) ->
  0 <= Multiplier (config bt) -> panicFree R (config bt) ->
  (need (config bt) ty life <= fuel)%nat -> tame R ty life ->
  exists bt',
    Branch fuel x y ty life bt = Done (tt, bt') /\ sameSize bt' bt /\
    shape (canvas bt') = shape (colorCanvas bt').
Proof.
  intros Hwf Hm Hpf Hfuel Htame.
  pose proof (steady_Branch false false (config bt) fuel x y ty life Hm
                (or_intror Hpf) (or_intror (conj Hfuel Htame)) bt (conj eq_refl Hwf)) as Hok.
  destruct (Branch fuel x y ty life bt) as [[[] bt']| |] eqn:Hrun; simpl in Hok;
    try discriminate.
  exists bt'. split; [reflexivity|].
  assert (H0 : sized bt bt) by (split; [apply sameSize_refl | auto]).
  destruct (sized_Branch bt fuel x y ty life bt H0 tt bt' Hrun) as [[Hs _] _].
  split; [exact Hs | apply Hok].
Qed.

End Footprints.

Lemma GrowTree_keeps_canvas_size_witness :
  let bt := sampleTree (sampleConfig 5 1 1 0 defaultLeaves) 40 12 [] in
  exists bt', GrowTree 12 bt = Done (tt, bt') /\ sameSize bt' bt.
Proof.
  intros bt.
  assert (Hrun : exists bt', GrowTree 12 bt = Done (tt, bt'))
    by (vm_compute; eexists; reflexivity).
  destruct Hrun as (bt' & Hrun). exists bt'. split; [exact Hrun|].
  assert (Hwf : shape (canvas bt) = shape (colorCanvas bt)) by reflexivity.
  exact (proj1 (GrowTree_keeps_canvas_size 12 bt bt' Hwf Hrun)).
Defined.

Lemma GrowTree_live_records_no_colour_witness :
  let bt := sampleTree (mkConfig true false false 5 1 1 0 "" defaultLeaves 0 0 true)
                       40 12 [] in
  exists bt',
    GrowTree 12 bt = Done (tt, bt') /\ colorCanvas bt' = fill EmptyString (colorCanvas bt).
Proof.
  intros bt.
  assert (Hrun : exists bt', GrowTree 12 bt = Done (tt, bt'))
    by (vm_compute; eexists; reflexivity).
  destruct Hrun as (bt' & Hrun). exists bt'. split; [exact Hrun|].
  assert (Hwf : shape (canvas bt) = shape (colorCanvas bt)) by reflexivity.
  assert (Hlive : Live (config bt) = true) by reflexivity.
  exact (GrowTree_live_records_no_colour 12 bt bt' Hwf Hlive Hrun).
Defined.

Lemma Branch_draws_no_lower_witness :
  let bt := sampleTree (sampleConfig 5 1 1 0 defaultLeaves) 40 12 [] in
  exists bt',
    Branch 12 20 5 Dying 3 bt = Done (tt, bt') /\ sameCell bt' bt 20 7.
Proof.
  intros bt.
  assert (Hrun : exists bt', Branch 12 20 5 Dying 3 bt = Done (tt, bt'))
    by (vm_compute; eexists; reflexivity).
  destruct Hrun as (bt' & Hrun). exists bt'. split; [exact Hrun|].
  apply (Branch_draws_no_lower 12 20 5 Dying 3 bt bt' Script_lawful Hrun).
  vm_compute. reflexivity.
Defined.

Lemma GrowTree_leaves_pot_bottom_witness :
  let bt := sampleTree (sampleConfig 5 1 1 0 defaultLeaves) 40 12 [] in
  exists bt' base,
    GrowTree 12 bt = Done (tt, bt') /\ DrawBase (blanked bt) = Done (tt, base) /\
    sameCell bt' base 20 10.
Proof.
  intros bt.
  assert (Hrun : exists bt', GrowTree 12 bt = Done (tt, bt'))
    by (vm_compute; eexists; reflexivity).
  destruct Hrun as (bt' & Hrun).
  assert (Hwf : shape (canvas bt) = shape (colorCanvas bt)) by reflexivity.
  assert (Hbase : 0 < BaseType (config bt)) by reflexivity.
  destruct (GrowTree_leaves_pot_bottom 12 bt bt' Script_lawful Hwf Hbase Hrun)
    as (base & Hdraw & Hcells).
  exists bt', base. split; [exact Hrun|]. split; [exact Hdraw|].
  apply Hcells. vm_compute. reflexivity.
Defined.

Lemma DrawBase_stays_in_pot_box_witness :
  let bt := sampleTree (sampleConfig 5 1 2 0 defaultLeaves) 40 12 [] in
  exists bt',
    DrawBase bt = Done (tt, bt') /\ sameControl bt' bt /\ sameCell bt' bt 3 10.
Proof.
  intros bt.
  assert (Hwf : shape (canvas bt) = shape (colorCanvas bt)) by reflexivity.
  destruct (DrawBase_stays_in_pot_box bt Hwf) as (bt' & Hrun & Hctl & _ & Hcells & _).
  exists bt'. split; [exact Hrun|]. split; [exact Hctl|].
  apply Hcells. unfold potBox. vm_compute. intros [_ [[H _]|[_ [H _]]]].
  - discriminate H.
  - apply H. reflexivity.
Defined.

Lemma GrowTree_forgets_previous_picture_witness :
  let bt1 := sampleTree (sampleConfig 5 1 1 0 defaultLeaves) 40 12 [] in
  let bt2 := mkTree (fill (rune_of "x") (canvas bt1)) (fill ColorYellow (colorCanvas bt1))
                    (config bt1) 7 3 (rng bt1) true 5 in
  GrowTree 12 bt1 = GrowTree 12 bt2.
Proof.
  intros bt1 bt2.
  assert (Hwf1 : shape (canvas bt1) = shape (colorCanvas bt1)) by reflexivity.
  assert (Hwf2 : shape (canvas bt2) = shape (colorCanvas bt2)) by reflexivity.
  assert (Hs : shape (canvas bt1) = shape (canvas bt2)) by reflexivity.
  exact (GrowTree_forgets_previous_picture 12 bt1 bt2 Hwf1 Hwf2 eq_refl eq_refl Hs).
Defined.

Lemma Branch_returns_from_anywhere_witness :
  let bt := sampleTree (sampleConfig 5 1 1 0 defaultLeaves) 40 12 [] in
  exists bt', Branch 4 (-7) 50 Dying 3 bt = Done (tt, bt') /\ sameSize bt' bt.
Proof.
  intros bt.
  assert (Hwf : shape (canvas bt) = shape (colorCanvas bt)) by reflexivity.
  assert (Hm : 0 <= Multiplier (config bt)) by (simpl; lia).
  assert (Hpf : panicFree Script (config bt)).
  { split; [simpl; lia|]. split; [exact Script_lawful|].
    repeat constructor; discriminate. }
  assert (Hfuel : (need (config bt) Dying 3 <= 4)%nat) by (simpl; lia).
  assert (Htame : tame Script Dying 3) by (left; discriminate).
  destruct (Branch_returns_from_anywhere 4 (-7) 50 Dying 3 bt Hwf Hm Hpf Hfuel Htame)
    as (bt' & Hrun & Hs & _).
  exists bt'. split; [exact Hrun | exact Hs].
Defined.

(** ** The monochrome generator of [main.go] *)

Section Sound.

Context {R : Type} {RS : RandSource R}.
Variables (I : BonsaiTree R -> Prop) (panicOk fuelOk : bool).

Local Abbreviation ok := (sound (R:=R) I panicOk fuelOk).
Local Abbreviation any := (fun _ => True).

Lemma sound_ret {A} (a : A) (Q : A -> Prop) : Q a -> ok (ret (R:=R) a) Q.
Proof. intros Ha bt HI. simpl. now split. Qed.

Lemma sound_bind {A B} (m : M R A) (k : A -> M R B) (Q : A -> Prop) (Q' : B -> Prop) :
  ok m Q -> (forall a, Q a -> ok (k a) Q') -> ok (bind m k) Q'.
Proof.
  intros Hm Hk bt HI. unfold bind. specialize (Hm bt HI).
  destruct (m bt) as [[a bt']| |]; simpl in *; try exact Hm.
  destruct Hm as [HI' Ha]. now apply Hk.
Qed.

Lemma sound_get : ok get I.
Proof. intros bt HI. simpl. now split. Qed.

Lemma sound_liftR {A} (r : Result A) (Q : A -> Prop) :
  match r with
  | Done a => Q a
  | Panic _ => panicOk = true
  | OutOfFuel => fuelOk = true
  end ->
  ok (liftR (R:=R) r) Q.
Proof. intros Hr bt HI. unfold liftR. destruct r; simpl; auto. Qed.

Lemma sound_rangeString (s : list rune) (body : Z -> rune -> M R unit) :
  forall i,
    (forall k c, i <= k < i + Z.of_nat (length s) -> ok (body k c) any) ->
    ok (rangeString i s body) any.
Proof.
  induction s as [|c s IH]; intros i Hbody; simpl.
  - now apply sound_ret.
  - eapply sound_bind; [apply Hbody; simpl length; lia|]. intros _ _.
    apply IH. intros k c' Hk. apply Hbody. simpl length. lia.
Qed.

Variables (cfg : Config) (P : Z -> Z -> Prop).

Hypothesis I_cfg : forall bt, I bt -> config bt = cfg.
Hypothesis I_paint :
  forall bt x y char, P x y -> I bt -> I (setCanvas (paint (canvas bt) x y char) bt).

Lemma sound_Legacy_SetPixel x y char : P x y -> ok (Legacy.SetPixel x y char) any.
Proof.
  intros HP bt HI. rewrite Legacy_SetPixel_paints. simpl.
  split; [now apply I_paint | exact Logic.I].
Qed.

(** The [DrawBase] of [main.go] draws inside the box of its base. *)
Lemma sound_Legacy_DrawBase :
  (forall x y, legacyPotBox cfg x y -> P x y) -> ok Legacy.DrawBase any.
Proof.
  intros Hbox. unfold Legacy.DrawBase. eapply sound_bind; [apply sound_get|].
  intros bt Hbt. rewrite (I_cfg bt Hbt). cbv zeta.
  destruct (BaseType cfg =? 0) eqn:E0; [now apply sound_ret|].
  destruct (BaseType cfg =? 1) eqn:E1.
  { apply Z.eqb_eq in E1.
    assert (HP : forall (n off k row : Z),
               0 <= k < n -> n - off <= 16 -> 14 <= off <= 15 -> 0 <= row <= 3 ->
               P (Z.quot (Width cfg) 2 - off + k) (Height cfg - 1 - row)).
    { intros n off k row Hk Hn Hoff Hrow. apply Hbox. left.
      split; [exact E1 | lia]. }
    unfold Legacy.drawLine.
    eapply sound_bind.
    { apply sound_rangeString. intros k c Hk. rewrite length_runes in Hk.
      apply sound_Legacy_SetPixel.
      replace (Height cfg - 1) with (Height cfg - 1 - 0) by lia.
      apply (HP 31 15 k 0); [exact Hk | lia | lia | lia]. }
    intros _ _. eapply sound_bind.
    { apply sound_rangeString. intros k c Hk. rewrite length_runes in Hk.
      apply sound_Legacy_SetPixel. apply (HP 31 15 k 1); [exact Hk | lia | lia | lia]. }
    intros _ _. eapply sound_bind.
    { apply sound_rangeString. intros k c Hk. rewrite length_runes in Hk.
      apply sound_Legacy_SetPixel. apply (HP 30 15 k 2); [exact Hk | lia | lia | lia]. }
    intros _ _. apply sound_rangeString. intros k c Hk. rewrite length_runes in Hk.
    apply sound_Legacy_SetPixel. apply (HP 29 14 k 3); [exact Hk | lia | lia | lia]. }
  destruct (BaseType cfg =? 2) eqn:E2; [|now apply sound_ret].
  apply Z.eqb_eq in E2.
  assert (HP : forall (k row : Z),
             0 <= k < 15 -> 0 <= row <= 2 ->
             P (Z.quot (Width cfg) 2 - 7 + k) (Height cfg - 1 - row)).
  { intros k row Hk Hrow. apply Hbox. right. split; [exact E2 | lia]. }
  unfold Legacy.drawLine.
  eapply sound_bind.
  { apply sound_rangeString. intros k c Hk. rewrite length_runes in Hk.
    apply sound_Legacy_SetPixel.
    replace (Height cfg - 1) with (Height cfg - 1 - 0) by lia.
    apply (HP k 0); [exact Hk | lia]. }
  intros _ _. eapply sound_bind.
  { apply sound_rangeString. intros k c Hk. rewrite length_runes in Hk.
    apply sound_Legacy_SetPixel. apply (HP k 1); [exact Hk | lia]. }
  intros _ _. apply sound_rangeString. intros k c Hk. rewrite length_runes in Hk.
  apply sound_Legacy_SetPixel. apply (HP k 2); [exact Hk | lia].
Qed.

Hypothesis I_rng : forall bt r, I bt -> I (setRng r bt).
Hypothesis I_branches : forall bt a bt', I bt -> incrBranches bt = Done (a, bt') -> I bt'.
Hypothesis I_shoots : forall bt a bt', I bt -> incrShoots bt = Done (a, bt') -> I bt'.
Hypothesis P_step :
  forall x y dx dy,
    P x y -> -3 <= dx <= 3 -> -1 <= dy <= 1 -> (Height cfg - 3 < y -> dy <= 0) ->
    P (x + dx) (y + dy).
Hypothesis Hlaw : RandLawful R.
Hypothesis Hsafe : panicOk = true \/ (Multiplier cfg <> 0 /\ leavesUsable (Leaves cfg)).

Lemma sound_intn (n : Z) :
  0 < n -> ok (intn n) (fun v => exists r : R, v = fst (Intn n r)).
Proof.
  intros Hn bt HI. unfold intn.
  destruct (n <=? 0) eqn:E; simpl.
  - apply Z.leb_le in E. lia.
  - split; [now apply I_rng|]. now exists (rng bt).
Qed.

Lemma sound_incrBranches : ok incrBranches any.
Proof. intros bt HI. simpl. split; [eapply I_branches; eauto; reflexivity | exact Logic.I]. Qed.

Lemma sound_incrShoots : ok incrShoots any.
Proof. intros bt HI. simpl. split; [eapply I_shoots; eauto; reflexivity | exact Logic.I]. Qed.

(** The step of [main.go]: the deltas of [GetDeltas] clamped above row
    [Height - 3], with no first-move rule. *)
Lemma Legacy_stepDeltas_range (bt : BonsaiTree R) (y : Z) (ty : BranchType) (life : Z) :
  exists dx dy r,
    Legacy.stepDeltas y ty life bt = Done ((dx, dy), setRng r bt) /\
    -3 <= dx <= 3 /\ -1 <= dy <= 1 /\
    (Height (config bt) - 3 < y -> dy <= 0).
Proof.
  unfold Legacy.stepDeltas. unfold bind at 1. unfold get at 1. cbn [bindR fst snd].
  unfold bind.
  destruct (GetDeltas_range bt ty life (branchAge (config bt) life) Hlaw)
    as (dx & dy & r & Hrun & Hb).
  rewrite Hrun. cbn [bindR fst snd]. apply deltaBounds_any in Hb.
  eexists _, _, _. split; [reflexivity|].
  unfold Legacy.groundClamp.
  destruct (dy >? 0) eqn:E1; destruct (y >? Height (config bt) - 3) eqn:E2;
    cbn [andb]; lia.
Qed.

Lemma sound_Legacy_stepDeltas x y ty life :
  P x y -> ok (Legacy.stepDeltas y ty life) (fun d => P (x + fst d) (y + snd d)).
Proof.
  intros HP bt HI.
  destruct (Legacy_stepDeltas_range bt y ty life)
    as (dx & dy & r & Hrun & Hdx & Hdy & Hclamp).
  rewrite Hrun. cbn [fst snd]. split; [now apply I_rng|].
  apply P_step; try assumption. now rewrite <- (I_cfg bt HI).
Qed.

(** [ChooseChar] panics on an empty leaf only. *)
Lemma sound_ChooseChar ty life dx dy : ok (ChooseChar ty life dx dy) any.
Proof.
  intros bt HI. pose proof (I_cfg bt HI) as Hc.
  destruct (glyphKind ty life) eqn:Hk;
    try (unfold ChooseChar; rewrite Hk; simpl; now split).
  all: rewrite ChooseChar_foliage by (rewrite Hk; tauto).
  all: unfold leafGlyph; rewrite Hc.
  all: destruct (Leaves cfg) as [|l0 ls] eqn:HL; [simpl; now split|].
  all: cbv zeta.
  all: assert (Hpos : 0 < Z.of_nat (length (l0 :: ls))) by (simpl length; lia).
  all: destruct (sliceIndex_in_range (l0 :: ls) _ (Hlaw _ (rng bt) Hpos))
         as (leaf & Hleaf & Hsl).
  all: rewrite Hsl.
  all: destruct leaf as [|b rest]; simpl; [|split; [now apply I_rng | exact Logic.I]].
  all: destruct Hsafe as [Hp | [_ Huse]]; [exact Hp|]; exfalso.
  all: unfold leavesUsable in Huse; rewrite Forall_forall in Huse.
  all: apply (Huse EmptyString); [|reflexivity].
  all: eapply list_elem_of_lookup_2; exact Hleaf.
Qed.

(** The branching logic of a step, given the outcome of the calls it can
    make. *)
Lemma sound_branching (Branch : Z -> Z -> BranchType -> Z -> M R unit)
    (x y : Z) (ty : BranchType) (life cd : Z) :
  (forall cty cl, spawns cfg ty life cty cl -> ok (Branch x y cty cl) any) ->
  ok (branching Branch x y ty life cd) any.
Proof.
  intros HB. unfold branching.
  eapply sound_bind; [apply sound_get|]. intros bt Hbt. rewrite (I_cfg bt Hbt).
  destruct (life <? 3) eqn:E3.
  { apply Z.ltb_lt in E3.
    eapply sound_bind; [apply HB; now constructor|].
    intros _ _. now apply sound_ret. }
  apply Z.ltb_ge in E3.
  destruct (BranchType_eqb ty Trunk && (life <? Multiplier cfg + 2)) eqn:E4.
  { apply andb_prop in E4 as [Et El]. apply Z.ltb_lt in El.
    eapply sound_bind;
      [apply HB; apply spawns_dying; try assumption; destruct ty; discriminate|].
    intros _ _. now apply sound_ret. }
  destruct ((BranchType_eqb ty ShootLeft || BranchType_eqb ty ShootRight)
            && (life <? Multiplier cfg + 2)) eqn:E5.
  { apply andb_prop in E5 as [Et El]. apply Z.ltb_lt in El.
    eapply sound_bind;
      [apply HB; apply spawns_dying; try assumption; destruct ty; discriminate|].
    intros _ _. now apply sound_ret. }
  destruct (BranchType_eqb ty Trunk) eqn:Et; [|now apply sound_ret].
  assert (ty = Trunk) as -> by (destruct ty; (reflexivity || discriminate)).
  simpl in E4. apply Z.ltb_ge in E4.
  eapply sound_bind; [apply sound_intn; lia|]. intros d _.
  eapply sound_bind with (Q := any).
  { destruct (d =? 0); [now apply sound_ret|].
    eapply sound_bind with (Q := any); [|intros m _; now apply sound_ret].
    apply sound_liftR. unfold goRem.
    destruct (Multiplier cfg =? 0) eqn:E0; [|exact Logic.I].
    destruct Hsafe as [Hp|[Hm _]]; [exact Hp|]. apply Z.eqb_eq in E0. contradiction. }
  intros fires _. destruct fires; [|now apply sound_ret].
  eapply sound_bind; [apply sound_intn; lia|]. intros d8 _.
  destruct ((d8 =? 0) && (life >? 7)) eqn:E8.
  { apply andb_prop in E8 as [_ E8]. apply Z.gtb_lt in E8.
    eapply sound_bind; [apply sound_intn; lia|]. intros j [r ->].
    eapply sound_bind; [apply HB; now apply spawns_fork|].
    intros _ _. now apply sound_ret. }
  destruct (cd <=? 0); [|now apply sound_ret].
  eapply sound_bind; [apply sound_incrShoots|]. intros _ _.
  eapply sound_bind; [apply sound_get|]. intros bt' _.
  eapply sound_bind with (Q := any); [|intros _ _; now apply sound_ret].
  destruct (Z.rem (shoots bt') 2 =? 0); apply HB; apply spawns_shoot; auto.
Qed.

(** The loop of the [Branch] of [main.go]. *)
Lemma sound_Legacy_BranchLoop (fuel : nat) :
  forall x y ty life cd,
    P x y ->
    fuelOk = true \/
    (0 <= Multiplier cfg /\ (need cfg ty life <= fuel)%nat /\ tame R ty life) ->
    ok (Legacy.BranchLoop fuel x y ty life cd) any.
Proof.
  induction fuel as [|fuel IH]; intros x y ty life cd HP Hfuel.
  - intros bt HI. simpl. destruct Hfuel as [H|(_ & H & _)]; [exact H|].
    unfold need in H. destruct ty; lia.
  - cbn [Legacy.BranchLoop]. destruct (life >? 0) eqn:El; [|now apply sound_ret].
    apply Z.gtb_lt in El. cbv zeta.
    eapply sound_bind; [apply sound_Legacy_stepDeltas; exact HP|].
    intros [dx dy] HP'. cbn [fst snd] in HP'.
    eapply sound_bind with (Q := any).
    { apply sound_branching. intros cty cl Hsp.
      eapply sound_bind; [apply sound_incrBranches|]. intros _ _.
      eapply sound_bind; [apply sound_get|]. intros bt' _.
      apply IH; [exact HP|].
      destruct Hfuel as [H|(Hmult & Hneed & Htame)]; [now left|right].
      split; [exact Hmult|].
      destruct Hsp as [Hlt | Hty1 Hty2 Hge Hlt | r Hty Hgt Hge | cty Hty Hcty Hge Hge'].
      + split; [unfold need in *; destruct ty; lia | left; discriminate].
      + split; [unfold need in *; destruct ty; lia | left; discriminate].
      + subst ty. destruct Htame as [H|[H|H]]; [congruence|lia|].
        split; [|right; right; exact H].
        specialize (H r). unfold need in *. lia.
      + subst ty. split.
        * unfold need in *. destruct Hcty as [-> | ->]; lia.
        * left. destruct Hcty as [-> | ->]; discriminate. }
    intros cd' _.
    eapply sound_bind; [apply sound_ChooseChar|]. intros char _.
    eapply sound_bind; [apply sound_Legacy_SetPixel; exact HP'|]. intros _ _.
    apply IH; [exact HP'|].
    destruct Hfuel as [H|(Hmult & Hneed & Htame)]; [now left|right].
    split; [exact Hmult|]. split.
    + unfold need in *. destruct ty; lia.
    + destruct Htame as [H|[H|H]]; [now left | right; left; lia | right; right; exact H].
Qed.

Lemma sound_Legacy_Branch (fuel : nat) x y ty life :
  P x y ->
  fuelOk = true \/
  (0 <= Multiplier cfg /\ (need cfg ty life <= fuel)%nat /\ tame R ty life) ->
  ok (Legacy.Branch fuel x y ty life) any.
Proof.
  intros HP Hfuel. unfold Legacy.Branch.
  eapply sound_bind; [apply sound_incrBranches|]. intros _ _.
  eapply sound_bind; [apply sound_get|]. intros bt' _.
  now apply sound_Legacy_BranchLoop.
Qed.

End Sound.

Section LegacyRuns.

Context {R : Type} {RS : RandSource R}.

Lemma Legacy_clearCells_exact (n : nat) :
  forall (y x : Z) (bt : BonsaiTree R) (row : list rune),
    0 <= y -> 0 <= x ->
    canvas bt !! Z.to_nat y = Some row ->
    (Z.to_nat x + n <= length row)%nat ->
    Legacy.clearCells y x n bt =
    Done (tt, setCanvas
                (<[Z.to_nat y := fillCells (Z.to_nat x) n (rune_of " ") row]> (canvas bt))
                bt).
Proof.
  induction n as [|n IH]; intros y x bt row Hy Hx Hrow Hn; simpl.
  - rewrite list_insert_id by assumption. now destruct bt.
  - assert (Hylt : (Z.to_nat y < length (canvas bt))%nat)
      by (eapply lookup_lt_Some; eauto).
    assert (Hin : inBounds (canvas bt) x y = true).
    { unfold inBounds. rewrite Hrow.
      apply andb_true_intro; split; [|apply Z.ltb_lt; lia].
      apply andb_true_intro; split; [|apply Z.leb_le; lia].
      apply andb_true_intro; split; [apply Z.leb_le | apply Z.ltb_lt]; lia. }
    unfold bind, get, put, liftR. cbn [bindR fst snd].
    rewrite store_outcome, Hin. cbn [bindR fst snd].
    unfold paint. rewrite Hin, Hrow.
    erewrite IH.
    + unfold setCanvas. cbn [canvas colorCanvas config branches shoots
                             rng initialized messageOffset].
      rewrite list_insert_insert_eq.
      replace (Z.to_nat (x + 1)) with (S (Z.to_nat x)) by lia. reflexivity.
    + exact Hy.
    + lia.
    + unfold setCanvas. cbn [canvas]. now apply list_lookup_insert_eq.
    + rewrite length_insert. lia.
Qed.

Lemma Legacy_clearRows_exact (n : nat) :
  forall (y : Z) (bt : BonsaiTree R),
    0 <= y -> (Z.to_nat y + n <= length (canvas bt))%nat ->
    Legacy.clearRows y n bt =
    Done (tt, setCanvas (fillRows (Z.to_nat y) n (rune_of " ") (canvas bt)) bt).
Proof.
  induction n as [|n IH]; intros y bt Hy Hn; simpl.
  - now destruct bt.
  - destruct (sliceIndex_in_range (canvas bt) y) as (row & Hrow & Hsl); [lia|].
    unfold bind, get, liftR. cbn [bindR fst snd]. rewrite Hsl. cbn [bindR fst snd].
    rewrite (Legacy_clearCells_exact (length row) y 0 bt row)
      by (try assumption; simpl; lia).
    cbn [bindR fst snd].
    rewrite IH.
    + unfold setCanvas.
      cbn [canvas colorCanvas config branches shoots rng initialized messageOffset].
      rewrite Hrow.
      replace (Z.to_nat (y + 1)) with (S (Z.to_nat y)) by lia. reflexivity.
    + lia.
    + unfold setCanvas. cbn [canvas]. rewrite length_insert. lia.
Qed.

(** The [GrowTree] of [main.go]: the base on the blanked canvas, then the
    trunk from [legacyTrunkRow]. *)
Lemma Legacy_GrowTree_blanks (fuel : nat) (bt : BonsaiTree R) :
  Legacy.GrowTree fuel bt =
  bindR (Legacy.DrawBase (legacyBlanked bt))
        (fun p => Legacy.Branch fuel (Z.quot (Width (config (snd p))) 2)
                                (legacyTrunkRow (config (snd p))) Trunk
                                (LifeStart (config (snd p))) (snd p)).
Proof.
  unfold Legacy.GrowTree.
  unfold bind at 1. unfold get at 1. cbn [bindR fst snd].
  unfold bind at 1. unfold put at 1. cbn [bindR fst snd].
  unfold bind at 1.
  rewrite Legacy_clearRows_exact by (simpl; lia).
  cbn [bindR fst snd]. unfold setCanvas.
  cbn [canvas colorCanvas config branches shoots rng initialized messageOffset Z.to_nat].
  rewrite fillRows_whole. unfold bind at 1. fold (legacyBlanked bt).
  destruct (Legacy.DrawBase (legacyBlanked bt)) as [[[] base]| |]; reflexivity.
Qed.

Lemma legacySized_refl (bt : BonsaiTree R) : legacySized bt bt.
Proof. repeat split. Qed.

Lemma legacySized_paint (bt0 bt : BonsaiTree R) x y char :
  legacySized bt0 bt -> legacySized bt0 (setCanvas (paint (canvas bt) x y char) bt).
Proof.
  intros (Hc & Hs & Hcc). unfold legacySized, setCanvas. cbn [canvas colorCanvas config].
  now rewrite shape_paint.
Qed.

Lemma legacyGrounded_paint (bound : Z) (bt0 bt : BonsaiTree R) x y char :
  y <= bound -> legacyGrounded bound bt0 bt ->
  legacyGrounded bound bt0 (setCanvas (paint (canvas bt) x y char) bt).
Proof.
  intros Hy (Hc & Hcells). split; [exact Hc|]. intros i j Hj.
  unfold setCanvas. cbn [canvas]. rewrite cell_paint, <- (Hcells i j Hj).
  unfold overwrite. destruct (cell (canvas bt) i j); [|reflexivity].
  destruct (x =? Z.of_nat i); [|reflexivity].
  destruct (y =? Z.of_nat j) eqn:E; [|reflexivity]. apply Z.eqb_eq in E. lia.
Qed.

Lemma legacyOutsidePot_paint (bt0 bt : BonsaiTree R) x y char :
  legacyPotBox (config bt0) x y -> legacyOutsidePot bt0 bt ->
  legacyOutsidePot bt0 (setCanvas (paint (canvas bt) x y char) bt).
Proof.
  intros Hbox (Hctl & Hcc & Hs & Hcells).
  split; [exact Hctl|]. split; [exact Hcc|].
  unfold setCanvas. cbn [canvas]. split; [now rewrite shape_paint|].
  intros i j Hout. rewrite cell_paint, <- (Hcells i j Hout).
  unfold overwrite. destruct (cell (canvas bt) i j); [|reflexivity].
  destruct (x =? Z.of_nat i) eqn:Ex; [|reflexivity].
  destruct (y =? Z.of_nat j) eqn:Ey; [|reflexivity].
  apply Z.eqb_eq in Ex, Ey. subst. contradiction.
Qed.

(** The [DrawBase] of [main.go] always returns and keeps all but the
    characters in the box of its base. *)
Lemma Legacy_DrawBase_outside (bt : BonsaiTree R) :
  exists bt', Legacy.DrawBase bt = Done (tt, bt') /\ legacyOutsidePot bt bt'.
Proof.
  assert (H0 : legacyOutsidePot bt bt) by (repeat split).
  pose proof (sound_Legacy_DrawBase (legacyOutsidePot bt) false false (config bt)
                (legacyPotBox (config bt))
                ltac:(intros b ((Hc & _) & _); exact Hc)
                ltac:(intros; now apply legacyOutsidePot_paint)
                ltac:(auto) bt H0) as Hok.
  destruct (Legacy.DrawBase bt) as [[[] bt']| |] eqn:Hrun; try discriminate.
  exists bt'. split; [reflexivity | apply Hok].
Qed.

(** X16. The [DrawBase] of [main.go] always returns; it changes no cell
    outside the box of its base (rows [Height - 4] to [Height - 1] and 31
    columns for the large pot, rows [Height - 3] to [Height - 1] and 15
    columns for the small one, about the middle), keeps the dimensions of
    the canvas and every other field of the tree, and changes nothing for
    base type 0. *)
Theorem Legacy_DrawBase_stays_in_pot_box (bt : BonsaiTree R) :
  exists bt',
    Legacy.DrawBase bt = Done (tt, bt') /\
    sameControl bt' bt /\ colorCanvas bt' = colorCanvas bt /\
    shape (canvas bt') = shape (canvas bt) /\
    (forall i j, ~ legacyPotBox (config bt) (Z.of_nat i) (Z.of_nat j) ->
                 cell (canvas bt') i j = cell (canvas bt) i j) /\
    (BaseType (config bt) = 0 -> bt' = bt).
Proof.
  destruct (Legacy_DrawBase_outside bt) as (bt' & Hrun & H1 & H2 & H3 & H4).
  exists bt'. repeat (split; [assumption|]).
  intros Hb. unfold Legacy.DrawBase, bind, get in Hrun. cbn [bindR fst snd] in Hrun.
  rewrite Hb in Hrun. cbn in Hrun. now injection Hrun as <-.
Qed.

Lemma legacy_step_grounded (cfg : Config) (bound : Z) :
  Height cfg - 2 <= bound ->
  forall x y dx dy : Z,
    y <= bound -> -3 <= dx <= 3 -> -1 <= dy <= 1 -> (Height cfg - 3 < y -> dy <= 0) ->
    y + dy <= bound.
Proof.
  intros Hb x y dx dy Hy _ Hdy Hclamp.
  destruct (Z_lt_le_dec (Height cfg - 3) y) as [Hlow|Hhigh].
  - specialize (Hclamp Hlow). lia.
  - lia.
Qed.

(** X17. In [main.go], with a generator that answers in range, a branch
    never draws below the row it starts from, nor below row [Height - 2]
    if it starts above it: the characters of every lower row are as they
    were. *)
Theorem Legacy_Branch_draws_no_lower (fuel : nat) (x y : Z) (ty : BranchType) (life : Z)
    (bt bt' : BonsaiTree R) :
  RandLawful R ->
  Legacy.Branch fuel x y ty life bt = Done (tt, bt') ->
  forall i j, Z.max y (Height (config bt) - 2) < Z.of_nat j ->
              cell (canvas bt') i j = cell (canvas bt) i j.
Proof.
  intros Hlaw Hrun i j Hj.
  set (bound := Z.max y (Height (config bt) - 2)) in *.
  assert (H0 : legacyGrounded bound bt bt) by (now split).
  pose proof (sound_Legacy_Branch (legacyGrounded bound bt) true true (config bt)
                (fun _ y => y <= bound)
                ltac:(intros b (Hc & _); exact Hc)
                ltac:(intros; now apply legacyGrounded_paint)
                ltac:(intros b r H; exact H)
                ltac:(intros b a b' H [= <- <-]; exact H)
                ltac:(intros b a b' H [= <- <-]; exact H)
                (legacy_step_grounded (config bt) bound ltac:(subst bound; lia))
                Hlaw (or_introl eq_refl) fuel x y ty life
                ltac:(cbv beta; subst bound; lia) (or_introl eq_refl) bt H0) as Hok.
  rewrite Hrun in Hok. destruct Hok as [(_ & H) _]. now apply H.
Qed.

(** X18. In [main.go], with a base and a generator that answers in range,
    the tree never overwrites the bottom row of the picture: in row
    [Height - 1] and below, a finished run of [GrowTree] shows what
    [DrawBase] drew on the blanked canvas. *)
Theorem Legacy_GrowTree_leaves_bottom_row (fuel : nat) (bt bt' : BonsaiTree R) :
  RandLawful R ->
  0 < BaseType (config bt) ->
  Legacy.GrowTree fuel bt = Done (tt, bt') ->
  exists base,
    Legacy.DrawBase (legacyBlanked bt) = Done (tt, base) /\
    forall i j, Height (config bt) - 2 < Z.of_nat j ->
                cell (canvas bt') i j = cell (canvas base) i j.
Proof.
  intros Hlaw Hbase Hrun. rewrite Legacy_GrowTree_blanks in Hrun.
  destruct (Legacy_DrawBase_outside (legacyBlanked bt))
    as (base & Hdraw & (Hc & _) & _).
  rewrite Hdraw in Hrun. cbn [bindR fst snd] in Hrun.
  exists base. split; [exact Hdraw|]. intros i j Hj.
  cbn [legacyBlanked config] in Hc.
  assert (Hrow : legacyTrunkRow (config base) = Height (config bt) - 5).
  { unfold legacyTrunkRow. rewrite Hc.
    destruct (BaseType (config bt) >? 0) eqn:E; lia. }
  rewrite Hrow in Hrun.
  set (bound := Height (config bt) - 2) in *.
  assert (H0 : legacyGrounded bound base base) by (now split).
  pose proof (sound_Legacy_Branch (legacyGrounded bound base) true true (config base)
                (fun _ y => y <= bound)
                ltac:(intros b (Hcb & _); exact Hcb)
                ltac:(intros; now apply legacyGrounded_paint)
                ltac:(intros b r H; exact H)
                ltac:(intros b a b' H [= <- <-]; exact H)
                ltac:(intros b a b' H [= <- <-]; exact H)
                (legacy_step_grounded (config base) bound
                   ltac:(subst bound; rewrite Hc; lia))
                Hlaw (or_introl eq_refl) fuel (Z.quot (Width (config base)) 2)
                (Height (config bt) - 5) Trunk (LifeStart (config base))
                ltac:(cbv beta; subst bound; lia) (or_introl eq_refl) base H0) as Hok.
  rewrite Hrun in Hok. destruct Hok as [(_ & H) _]. now apply H.
Qed.

(** X19. The [GrowTree] of [main.go] on any tree returns without panic
    when the multiplier is at least 1, the generator lawful, no leaf
    empty, and the trunk tame with fuel for its need; it keeps the
    configuration and the dimensions of the canvas. *)
Theorem Legacy_GrowTree_returns (fuel : nat) (bt : BonsaiTree R) :
  0 <= Multiplier (config bt) -> panicFree R (config bt) ->
  (need (config bt) Trunk (LifeStart (config bt)) <= fuel)%nat ->
  tame R Trunk (LifeStart (config bt)) ->
  exists bt',
    Legacy.GrowTree fuel bt = Done (tt, bt') /\
    config bt' = config bt /\ shape (canvas bt') = shape (canvas bt).
Proof.
  intros Hm (Hm0 & Hlaw & Huse) Hfuel Htame. rewrite Legacy_GrowTree_blanks.
  destruct (Legacy_DrawBase_outside (legacyBlanked bt))
    as (base & Hdraw & (Hc & _) & _ & Hs & _).
  rewrite Hdraw. cbn [bindR fst snd].
  cbn [legacyBlanked config canvas] in Hc, Hs. rewrite shape_fill in Hs.
  assert (H0 : legacySized base base) by apply legacySized_refl.
  pose proof (sound_Legacy_Branch (legacySized base) false false (config base)
                (fun _ _ => True)
                ltac:(intros b (Hcb & _); exact Hcb)
                ltac:(intros; now apply legacySized_paint)
                ltac:(intros b r H; exact H)
                ltac:(intros b a b' H [= <- <-]; exact H)
                ltac:(intros b a b' H [= <- <-]; exact H)
                ltac:(intros; exact Logic.I)
                Hlaw
                ltac:(right; rewrite Hc; now split)
                fuel (Z.quot (Width (config base)) 2) (legacyTrunkRow (config base))
                Trunk (LifeStart (config base)) Logic.I
                ltac:(right; rewrite Hc; now repeat split) base H0) as Hok.
  destruct (Legacy.Branch fuel _ _ _ _ base) as [[[] bt']| |]; try discriminate.
  exists bt'. split; [reflexivity|].
  destruct Hok as [(H1 & H2 & _) _]. cbn [snd] in H1, H2. split; congruence.
Qed.

End LegacyRuns.

Lemma Legacy_Branch_draws_no_lower_witness :
  let bt := Legacy.NewBonsaiTree (R:=Script) (sampleConfig 5 1 1 0 defaultLeaves) 40 12 in
  exists bt',
    Legacy.Branch 12 20 5 Dying 3 bt = Done (tt, bt') /\
    cell (canvas bt') 20 11 = cell (canvas bt) 20 11.
Proof.
  intros bt.
  assert (Hrun : exists bt', Legacy.Branch 12 20 5 Dying 3 bt = Done (tt, bt'))
    by (vm_compute; eexists; reflexivity).
  destruct Hrun as (bt' & Hrun). exists bt'. split; [exact Hrun|].
  apply (Legacy_Branch_draws_no_lower 12 20 5 Dying 3 bt bt' Script_lawful Hrun).
  vm_compute. reflexivity.
Defined.

Lemma Legacy_GrowTree_leaves_bottom_row_witness :
  let bt := Legacy.NewBonsaiTree (R:=Script) (sampleConfig 5 1 1 0 defaultLeaves) 40 12 in
  exists bt' base,
    Legacy.GrowTree 12 bt = Done (tt, bt') /\
    Legacy.DrawBase (legacyBlanked bt) = Done (tt, base) /\
    cell (canvas bt') 20 11 = cell (canvas base) 20 11.
Proof.
  intros bt.
  assert (Hrun : exists bt', Legacy.GrowTree 12 bt = Done (tt, bt'))
    by (vm_compute; eexists; reflexivity).
  destruct Hrun as (bt' & Hrun).
  assert (Hbase : 0 < BaseType (config bt)) by reflexivity.
  destruct (Legacy_GrowTree_leaves_bottom_row 12 bt bt' Script_lawful Hbase Hrun)
    as (base & Hdraw & Hcells).
  exists bt', base. split; [exact Hrun|]. split; [exact Hdraw|].
  apply Hcells. vm_compute. reflexivity.
Defined.

Lemma Legacy_GrowTree_returns_witness :
  let bt := Legacy.NewBonsaiTree (R:=Script) (sampleConfig 5 1 1 0 defaultLeaves) 40 12 in
  exists bt', Legacy.GrowTree 7 bt = Done (tt, bt') /\
              shape (canvas bt') = shape (canvas bt).
Proof.
  intros bt.
  assert (Hm : 0 <= Multiplier (config bt)) by (simpl; lia).
  assert (Hpf : panicFree Script (config bt)).
  { split; [simpl; lia|]. split; [exact Script_lawful|].
    repeat constructor; discriminate. }
  assert (Hfuel : (need (config bt) Trunk (LifeStart (config bt)) <= 7)%nat)
    by (simpl; lia).
  assert (Htame : tame Script Trunk (LifeStart (config bt)))
    by (right; left; simpl; lia).
  destruct (Legacy_GrowTree_returns 7 bt Hm Hpf Hfuel Htame) as (bt' & Hrun & _ & Hs).
  exists bt'. split; [exact Hrun | exact Hs].
Defined.

(** ** The picture on the terminal *)

Section Printing.

Context {R : Type} {RS : RandSource R}.

Lemma renderCells_exact (bt : BonsaiTree R) (y : nat) (row : list rune)
    (crow : list string) (n : nat) :
  canvas bt !! y = Some row -> colorCanvas bt !! y = Some crow ->
  length crow = length row ->
  forall x : nat,
    (x + n = length row)%nat ->
    renderCells bt (Z.of_nat y) (Z.of_nat x) n =
    Done (flat_map (fun p => printCell (UseColors (config bt)) (fst p) (snd p))
                   (combine (drop x row) (drop x crow))).
Proof.
  intros Hrow Hcrow Hlen.
  assert (Hy : (y < length (canvas bt))%nat) by (eapply lookup_lt_Some; eauto).
  assert (Hyc : (y < length (colorCanvas bt))%nat) by (eapply lookup_lt_Some; eauto).
  induction n as [|n IH]; intros x Hx.
  - simpl. rewrite drop_ge by lia. reflexivity.
  - cbn [renderCells].
    destruct (sliceIndex_in_range (canvas bt) (Z.of_nat y)) as (row' & Hr & ->); [lia|].
    rewrite Nat2Z.id in Hr. rewrite Hrow in Hr. injection Hr as <-. cbn [bindR].
    destruct (sliceIndex_in_range row (Z.of_nat x)) as (char & Hchar & ->); [lia|].
    rewrite Nat2Z.id in Hchar. cbn [bindR].
    destruct (sliceIndex_in_range (colorCanvas bt) (Z.of_nat y)) as (crow' & Hr & ->);
      [lia|].
    rewrite Nat2Z.id in Hr. rewrite Hcrow in Hr. injection Hr as <-. cbn [bindR].
    destruct (sliceIndex_in_range crow (Z.of_nat x)) as (color & Hcolor & ->); [lia|].
    rewrite Nat2Z.id in Hcolor. cbn [bindR].
    replace (Z.of_nat x + 1) with (Z.of_nat (S x)) by lia.
    rewrite IH by lia. cbn [bindR].
    rewrite (drop_S row char x Hchar), (drop_S crow color x Hcolor). reflexivity.
Qed.

Lemma renderRows_exact (bt : BonsaiTree R) (n : nat) :
  shape (canvas bt) = shape (colorCanvas bt) ->
  forall y : nat,
    (y + n = length (canvas bt))%nat ->
    renderRows bt (Z.of_nat y) n =
    Done (rowsOut (UseColors (config bt)) (drop y (canvas bt)) (drop y (colorCanvas bt))).
Proof.
  intros Hwf. induction n as [|n IH]; intros y Hy.
  - simpl. rewrite drop_ge by lia. reflexivity.
  - cbn [renderRows].
    destruct (sliceIndex_in_range (canvas bt) (Z.of_nat y)) as (row & Hrow & ->); [lia|].
    rewrite Nat2Z.id in Hrow. cbn [bindR].
    assert (Hcrow : exists crow, colorCanvas bt !! y = Some crow
                                 /\ length crow = length row).
    { pose proof (shape_lookup (canvas bt) y) as H1.
      pose proof (shape_lookup (colorCanvas bt) y) as H2.
      rewrite Hwf, H2, Hrow in H1.
      destruct (colorCanvas bt !! y) as [crow|]; simpl in H1; [|discriminate].
      exists crow. split; [reflexivity|]. now inversion H1. }
    destruct Hcrow as (crow & Hcrow & Hlen).
    pose proof (renderCells_exact bt y row crow (length row) Hrow Hcrow Hlen 0%nat
                  eq_refl) as Hcells.
    change (Z.of_nat 0) with 0 in Hcells. rewrite Hcells.
    cbn [bindR]. replace (Z.of_nat y + 1) with (Z.of_nat (S y)) by lia.
    rewrite IH by lia. cbn [bindR].
    rewrite (drop_S _ row y Hrow), (drop_S _ crow y Hcrow).
    unfold rowsOut. cbn [combine flat_map fst snd]. unfold rowOut at 2.
    rewrite !drop_0, <- app_assoc. reflexivity.
Qed.

Lemma rowOut_plain (row : list rune) :
  forall crow : list string,
    length crow = length row ->
    rowOut false row crow = (map Chr row ++ [Str newline])%list.
Proof.
  unfold rowOut. induction row as [|c row IH]; intros [|col crow] Hlen;
    try discriminate; [reflexivity|].
  cbn [combine flat_map fst snd map]. unfold printCell at 1.
  rewrite andb_false_r. simpl in Hlen.
  specialize (IH crow ltac:(lia)). cbn [app]. f_equal. exact IH.
Qed.

Lemma rowsOut_plain (cv : list (list rune)) :
  forall cc : list (list string),
    shape cv = shape cc -> rowsOut false cv cc = plainOut cv.
Proof.
  unfold rowsOut, plainOut. induction cv as [|row cv IH]; intros [|crow cc] Hs;
    try discriminate; [reflexivity|].
  unfold shape in Hs. simpl in Hs. injection Hs as Hl Hs.
  cbn [combine flat_map fst snd]. rewrite rowOut_plain by (symmetry; exact Hl).
  f_equal. now apply IH.
Qed.

(** X20. Outside live mode, on a tree whose canvases have one shape,
    [Render] never panics and prints every cell of the character canvas,
    row by row, each row ended by a line feed, a cell wrapped in its
    colour and the reset sequence exactly when its colour is not empty and
    colours are on; the message follows.  With colours off the rows are
    plain text whatever the colour canvas holds, and in print mode nothing
    precedes them. *)
Theorem Render_prints_the_canvas (bt : BonsaiTree R) :
  shape (canvas bt) = shape (colorCanvas bt) ->
  Live (config bt) = false ->
  exists pre,
    RenderOutput bt =
    Done (pre ++ rowsOut (UseColors (config bt)) (canvas bt) (colorCanvas bt)
              ++ messageOut (config bt))%list /\
    (PrintTree (config bt) = true -> pre = []) /\
    (UseColors (config bt) = false ->
     rowsOut (UseColors (config bt)) (canvas bt) (colorCanvas bt)
     = plainOut (canvas bt)).
Proof.
  intros Hwf Hlive. unfold RenderOutput. rewrite Hlive. cbn [negb].
  pose proof (renderRows_exact bt (length (canvas bt)) Hwf 0%nat eq_refl) as Hrows.
  change (Z.of_nat 0) with 0 in Hrows. rewrite Hrows.
  cbn [bindR]. rewrite !drop_0.
  exists ((if negb (initialized bt) then clearScreenOut (config bt) else [])
          ++ (if PrintTree (config bt) then [] else [Csi 1 1]))%list.
  split; [now rewrite <- app_assoc|]. split.
  - intros Hp. unfold clearScreenOut. rewrite Hp. now destruct (initialized bt).
  - intros Hc. rewrite Hc. now apply rowsOut_plain.
Qed.

End Printing.

(** ** A tree without life *)

Section Lifeless.

Context {R : Type} {RS : RandSource R}.

(** X21. With a life of 0 (or less) [GrowTree] draws the base and
    nothing else: it returns with the canvases that [DrawBase] leaves from
    the blanked ones, having counted one branch and no shoot. *)
Theorem GrowTree_without_life (fuel : nat) (bt : BonsaiTree R) :
  shape (canvas bt) = shape (colorCanvas bt) ->
  LifeStart (config bt) <= 0 ->
  exists base bt',
    DrawBase (blanked bt) = Done (tt, base) /\
    GrowTree (S fuel) bt = Done (tt, bt') /\
    canvas bt' = canvas base /\ colorCanvas bt' = colorCanvas base /\
    branches bt' = 1 /\ shoots bt' = 0.
Proof.
  intros Hwf Hlife.
  destruct (DrawBase_outside (blanked bt)) as (base & Hdraw & (Hc & Hb & Hsh & _) & _).
  { cbn [blanked canvas colorCanvas]. now rewrite !shape_fill. }
  cbn [blanked config branches shoots] in Hc, Hb, Hsh.
  exists base. unfold GrowTree. unfold bind at 1.
  rewrite resetTree_blanks by exact Hwf. rewrite Hdraw. cbn [bindR fst snd].
  unfold bind at 1. unfold get at 1. cbn [bindR fst snd]. cbv zeta.
  unfold bind at 1. unfold Branch. unfold bind at 1. unfold incrBranches at 1.
  cbn [bindR fst snd]. unfold bind at 1. unfold get at 1. cbn [bindR fst snd].
  cbn [BranchLoop config]. rewrite Hc.
  destruct (LifeStart (config bt) >? 0) eqn:E; [apply Z.gtb_lt in E; lia|].
  unfold ret at 1. cbn [bindR fst snd].
  destruct (negb (Live (config bt))).
  - eexists. split; [reflexivity|]. split; [unfold Render; reflexivity|].
    cbn [canvas colorCanvas branches shoots]. repeat split; lia.
  - eexists. split; [reflexivity|]. split; [reflexivity|].
    cbn [canvas colorCanvas branches shoots]. repeat split; lia.
Qed.

End Lifeless.

Lemma Render_prints_the_canvas_witness :
  let bt := sampleTree (mkConfig false false true 5 1 1 0 "hi" defaultLeaves 0 0 false)
                       3 2 [] in
  RenderOutput bt =
  Done (plainOut (canvas bt) ++ [Str newline; Str "hi"; Str newline])%list.
Proof.
  intros bt.
  assert (Hwf : shape (canvas bt) = shape (colorCanvas bt)) by reflexivity.
  assert (Hlive : Live (config bt) = false) by reflexivity.
  destruct (Render_prints_the_canvas bt Hwf Hlive) as (pre & Hrun & Hpre & Hplain).
  rewrite Hrun, (Hpre eq_refl), (Hplain eq_refl). reflexivity.
Defined.

Lemma GrowTree_without_life_witness :
  let bt := sampleTree (sampleConfig 0 5 1 0 defaultLeaves) 40 12 [] in
  exists base bt',
    DrawBase (blanked bt) = Done (tt, base) /\
    GrowTree 1 bt = Done (tt, bt') /\ canvas bt' = canvas base.
Proof.
  intros bt.
  assert (Hwf : shape (canvas bt) = shape (colorCanvas bt)) by reflexivity.
  assert (Hlife : LifeStart (config bt) <= 0) by (simpl; lia).
  destruct (GrowTree_without_life 0 bt Hwf Hlife) as (base & bt' & Hd & Hg & Hcv & _).
  exists base, bt'. split; [exact Hd|]. split; [exact Hg | exact Hcv].
Defined.
